(** * satisfied: the editable scene model (app/scene.go)

    A shallow embedding of the scene's undo / redo history, of its
    hit-testing and of its text codec, with the properties the
    specification states about them. *)

From Stdlib Require Import ZArith Lia String Ascii.
From Stdlib Require DecimalString DecimalZ.
From stdpp Require Import base option list sorting strings.


(** Go panics (index out of range, slice bounds out of range) are modelled by
    [None]: a function that can panic returns an [option].  Indices and
    lengths are natural numbers (a negative index panics in Go as an index
    beyond the length does); definition indices and rotations are integers. *)

(* ================================================================== *)
(** ** Slice helpers *)
(* ================================================================== *)

Module Slices.

(** Modelled from the spec: [SwapDelete] is missing from the sources; it is
    the single swap-removal ("move the last element into the removed slot").
    An index out of range panics. *)
Definition SwapDelete {T} (s : list T) (idx : nat) : option (list T) :=
  match last s with
  | Some l =>
      if decide (idx < length s)
      then Some (take (length s - 1) (<[idx := l]> s))
      else None
  | None => None
  end.

(** Modelled from the spec: [SwapInsert] is missing from the sources; it undoes
    one swap-removal: the element now at [idx] goes back to the end and [elt]
    takes its place. *)
Definition SwapInsert {T} (s : list T) (idx : nat) (elt : T) : option (list T) :=
  match s !! idx with
  | Some moved => Some (<[idx := elt]> s ++ [moved])
  | None => if decide (idx = length s) then Some (s ++ [elt]) else None
  end.

(** Insertion into a list kept in decreasing order of [key]. *)
Fixpoint insert_desc {A} (key : A -> nat) (x : A) (l : list A) : list A :=
  match l with
  | [] => [x]
  | y :: l' =>
      if decide (key y <= key x) then x :: y :: l'
      else y :: insert_desc key x l'
  end.

Definition sort_desc {A} (key : A -> nat) (l : list A) : list A :=
  foldr (insert_desc key) [] l.

(** One swap-removal per index, in the order given. *)
Fixpoint delete_each {T} (s : list T) (idxs : list nat) : option (list T) :=
  match idxs with
  | [] => Some s
  | i :: idxs' => s' ← SwapDelete s i; delete_each s' idxs'
  end.

(** One swap-insertion per pair, in the order given. *)
Fixpoint insert_each {T} (s : list T) (ps : list (nat * T)) : option (list T) :=
  match ps with
  | [] => Some s
  | (i, v) :: ps' => s' ← SwapInsert s i v; insert_each s' ps'
  end.

(** Modelled from the spec: [SwapDeleteMany] is missing from the sources.
    "removes elements at the given indices using swap-with-last semantics per
    removal, processed so that all requested indices are correctly removed
    regardless of shifting": the indices are processed from the highest to the
    lowest, so that the element moved into a freed slot is never one that is
    still to be removed. *)
Definition SwapDeleteMany {T} (s : list T) (idxs : list nat) : option (list T) :=
  delete_each s (sort_desc id idxs).

(** Modelled from the spec: [SwapInsertMany] is missing from the sources.
    "restores each value to its original index ... replay swap-deletions in
    reverse": the pairs (index, value) are inserted in the reverse of the order
    in which [SwapDeleteMany] removed them.  The two slices must have the same
    length (the value of each index is read at the same position). *)
Definition SwapInsertMany {T} (s : list T) (idxs : list nat) (elts : list T)
  : option (list T) :=
  if decide (length idxs = length elts)
  then insert_each s (rev (sort_desc fst (zip idxs elts)))
  else None.

(** Modelled from the spec: [CopyIdxs] is missing from the sources; it
    "appends source[i] for each i in indices, preserving indices' order". *)
Definition CopyIdxs {T} (dest src : list T) (idxs : list nat) : option (list T) :=
  vs ← mapM (fun i => src !! i) idxs; Some (dest ++ vs).

(** Modelled from the spec: [Range] is missing from the sources; [Range a b]
    is the slice [a, a+1, ..., b-1]. *)
Definition Range (a b : nat) : list nat := seq a (b - a).

End Slices.

Import Slices.

(* ================================================================== *)
(** ** Object model *)
(* ================================================================== *)

(** The coordinates are [float32] values, which the scene only stores, copies
    and hands to its collaborators: the type is an interface of the model. *)
Class Float32 := {
  float32 : Type;
  (** [0], the zero value of the type *)
  float32_zero : float32;
}.

Section ObjectModel.
Context `{F : Float32}.

(** [rl.Vector2] *)
Record Vector2 := mkVector2 { Vector2_X : float32; Vector2_Y : float32 }.

(** [rl.Rectangle] *)
Record Rectangle := mkRectangle {
  Rectangle_X : float32;
  Rectangle_Y : float32;
  Rectangle_Width : float32;
  Rectangle_Height : float32;
}.

(** Modelled from the spec: the declaration of [Path] is missing from the
    sources; "Path {definition index, start point, end point}". *)
Record Path := mkPath {
  Path_DefIdx : Z;
  Path_Start : Vector2;
  Path_End : Vector2;
}.

(** Modelled from the spec: the declaration of [Building] is missing from the
    sources; "Building {definition index, position, rotation}". *)
Record Building := mkBuilding {
  Building_DefIdx : Z;
  Building_Pos : Vector2;
  Building_Rot : Z;
}.

(** Modelled from the spec: the declaration of [TextBox] is missing from the
    sources; "TextBox {bounds rectangle, text content}". *)
Record TextBox := mkTextBox {
  TextBox_Bounds : Rectangle;
  TextBox_Content : string;
}.

(** The kinds of an [Object]; [TypeNone] is the zero value. *)
Inductive ObjectType :=
  | TypeNone | TypePathStart | TypePathEnd | TypePath | TypeBuilding | TypeTextBox.

(** An object reference: kind and index. *)
Record Object := mkObject { Object_Type : ObjectType; Object_Idx : nat }.

(** [Object{}] *)
Definition Object_zero : Object := mkObject TypeNone 0.

Record ObjectCollection := mkObjectCollection {
  Paths : list Path;
  Buildings : list Building;
  TextBoxes : list TextBox;
}.

(** [ObjectCollection{}] *)
Definition ObjectCollection_zero : ObjectCollection := mkObjectCollection [] [] [].

(** A selected path: its index and which of its ends are selected. *)
Record PathSel := mkPathSel {
  PathSel_Idx : nat;
  PathSel_Start : bool;
  PathSel_End : bool;
}.

(** Modelled from the spec: the declaration of [ObjectSelection] is missing
    from the sources; the fields are those [scene.go] reads and writes, and the
    cached bounding rectangle the spec describes. *)
Record ObjectSelection := mkObjectSelection {
  BuildingIdxs : list nat;
  PathIdxs : list PathSel;
  TextBoxIdxs : list nat;
  Bounds : Rectangle;
}.

Definition Rectangle_zero : Rectangle :=
  mkRectangle float32_zero float32_zero float32_zero float32_zero.

(** [ObjectSelection{}] *)
Definition ObjectSelection_zero : ObjectSelection :=
  mkObjectSelection [] [] [] Rectangle_zero.

(** Modelled from the spec: [FullPathIdxs] is missing from the sources; "full
    path indices (both flags true)". *)
Definition FullPathIdxs (sel : ObjectSelection) : list nat :=
  PathSel_Idx <$> filter (fun e => PathSel_Start e && PathSel_End e = true) (PathIdxs sel).

(** Modelled from the spec: [AnyPathIdxs] is missing from the sources; "any
    path indices (index present regardless of flags)". *)
Definition AnyPathIdxs (sel : ObjectSelection) : list nat :=
  PathSel_Idx <$> PathIdxs sel.

End ObjectModel.

(** The geometry of the objects, which the scene delegates to: hit tests,
    bounds of a building, and the bounding rectangle of a selection. *)
Class Geometry `{F : Float32} := {
  Path_CheckStartCollisionPoint : Path -> Vector2 -> bool;
  Path_CheckEndCollisionPoint : Path -> Vector2 -> bool;
  Path_CheckCollisionPoint : Path -> Vector2 -> bool;
  Building_Bounds : Building -> Rectangle;
  Rectangle_CheckCollisionPoint : Rectangle -> Vector2 -> bool;
  (** the rectangle [recomputeBounds] stores: the union of the bounds of the
      objects the selection refers to in the collection *)
  selectionBounds : ObjectSelection -> ObjectCollection -> Rectangle;
}.

(* ================================================================== *)
(** ** Scene operations and history *)
(* ================================================================== *)

Section SceneModel.
Context `{G : Geometry}.

(** Modelled from the spec: [recomputeBounds] is missing from the sources; it
    refreshes the cached rectangle of the selection against a collection. *)
Definition recomputeBounds (sel : ObjectSelection) (col : ObjectCollection)
  : ObjectSelection :=
  mkObjectSelection (BuildingIdxs sel) (PathIdxs sel) (TextBoxIdxs sel)
    (selectionBounds sel col).

(** The type of an operation: a string in the source, with the three values
    ["add"], ["delete"] and ["modify"]; [do], [redo] and [undo] panic on any
    other value, which the type here leaves out. *)
Inductive sceneOpType := SceneOpAdd | SceneOpDelete | SceneOpModify.

Record sceneOp := mksceneOp {
  sceneOp_Type : sceneOpType;
  Sel : ObjectSelection;
  Old : ObjectCollection;
  New : ObjectCollection;
}.

Record Scene := mkScene {
  Scene_ObjectCollection : ObjectCollection;
  history : list sceneOp;
  historyPos : nat;
  savedHistoryPos : nat;
  Hovered : Object;
  wasModified : bool;
}.

Definition set_ObjectCollection (s : Scene) (c : ObjectCollection) : Scene :=
  mkScene c (history s) (historyPos s) (savedHistoryPos s) (Hovered s) (wasModified s).

(** [for i, idx := range idxs { s[idx] = vals[i] }] *)
Fixpoint assign_each {T} (s : list T) (idxs : list nat) (vals : list T)
  : option (list T) :=
  match idxs, vals with
  | [], _ => Some s
  | idx :: idxs', v :: vals' =>
      if decide (idx < length s) then assign_each (<[idx := v]> s) idxs' vals'
      else None
  | _ :: _, [] => None
  end.

(** [s[:len(s)-n]] *)
Definition drop_last {T} (s : list T) (n : nat) : option (list T) :=
  if decide (n <= length s) then Some (take (length s - n) s) else None.

(** [sceneOp.do], on the collection of the scene (the only part it changes). *)
Definition sceneOp_do (op : sceneOp) (c : ObjectCollection) : option ObjectCollection :=
  match sceneOp_Type op with
  | SceneOpAdd =>
      Some (mkObjectCollection
              (Paths c ++ Paths (New op))
              (Buildings c ++ Buildings (New op))
              (TextBoxes c ++ TextBoxes (New op)))
  | SceneOpDelete =>
      paths ← SwapDeleteMany (Paths c) (FullPathIdxs (Sel op));
      buildings ← SwapDeleteMany (Buildings c) (BuildingIdxs (Sel op));
      textboxes ← SwapDeleteMany (TextBoxes c) (TextBoxIdxs (Sel op));
      Some (mkObjectCollection paths buildings textboxes)
  | SceneOpModify =>
      paths ← assign_each (Paths c) (AnyPathIdxs (Sel op)) (Paths (New op));
      buildings ← assign_each (Buildings c) (BuildingIdxs (Sel op)) (Buildings (New op));
      textboxes ← assign_each (TextBoxes c) (TextBoxIdxs (Sel op)) (TextBoxes (New op));
      Some (mkObjectCollection paths buildings textboxes)
  end.

(** [sceneOp.redo]: the collection after the operation and the new selection. *)
Definition sceneOp_redo (op : sceneOp) (c : ObjectCollection)
  : option (ObjectCollection * ObjectSelection) :=
  match sceneOp_Type op with
  | SceneOpAdd =>
      let c' := mkObjectCollection
                  (Paths c ++ Paths (New op))
                  (Buildings c ++ Buildings (New op))
                  (TextBoxes c ++ TextBoxes (New op)) in
      let n := length (Paths c') in
      let newSel :=
        mkObjectSelection
          (Range (length (Buildings c') - length (Buildings (New op))) (length (Buildings c')))
          ((fun i => mkPathSel (n + i) true true) <$> seq 0 (length (Paths (New op))))
          (Range (length (TextBoxes c') - length (TextBoxes (New op))) (length (TextBoxes c')))
          Rectangle_zero in
      Some (c', recomputeBounds newSel c')
  | SceneOpDelete =>
      paths ← SwapDeleteMany (Paths c) (FullPathIdxs (Sel op));
      buildings ← SwapDeleteMany (Buildings c) (BuildingIdxs (Sel op));
      textboxes ← SwapDeleteMany (TextBoxes c) (TextBoxIdxs (Sel op));
      Some (mkObjectCollection paths buildings textboxes, ObjectSelection_zero)
  | SceneOpModify =>
      paths ← assign_each (Paths c) (AnyPathIdxs (Sel op)) (Paths (New op));
      buildings ← assign_each (Buildings c) (BuildingIdxs (Sel op)) (Buildings (New op));
      textboxes ← assign_each (TextBoxes c) (TextBoxIdxs (Sel op)) (TextBoxes (New op));
      let c' := mkObjectCollection paths buildings textboxes in
      Some (c', recomputeBounds (Sel op) c')
  end.

(** [sceneOp.undo]: the collection before the operation and the new selection. *)
Definition sceneOp_undo (op : sceneOp) (c : ObjectCollection)
  : option (ObjectCollection * ObjectSelection) :=
  match sceneOp_Type op with
  | SceneOpAdd =>
      paths ← drop_last (Paths c) (length (Paths (New op)));
      buildings ← drop_last (Buildings c) (length (Buildings (New op)));
      textboxes ← drop_last (TextBoxes c) (length (TextBoxes (New op)));
      Some (mkObjectCollection paths buildings textboxes, ObjectSelection_zero)
  | SceneOpDelete =>
      paths ← SwapInsertMany (Paths c) (FullPathIdxs (Sel op)) (Paths (Old op));
      buildings ← SwapInsertMany (Buildings c) (BuildingIdxs (Sel op)) (Buildings (Old op));
      textboxes ← SwapInsertMany (TextBoxes c) (TextBoxIdxs (Sel op)) (TextBoxes (Old op));
      Some (mkObjectCollection paths buildings textboxes, Sel op)
  | SceneOpModify =>
      paths ← assign_each (Paths c) (AnyPathIdxs (Sel op)) (Paths (Old op));
      buildings ← assign_each (Buildings c) (BuildingIdxs (Sel op)) (Buildings (Old op));
      textboxes ← assign_each (TextBoxes c) (TextBoxIdxs (Sel op)) (TextBoxes (Old op));
      let c' := mkObjectCollection paths buildings textboxes in
      Some (c', recomputeBounds (Sel op) c')
  end.

(** [s.history[:s.historyPos]]; the capacity of the slice is taken to be its
    length, so a position beyond the length panics. *)
Definition trim_history (s : Scene) : option (list sceneOp) :=
  if decide (historyPos s <= length (history s))
  then Some (take (historyPos s) (history s))
  else None.

(** [Scene.doSceneOp] *)
Definition doSceneOp (s : Scene) (op : sceneOp) : option Scene :=
  h ← trim_history s;
  c ← sceneOp_do op (Scene_ObjectCollection s);
  Some (mkScene c (h ++ [op]) (historyPos s + 1) (savedHistoryPos s)
          Object_zero (wasModified s)).

(** [Scene.AddPath] *)
Definition AddPath (s : Scene) (path : Path) : option Scene :=
  doSceneOp s (mksceneOp SceneOpAdd ObjectSelection_zero ObjectCollection_zero
                 (mkObjectCollection [path] [] [])).

(** [Scene.AddBuilding] *)
Definition AddBuilding (s : Scene) (building : Building) : option Scene :=
  doSceneOp s (mksceneOp SceneOpAdd ObjectSelection_zero ObjectCollection_zero
                 (mkObjectCollection [] [building] [])).

(** [Scene.AddTextBox] *)
Definition AddTextBox (s : Scene) (tb : TextBox) : option Scene :=
  doSceneOp s (mksceneOp SceneOpAdd ObjectSelection_zero ObjectCollection_zero
                 (mkObjectCollection [] [] [tb])).

(** [Scene.AddObjects]; [clone] copies the slices, which is the identity on
    values. *)
Definition AddObjects (s : Scene) (col : ObjectCollection) : option Scene :=
  doSceneOp s (mksceneOp SceneOpAdd ObjectSelection_zero ObjectCollection_zero col).

(** The snapshot [DeleteObjects] and [ModifyObjects] take with [CopyIdxs]. *)
Definition snapshot (c : ObjectCollection) (pathIdxs : list nat)
    (sel : ObjectSelection) : option ObjectCollection :=
  buildings ← CopyIdxs [] (Buildings c) (BuildingIdxs sel);
  paths ← CopyIdxs [] (Paths c) pathIdxs;
  textboxes ← CopyIdxs [] (TextBoxes c) (TextBoxIdxs sel);
  Some (mkObjectCollection paths buildings textboxes).

(** [Scene.DeleteObjects] *)
Definition DeleteObjects (s : Scene) (sel : ObjectSelection) : option Scene :=
  old ← snapshot (Scene_ObjectCollection s) (FullPathIdxs sel) sel;
  doSceneOp s (mksceneOp SceneOpDelete sel old ObjectCollection_zero).

(** [Scene.ModifyObjects] *)
Definition ModifyObjects (s : Scene) (sel : ObjectSelection) (new : ObjectCollection)
  : option Scene :=
  old ← snapshot (Scene_ObjectCollection s) (AnyPathIdxs sel) sel;
  doSceneOp s (mksceneOp SceneOpModify sel old new).

(** [Scene.Undo]: the scene afterwards, whether an operation was undone, and
    the selection handed to [selection.doInitSelection] when one was. *)
Definition Undo (s : Scene) : option (Scene * bool * option ObjectSelection) :=
  if decide (0 < historyPos s) then
    let pos := historyPos s - 1 in
    op ← history s !! pos;
    '(c, newSel) ← sceneOp_undo op (Scene_ObjectCollection s);
    Some (mkScene c (history s) pos (savedHistoryPos s) Object_zero (wasModified s),
          true, Some newSel)
  else Some (s, false, None).

(** [Scene.Redo] *)
Definition Redo (s : Scene) : option (Scene * bool * option ObjectSelection) :=
  if decide (historyPos s < length (history s)) then
    op ← history s !! historyPos s;
    '(c, newSel) ← sceneOp_redo op (Scene_ObjectCollection s);
    Some (mkScene c (history s) (historyPos s + 1) (savedHistoryPos s) Object_zero
            (wasModified s),
          true, Some newSel)
  else Some (s, false, None).

(** [Scene.HasUndo] *)
Definition HasUndo (s : Scene) : bool := bool_decide (0 < historyPos s).

(** [Scene.HasRedo] *)
Definition HasRedo (s : Scene) : bool :=
  bool_decide (historyPos s < length (history s)).

(** [Scene.IsModified] *)
Definition IsModified (s : Scene) : bool :=
  negb (bool_decide (historyPos s = savedHistoryPos s)).

End SceneModel.

(* ================================================================== *)
(** ** Hit-testing *)
(* ================================================================== *)

Section HitTest.
Context `{G : Geometry}.

(** [for i := n - 1; i >= 0; i-- { ... }] with a body that may return a value
    (inner [Some]), fall through to the next iteration (inner [None]) or panic
    (outer [None]). *)
Fixpoint scan_down {A} (n : nat) (body : nat -> option (option A))
  : option (option A) :=
  match n with
  | 0 => Some None
  | S i =>
      r ← body i;
      match r with
      | Some a => Some (Some a)
      | None => scan_down i body
      end
  end.

(** Sequencing of two loops that may return. *)
Definition or_else {A} (x y : option (option A)) : option (option A) :=
  r ← x; match r with Some a => Some (Some a) | None => y end.

(** The three tests of one path, ends before body; [start] and [end_] tell
    whether the end zones are tested at all. *)
Definition path_at (start end_ : bool) (idx : nat) (p : Path) (pos : Vector2)
  : option Object :=
  if start && Path_CheckStartCollisionPoint p pos then Some (mkObject TypePathStart idx)
  else if end_ && Path_CheckEndCollisionPoint p pos then Some (mkObject TypePathEnd idx)
  else if Path_CheckCollisionPoint p pos then Some (mkObject TypePath idx)
  else None.

(** [Scene.GetObjectAt]; the global [selection] it reads is an argument. *)
Definition GetObjectAt (s : Scene) (selection : ObjectSelection) (pos : Vector2)
  : option Object :=
  let c := Scene_ObjectCollection s in
  r ← or_else
        (scan_down (length (PathIdxs selection)) (fun i =>
           elt ← PathIdxs selection !! i;
           p ← Paths c !! PathSel_Idx elt;
           Some (path_at (PathSel_Start elt) (PathSel_End elt) (PathSel_Idx elt) p pos)))
     (or_else
        (scan_down (length (BuildingIdxs selection)) (fun i =>
           idx ← BuildingIdxs selection !! i;
           b ← Buildings c !! idx;
           Some (if Rectangle_CheckCollisionPoint (Building_Bounds b) pos
                 then Some (mkObject TypeBuilding idx) else None)))
     (or_else
        (scan_down (length (TextBoxIdxs selection)) (fun i =>
           idx ← TextBoxIdxs selection !! i;
           tb ← TextBoxes c !! idx;
           Some (if Rectangle_CheckCollisionPoint (TextBox_Bounds tb) pos
                 then Some (mkObject TypeTextBox idx) else None)))
     (or_else
        (scan_down (length (Paths c)) (fun i =>
           p ← Paths c !! i;
           Some (path_at true true i p pos)))
     (or_else
        (scan_down (length (Buildings c)) (fun i =>
           b ← Buildings c !! i;
           Some (if Rectangle_CheckCollisionPoint (Building_Bounds b) pos
                 then Some (mkObject TypeBuilding i) else None)))
        (scan_down (length (TextBoxes c)) (fun i =>
           tb ← TextBoxes c !! i;
           Some (if Rectangle_CheckCollisionPoint (TextBox_Bounds tb) pos
                 then Some (mkObject TypeTextBox i) else None)))))));
  Some (default Object_zero r).

(** *** The priority order, as lists of candidates *)

(** The objects of one path that contain the point, in the order tested. *)
Definition path_hits (start end_ : bool) (idx : nat) (p : Path) (pos : Vector2)
  : list Object :=
  (if start && Path_CheckStartCollisionPoint p pos then [mkObject TypePathStart idx] else [])
  ++ (if end_ && Path_CheckEndCollisionPoint p pos then [mkObject TypePathEnd idx] else [])
  ++ (if Path_CheckCollisionPoint p pos then [mkObject TypePath idx] else []).

Definition rect_hits (ty : ObjectType) (idx : nat) (r : Rectangle) (pos : Vector2)
  : list Object :=
  if Rectangle_CheckCollisionPoint r pos then [mkObject ty idx] else [].

(** Every object that contains the point, in the order of priority of the
    code: the entries of the selection from the last to the first (paths,
    buildings, text boxes), then all the objects of the collection from the
    highest index to the lowest (paths, buildings, text boxes). *)
Definition candidates (c : ObjectCollection) (selection : ObjectSelection)
    (pos : Vector2) : list Object :=
  (rev (PathIdxs selection) ≫= fun elt =>
     match Paths c !! PathSel_Idx elt with
     | Some p => path_hits (PathSel_Start elt) (PathSel_End elt) (PathSel_Idx elt) p pos
     | None => []
     end)
  ++ (rev (BuildingIdxs selection) ≫= fun idx =>
     match Buildings c !! idx with
     | Some b => rect_hits TypeBuilding idx (Building_Bounds b) pos
     | None => []
     end)
  ++ (rev (TextBoxIdxs selection) ≫= fun idx =>
     match TextBoxes c !! idx with
     | Some tb => rect_hits TypeTextBox idx (TextBox_Bounds tb) pos
     | None => []
     end)
  ++ (rev (imap (fun i p => path_hits true true i p pos) (Paths c)) ≫= id)
  ++ (rev (imap (fun i b => rect_hits TypeBuilding i (Building_Bounds b) pos) (Buildings c)) ≫= id)
  ++ (rev (imap (fun i tb => rect_hits TypeTextBox i (TextBox_Bounds tb) pos) (TextBoxes c)) ≫= id).

(** The selection refers to objects of the collection. *)
Definition selection_in_range (c : ObjectCollection) (selection : ObjectSelection)
  : Prop :=
  Forall (fun elt => PathSel_Idx elt < length (Paths c)) (PathIdxs selection)
  /\ Forall (fun idx => idx < length (Buildings c)) (BuildingIdxs selection)
  /\ Forall (fun idx => idx < length (TextBoxes c)) (TextBoxIdxs selection).

(** *** The priority order as the specification words it

    "selected paths > selected buildings > selected textboxes > unselected
    paths > unselected buildings > unselected textboxes, each scanned from
    highest index to lowest, and for paths checking endpoint hit-zones before
    body". *)

(** The indices of [0 .. n-1] that are (or are not) among [idxs], from the
    highest to the lowest. *)
Definition group_indices (n : nat) (idxs : list nat) (selected : bool) : list nat :=
  rev (filter (fun i => bool_decide (i ∈ idxs) = selected) (seq 0 n)).

Definition spec_path_group (c : ObjectCollection) (idxs : list nat)
    (selected : bool) (pos : Vector2) : list Object :=
  group_indices (length (Paths c)) idxs selected ≫= fun i =>
    match Paths c !! i with
    | Some p => path_hits true true i p pos
    | None => []
    end.

Definition spec_building_group (c : ObjectCollection) (idxs : list nat)
    (selected : bool) (pos : Vector2) : list Object :=
  group_indices (length (Buildings c)) idxs selected ≫= fun i =>
    match Buildings c !! i with
    | Some b => rect_hits TypeBuilding i (Building_Bounds b) pos
    | None => []
    end.

Definition spec_textbox_group (c : ObjectCollection) (idxs : list nat)
    (selected : bool) (pos : Vector2) : list Object :=
  group_indices (length (TextBoxes c)) idxs selected ≫= fun i =>
    match TextBoxes c !! i with
    | Some tb => rect_hits TypeTextBox i (TextBox_Bounds tb) pos
    | None => []
    end.

Definition ObjectAt_spec (s : Scene) (selection : ObjectSelection) (pos : Vector2)
  : Object :=
  let c := Scene_ObjectCollection s in
  hd Object_zero
    (spec_path_group c (AnyPathIdxs selection) true pos
     ++ spec_building_group c (BuildingIdxs selection) true pos
     ++ spec_textbox_group c (TextBoxIdxs selection) true pos
     ++ spec_path_group c (AnyPathIdxs selection) false pos
     ++ spec_building_group c (BuildingIdxs selection) false pos
     ++ spec_textbox_group c (TextBoxIdxs selection) false pos).

End HitTest.

(* ================================================================== *)
(** ** An instance with integer coordinates

    The interfaces are instantiated with integer coordinates to run the
    model on concrete scenes. *)
(* ================================================================== *)

Module IntGeometry.

Definition Float32_Z : Float32 := {| float32 := Z; float32_zero := 0%Z |}.

#[local] Existing Instance Float32_Z.

Definition point_eqb (a b : Vector2) : bool :=
  (Vector2_X a =? Vector2_X b)%Z && (Vector2_Y a =? Vector2_Y b)%Z.

(** [rec.x <= x < rec.x + rec.width && rec.y <= y < rec.y + rec.height] *)
Definition rect_contains (r : Rectangle) (p : Vector2) : bool :=
  (Rectangle_X r <=? Vector2_X p)%Z
  && (Vector2_X p <? Rectangle_X r + Rectangle_Width r)%Z
  && (Rectangle_Y r <=? Vector2_Y p)%Z
  && (Vector2_Y p <? Rectangle_Y r + Rectangle_Height r)%Z.

(** The smallest rectangle around two corners, one cell wide at least. *)
Definition rect_around (a b : Vector2) : Rectangle :=
  let x := Z.min (Vector2_X a) (Vector2_X b) in
  let y := Z.min (Vector2_Y a) (Vector2_Y b) in
  mkRectangle x y
    (Z.max (Vector2_X a) (Vector2_X b) - x + 1)%Z
    (Z.max (Vector2_Y a) (Vector2_Y b) - y + 1)%Z.

Definition rect_union (r1 r2 : Rectangle) : Rectangle :=
  let x := Z.min (Rectangle_X r1) (Rectangle_X r2) in
  let y := Z.min (Rectangle_Y r1) (Rectangle_Y r2) in
  mkRectangle x y
    (Z.max (Rectangle_X r1 + Rectangle_Width r1) (Rectangle_X r2 + Rectangle_Width r2) - x)%Z
    (Z.max (Rectangle_Y r1 + Rectangle_Height r1) (Rectangle_Y r2 + Rectangle_Height r2) - y)%Z.

Definition rects_union (rs : list Rectangle) : Rectangle :=
  match rs with
  | [] => Rectangle_zero
  | r :: rs' => foldl rect_union r rs'
  end.

(** A building covers one cell at its position. *)
Definition building_bounds (b : Building) : Rectangle :=
  mkRectangle (Vector2_X (Building_Pos b)) (Vector2_Y (Building_Pos b)) 1%Z 1%Z.

Definition selection_bounds (sel : ObjectSelection) (c : ObjectCollection)
  : Rectangle :=
  rects_union
    ((PathIdxs sel ≫= fun elt =>
        match Paths c !! PathSel_Idx elt with
        | Some p => [rect_around (Path_Start p) (Path_End p)]
        | None => []
        end)
     ++ (BuildingIdxs sel ≫= fun idx =>
        match Buildings c !! idx with
        | Some b => [building_bounds b]
        | None => []
        end)
     ++ (TextBoxIdxs sel ≫= fun idx =>
        match TextBoxes c !! idx with
        | Some tb => [TextBox_Bounds tb]
        | None => []
        end)).

Definition Geometry_Z : Geometry := {|
  Path_CheckStartCollisionPoint p pos := point_eqb (Path_Start p) pos;
  Path_CheckEndCollisionPoint p pos := point_eqb (Path_End p) pos;
  Path_CheckCollisionPoint p pos := rect_contains (rect_around (Path_Start p) (Path_End p)) pos;
  Building_Bounds := building_bounds;
  Rectangle_CheckCollisionPoint := rect_contains;
  selectionBounds := selection_bounds;
|}.

End IntGeometry.

(* ================================================================== *)
(** ** The mutators of the scene, as one type *)
(* ================================================================== *)

Section Mutators.
Context `{G : Geometry}.

(** One call of a mutator of the scene: each builds an operation and hands it
    to [doSceneOp]. *)
Inductive mutation :=
  | MAddPath (path : Path)
  | MAddBuilding (building : Building)
  | MAddTextBox (tb : TextBox)
  | MAddObjects (col : ObjectCollection)
  | MDeleteObjects (sel : ObjectSelection)
  | MModifyObjects (sel : ObjectSelection) (new : ObjectCollection).

Definition mutate (s : Scene) (m : mutation) : option Scene :=
  match m with
  | MAddPath path => AddPath s path
  | MAddBuilding building => AddBuilding s building
  | MAddTextBox tb => AddTextBox s tb
  | MAddObjects col => AddObjects s col
  | MDeleteObjects sel => DeleteObjects s sel
  | MModifyObjects sel new => ModifyObjects s sel new
  end.

(** The invariant of a selection that a deletion relies on: no object is
    selected twice ("each path index appears at most once in a selection";
    buildings and text boxes are "sets of indices"). *)
Definition selection_distinct (sel : ObjectSelection) : Prop :=
  NoDup (AnyPathIdxs sel) /\ NoDup (BuildingIdxs sel) /\ NoDup (TextBoxIdxs sel).

Definition mutation_distinct (m : mutation) : Prop :=
  match m with
  | MDeleteObjects sel => selection_distinct sel
  | _ => True
  end.

(** An operation carries what its undo needs: a deletion and a modification
    hold the values [CopyIdxs] read in the collection they are applied to, and
    a deletion names no object twice. *)
Definition op_captures (c : ObjectCollection) (op : sceneOp) : Prop :=
  match sceneOp_Type op with
  | SceneOpAdd => True
  | SceneOpDelete =>
      snapshot c (FullPathIdxs (Sel op)) (Sel op) = Some (Old op)
      /\ selection_distinct (Sel op)
  | SceneOpModify =>
      snapshot c (AnyPathIdxs (Sel op)) (Sel op) = Some (Old op)
  end.

(** The operation a mutator records, when its snapshot does not panic. *)
Definition mutation_op (c : ObjectCollection) (m : mutation) : option sceneOp :=
  match m with
  | MAddPath path =>
      Some (mksceneOp SceneOpAdd ObjectSelection_zero ObjectCollection_zero
              (mkObjectCollection [path] [] []))
  | MAddBuilding building =>
      Some (mksceneOp SceneOpAdd ObjectSelection_zero ObjectCollection_zero
              (mkObjectCollection [] [building] []))
  | MAddTextBox tb =>
      Some (mksceneOp SceneOpAdd ObjectSelection_zero ObjectCollection_zero
              (mkObjectCollection [] [] [tb]))
  | MAddObjects col =>
      Some (mksceneOp SceneOpAdd ObjectSelection_zero ObjectCollection_zero col)
  | MDeleteObjects sel =>
      old ← snapshot c (FullPathIdxs sel) sel;
      Some (mksceneOp SceneOpDelete sel old ObjectCollection_zero)
  | MModifyObjects sel new =>
      old ← snapshot c (AnyPathIdxs sel) sel;
      Some (mksceneOp SceneOpModify sel old new)
  end.

(** [Scene{}] *)
Definition Scene_zero : Scene :=
  mkScene ObjectCollection_zero [] 0 0 Object_zero false.

End Mutators.

(* ================================================================== *)
(** ** Concrete scenes *)
(* ================================================================== *)

Module Examples.
Import IntGeometry.
#[local] Existing Instance Float32_Z.
#[local] Existing Instance Geometry_Z.

Definition pt (x y : Z) : Vector2 := mkVector2 x y.

Definition path0 : Path := mkPath 0 (pt 0 0) (pt 4 0).
Definition path1 : Path := mkPath 0 (pt 0 2) (pt 4 2).
Definition building0 : Building := mkBuilding 0 (pt 10 10) 0.
Definition building1 : Building := mkBuilding 1 (pt 20 10) 90.
Definition textbox0 : TextBox := mkTextBox (mkRectangle 0%Z 0%Z 10%Z 10%Z) "first".
Definition textbox1 : TextBox := mkTextBox (mkRectangle 0%Z 0%Z 10%Z 10%Z) "second".

(** A scene with two objects of each kind and an empty history. *)
Definition scene6 : Scene :=
  mkScene (mkObjectCollection [path0; path1] [building0; building1] [textbox0; textbox1])
    [] 0 0 Object_zero false.

(** The scene reached from the empty scene by adding one text box, then one
    building, and undoing the second addition. *)
Definition scene_after_undo : option Scene :=
  s1 ← AddTextBox Scene_zero textbox0;
  s2 ← AddBuilding s1 building0;
  r ← Undo s2;
  Some r.1.1.

(** The operation that adds one path. *)
Definition op_add_path0 : sceneOp :=
  mksceneOp SceneOpAdd ObjectSelection_zero ObjectCollection_zero
    (mkObjectCollection [path0] [] []).

(** The empty scene with the addition of one path undone. *)
Definition scene_add_undone : Scene :=
  mkScene ObjectCollection_zero [op_add_path0] 0 0 Object_zero false.

(** A selection of the first text box whose cached bounds are not those of the
    text box. *)
Definition sel_textbox0_stale : ObjectSelection :=
  mkObjectSelection [] [] [0] (mkRectangle 0%Z 0%Z 0%Z 0%Z).

(** The second text box listed before the first one. *)
Definition sel_textboxes_1_0 : ObjectSelection :=
  mkObjectSelection [] [] [1; 0] (mkRectangle 0%Z 0%Z 10%Z 10%Z).

(** The first path, fully selected, the start of the second one, the second
    building and the first text box of [scene6]. *)
Definition sel_mixed : ObjectSelection :=
  mkObjectSelection [1] [mkPathSel 0 true true; mkPathSel 1 true false] [0]
    (mkRectangle 0%Z 0%Z 21%Z 11%Z).

(** The operation [DeleteObjects] records for [sel_textbox0_stale]. *)
Definition op_delete_textbox0 : sceneOp :=
  mksceneOp SceneOpDelete sel_textbox0_stale
    (mkObjectCollection [] [] [textbox0]) ObjectCollection_zero.

(** [scene6] after [DeleteObjects] with [sel_textbox0_stale]. *)
Definition scene_textbox0_deleted : Scene :=
  mkScene (mkObjectCollection [path0; path1] [building0; building1] [textbox1])
    [op_delete_textbox0] 1 0 Object_zero false.

(** [scene_textbox0_deleted] after [Undo]. *)
Definition scene_textbox0_restored : Scene :=
  mkScene (mkObjectCollection [path0; path1] [building0; building1] [textbox0; textbox1])
    [op_delete_textbox0] 0 0 Object_zero false.

End Examples.

(* ================================================================== *)
(** ** Text codec: the library functions the codec calls *)
(* ================================================================== *)

(** The errors of the Go library that the codec can meet. *)
Inductive GoError :=
  | ErrEOF                  (* io.EOF *)
  | ErrUnexpectedEOF        (* io.ErrUnexpectedEOF *)
  | ErrInputDoesNotMatch    (* fmt: input does not match format *)
  | ErrExpectedSpace        (* fmt: expected space in input to match format *)
  | ErrNewlineInInput       (* fmt: newline in input does not match format *)
  | ErrUnexpectedNewline    (* fmt: unexpected newline *)
  | ErrExpectedInteger      (* fmt: expected integer *)
  | ErrIntSyntax            (* strconv.ParseInt: invalid syntax *)
  | ErrIntRange             (* strconv.ParseInt: value out of range *)
  | ErrParseFloat           (* strconv.ParseFloat: any error *)
  | ErrSyntax               (* strconv.ErrSyntax, from Unquote *)
  | ErrTooLong.             (* bufio.ErrTooLong *)

(** A value or an error. *)
Inductive result (A : Type) :=
  | Ok (a : A)
  | Error (e : GoError).
Arguments Ok {A} a.
Arguments Error {A} e.

#[global] Instance result_ret : MRet result := fun A a => Ok a.
#[global] Instance result_bind : MBind result := fun A B f m =>
  match m with
  | Ok a => f a
  | Error e => Error e
  end.

Module Text.

Definition LF : ascii := "010"%char.
Definition CR : ascii := "013"%char.
Definition SP : ascii := " "%char.
(** The double quote. *)
Definition DQ : ascii := "034"%char.

(** [strings.Split(s, "\n")] *)
Fixpoint split_newlines (s : string) : list string :=
  match s with
  | EmptyString => [EmptyString]
  | String c s' =>
      if Ascii.eqb c LF then EmptyString :: split_newlines s'
      else match split_newlines s' with
           | l :: ls => String c l :: ls
           | [] => [String c EmptyString]
           end
  end.

(** [dropCR] of [bufio]: a line loses one trailing carriage return. *)
Fixpoint dropCR (line : string) : string :=
  match line with
  | EmptyString => EmptyString
  | String c EmptyString => if Ascii.eqb c CR then EmptyString else line
  | String c rest => String c (dropCR rest)
  end.

(** Whether the string is free of newlines. *)
Fixpoint no_newline (s : string) : bool :=
  match s with
  | EmptyString => true
  | String c s' => negb (Ascii.eqb c LF) && no_newline s'
  end.

(** Whether every character of the string passes the test. *)
Fixpoint all_chars (P : ascii -> bool) (s : string) : bool :=
  match s with
  | EmptyString => true
  | String c s' => P c && all_chars P s'
  end.

(** [bufio.MaxScanTokenSize] *)
Definition MaxScanTokenSize : nat := 64 * 1024.

(** What the successive calls of [Scan] of a [bufio.Scanner] (with
    [ScanLines], the default) return on an input held in memory: the lines,
    without their end-of-line marker, up to the end of the input or up to the
    first line that does not fit in the buffer of [MaxScanTokenSize] bytes,
    where the scanner stops with [ErrTooLong].  An empty last line (after the
    final newline) is no token. *)
Fixpoint scan_tokens (segs : list string) : list string * option GoError :=
  match segs with
  | [] => ([], None)
  | [last] =>
      if String.eqb last EmptyString then ([], None)
      else if String.length last <? MaxScanTokenSize then ([dropCR last], None)
      else ([], Some ErrTooLong)
  | seg :: rest =>
      if String.length seg <? MaxScanTokenSize
      then let '(ts, e) := scan_tokens rest in (dropCR seg :: ts, e)
      else ([], Some ErrTooLong)
  end.

Definition ScanLines (input : string) : list string * option GoError :=
  scan_tokens (split_newlines input).

(** [strings.Cut(s, " ")]: before and after the first space; without a space,
    the whole string and the empty string. *)
Fixpoint Cut (s : string) : string * string :=
  match s with
  | EmptyString => (EmptyString, EmptyString)
  | String c s' =>
      if Ascii.eqb c SP then (EmptyString, s')
      else let '(before, after) := Cut s' in (String c before, after)
  end.

(** Whether the string holds a space. *)
Fixpoint has_space (s : string) : bool :=
  match s with
  | EmptyString => false
  | String c s' => Ascii.eqb c SP || has_space s'
  end.

(** [strings.SplitN(s, " ", n)] for [n > 0]: at most [n] fields, the last one
    the unsplit rest. *)
Fixpoint SplitN (s : string) (n : nat) : list string :=
  match n with
  | 0 => []
  | 1 => [s]
  | S n' =>
      if has_space s then let '(before, after) := Cut s in before :: SplitN after n'
      else [s]
  end.

(** *** [fmt.Sscanf]

    The scanner reads the input rune by rune ([ReadRune] decodes UTF-8).  The
    formats of the codec are ASCII, so a literal or a digit is matched on one
    byte; only the test for spaces looks at runes of several bytes. *)

(** [isSpace] of [fmt] on the runes of one byte: tab, newline, vertical tab,
    form feed, carriage return and space. *)
Definition isSpace (c : ascii) : bool :=
  let n := nat_of_ascii c in ((9 <=? n) && (n <=? 13)) || (n =? 32).

Definition isDigit (c : ascii) : bool :=
  let n := nat_of_ascii c in (48 <=? n) && (n <=? 57).

(** The runes of three bytes that [isSpace] accepts, as UTF-8 writes them
    (bytes in decimal): U+1680 (225 154 128), U+2000 to U+200A (226 128 128
    to 226 128 138), U+2028 and U+2029 (226 128 168, 226 128 169), U+202F
    (226 128 175), U+205F (226 129 159) and U+3000 (227 128 128). *)
Definition wide_space3 (b0 b1 b2 : nat) : bool :=
  ((b0 =? 225) && (b1 =? 154) && (b2 =? 128))
  || ((b0 =? 226) && (b1 =? 128)
      && (((128 <=? b2) && (b2 <=? 138)) || (b2 =? 168) || (b2 =? 169) || (b2 =? 175)))
  || ((b0 =? 226) && (b1 =? 129) && (b2 =? 159))
  || ((b0 =? 227) && (b1 =? 128) && (b2 =? 128)).

(** The number of bytes of the rune at the head of the input when [isSpace]
    accepts it, and 0 when it does not (or at the end of the input).  The
    runes of two bytes it accepts are U+0085 (194 133) and U+00A0 (194 160); a
    space has one encoding only, since [ReadRune] gives U+FFFD, which is no
    space, for bytes that are not valid UTF-8. *)
Definition space_width (s : string) : nat :=
  match s with
  | EmptyString => 0
  | String c0 s1 =>
      if isSpace c0 then 1
      else
        match s1 with
        | EmptyString => 0
        | String c1 s2 =>
            if (nat_of_ascii c0 =? 194)
               && ((nat_of_ascii c1 =? 133) || (nat_of_ascii c1 =? 160))
            then 2
            else
              match s2 with
              | EmptyString => 0
              | String c2 _ =>
                  if wide_space3 (nat_of_ascii c0) (nat_of_ascii c1) (nat_of_ascii c2)
                  then 3 else 0
              end
        end
  end.

(** [ss.SkipSpace] of a scan that does not take newlines as spaces; [skip]
    counts the bytes still to drop of the space being skipped. *)
Fixpoint SkipSpace_from (skip : nat) (s : string) : result string :=
  match s with
  | EmptyString => Ok EmptyString
  | String c s' =>
      match skip with
      | S k => SkipSpace_from k s'
      | 0 =>
          if Ascii.eqb c LF then Error ErrUnexpectedNewline
          else
            match space_width s with
            | 0 => Ok s
            | S k => SkipSpace_from k s'
            end
      end
  end.

Definition SkipSpace (s : string) : result string := SkipSpace_from 0 s.

(** [ss.notEOF]: it panics with [io.EOF], which [Sscanf] returns. *)
Definition notEOF (s : string) : result unit :=
  match s with
  | EmptyString => Error ErrEOF
  | _ => Ok tt
  end.

(** A run of literal characters of the format. *)
Fixpoint literal (lit : string) (s : string) : result string :=
  match lit with
  | EmptyString => Ok s
  | String c lit' =>
      match s with
      | EmptyString => Error ErrUnexpectedEOF
      | String d s' =>
          if Ascii.eqb c d then literal lit' s' else Error ErrInputDoesNotMatch
      end
  end.

(** The spaces of the input, newline apart, that a space of the format takes
    after the first one; [skip] counts the bytes still to drop of the space
    being skipped. *)
Fixpoint skip_blanks_from (skip : nat) (s : string) : string :=
  match s with
  | EmptyString => EmptyString
  | String c s' =>
      match skip with
      | S k => skip_blanks_from k s'
      | 0 =>
          if Ascii.eqb c LF then s
          else
            match space_width s with
            | 0 => s
            | S k => skip_blanks_from k s'
            end
      end
  end.

(** A space of the format (not next to a newline of the format): one space
    of the input at least, or its end. *)
Definition format_space (s : string) : result string :=
  match s with
  | EmptyString => Ok EmptyString
  | String c s' =>
      match space_width s with
      | 0 => Error ErrExpectedSpace
      | S k => if Ascii.eqb c LF then Error ErrNewlineInInput
               else Ok (skip_blanks_from k s')
      end
  end.

(** [for s.accept(digits) {}] with the decimal digits of the verb [%d]: the
    longest prefix made of digits, and the rest. *)
Fixpoint scanNumber (s : string) : string * string :=
  match s with
  | String c s' =>
      if isDigit c
      then let '(tok, rest) := scanNumber s' in (String c tok, rest)
      else (EmptyString, s)
  | EmptyString => (EmptyString, EmptyString)
  end.

Definition minInt64 : Z := - 2 ^ 63.
Definition maxInt64 : Z := 2 ^ 63 - 1.

(** [strconv.ParseInt(tok, 10, 64)] of an optional sign and digits. *)
Definition ParseInt (negative : bool) (digits : string) : result Z :=
  match digits with
  | EmptyString => Error ErrIntSyntax
  | _ =>
      match DecimalString.NilEmpty.uint_of_string digits with
      | None => Error ErrIntSyntax
      | Some d =>
          let v := if negative then (- Z.of_uint d)%Z else Z.of_uint d in
          if (minInt64 <=? v)%Z && (v <=? maxInt64)%Z then Ok v
          else Error ErrIntRange
      end
  end.

(** [ss.accept(sign)]: an optional sign; whether it is a minus, and the rest. *)
Definition scan_sign (s : string) : bool * string :=
  match s with
  | String c s' =>
      if Ascii.eqb c "+"%char then (false, s')
      else if Ascii.eqb c "-"%char then (true, s')
      else (false, s)
  | EmptyString => (false, s)
  end.

(** [ss.scanInt] for the verb [%d] and an [int] of 64 bits; [ss.scanNumber]
    checks for the end of the input again after the sign. *)
Definition scanInt (s : string) : result (Z * string) :=
  s ← SkipSpace s;
  _ ← notEOF s;
  let '(negative, s) := scan_sign s in
  _ ← notEOF s;
  let '(tok, rest) := scanNumber s in
  match tok with
  | EmptyString => Error ErrExpectedInteger
  | _ => v ← ParseInt negative tok; Ok (v, rest)
  end.

(** The end of a number in the input: the end of the input or a character
    that is not a digit. *)
Definition number_ends (rest : string) : Prop :=
  match rest with
  | EmptyString => True
  | String c _ => isDigit c = false
  end.

(** An ASCII character that is no space: a rune by itself, and one that
    [SkipSpace] stops at. *)
Definition plain (c : ascii) : bool :=
  (nat_of_ascii c <? 128) && negb (isSpace c).

(** A text of ASCII characters without any space (space, tab, newline,
    vertical tab, form feed, carriage return). *)
Definition word (s : string) : bool := all_chars plain s.

(** A text without newline and without carriage return. *)
Definition one_line (s : string) : bool :=
  all_chars (fun c => negb (Ascii.eqb c LF) && negb (Ascii.eqb c CR)) s.

(** The end of a field in the input: the end of the input or a space. *)
Definition field_ends (rest : string) : Prop :=
  match rest with
  | EmptyString => True
  | String c _ => c = SP
  end.

(** [%d] of [fmt.Sprintf] for an [int]. *)
Definition formatInt (z : Z) : string :=
  DecimalString.NilZero.string_of_int (Z.to_int z).

(** [fmt.Sscanf(line, "#VERSION=%d", &ver)] *)
Definition Sscanf_version (line : string) : result Z :=
  s ← literal "#VERSION=" line;
  s ← SkipSpace s;
  '(ver, _) ← scanInt s;
  Ok ver.

End Text.

(** The texts of [float32] values and of quoted strings: [%v] and [%f] of
    [fmt], [ParseFloat32], [strconv.Quote] and [strconv.Unquote]. *)
Class TextFormat `{F : Float32} := {
  (** [%v] of [fmt.Sprintf] for a [float32] *)
  formatFloat : float32 -> string;
  (** [ss.floatToken] then [ss.convertFloat]: the longest prefix of the input
      that reads as a number, converted, and the rest of the input; [None]
      when the conversion fails *)
  scanFloatToken : string -> option (float32 * string);
  (** [ParseFloat32], missing from the sources: the whole field as a
      [float32] *)
  ParseFloat32 : string -> option float32;
  (** [strconv.Quote] *)
  Quote : string -> string;
  (** [strconv.Unquote] *)
  Unquote : string -> option string;
}.

(** The registries of definitions: the class names, in the order of their
    indices. *)
Class Registry := {
  pathDefs : list string;
  buildingDefs : list string;
}.

(* ================================================================== *)
(** ** Text codec: [SaveToText] and [LoadFromText] *)
(* ================================================================== *)

Section Codec.
Context `{TF : TextFormat} `{R : Registry}.
Import Text.

Definition tagVersion : string := "#VERSION".
Definition textboxClass : string := "TextBox".

(** Modelled from the spec: the constant [version] is missing from the
    sources; "version 0 (the only implemented version)". *)
Definition version : Z := 0.

Definition msgEmpty : string := "empty file".
Definition msgInvalidVersionLine : string :=
  "invalid first line, expected '#VERSION=x'".
Definition msgInvalidVersionNumber : string :=
  "invalid version, expected a positive integer".
Definition msgVersionTooHigh : string := "version is too high".
Definition msgInvalidPath : string :=
  "invalid path line expected '[class] [startX] [startY] [endX] [endY]'".
Definition msgInvalidBuilding : string :=
  "invalid building line expected '[class] [posX] [posY] [rotation]'".
Definition msgInvalidTextBox : string :=
  "invalid textbox line expected '[class] [posX] [posY] [width] [height] [content]'".
Definition msgInvalidClass : string := "unknown class".

(** Modelled from the spec: [Index] of a registry is missing from the sources;
    "IndexOf(className) -> index-or-absent", "by exact string match": the
    index of the first definition of that class, [-1] when there is none. *)
Fixpoint Index (defs : list string) (class : string) : Z :=
  match defs with
  | [] => -1
  | d :: defs' =>
      if String.eqb d class then 0
      else let i := Index defs' class in
           if (i <? 0)%Z then -1 else (i + 1)%Z
  end.

(** [Def().Class] of an object: the class at its definition index; an index
    out of the registry panics. *)
Definition Def_Class (defs : list string) (defIdx : Z) : option string :=
  if (0 <=? defIdx)%Z then defs !! Z.to_nat defIdx else None.

Definition NL : string := String LF EmptyString.

(** The successive [WriteString] calls: the lines one after the other. *)
Definition write_all (lines : list string) : string :=
  foldr String.append EmptyString lines.

(** [fmt.Sprintf("%s %v %v %d\n", b.Def().Class, b.Pos.X, b.Pos.Y, b.Rot)],
    without the newline. *)
Definition building_text (class : string) (b : Building) : string :=
  class +:+ " " +:+ formatFloat (Vector2_X (Building_Pos b))
  +:+ " " +:+ formatFloat (Vector2_Y (Building_Pos b))
  +:+ " " +:+ formatInt (Building_Rot b).

Definition building_line (b : Building) : option string :=
  class ← Def_Class buildingDefs (Building_DefIdx b);
  Some (building_text class b +:+ NL).

(** [fmt.Sprintf("%s %v %v %v %v\n", p.Def().Class, p.Start.X, p.Start.Y,
    p.End.X, p.End.Y)], without the newline. *)
Definition path_text (class : string) (p : Path) : string :=
  class +:+ " " +:+ formatFloat (Vector2_X (Path_Start p))
  +:+ " " +:+ formatFloat (Vector2_Y (Path_Start p))
  +:+ " " +:+ formatFloat (Vector2_X (Path_End p))
  +:+ " " +:+ formatFloat (Vector2_Y (Path_End p)).

Definition path_line (p : Path) : option string :=
  class ← Def_Class pathDefs (Path_DefIdx p);
  Some (path_text class p +:+ NL).

(** [fmt.Sprintf("%s %v %v %v %v %v\n", textboxClass, tb.Bounds.X, tb.Bounds.Y,
    tb.Bounds.Width, tb.Bounds.Height, strconv.Quote(tb.Content))], without
    the newline. *)
Definition textbox_text (tb : TextBox) : string :=
  textboxClass +:+ " " +:+ formatFloat (Rectangle_X (TextBox_Bounds tb))
  +:+ " " +:+ formatFloat (Rectangle_Y (TextBox_Bounds tb))
  +:+ " " +:+ formatFloat (Rectangle_Width (TextBox_Bounds tb))
  +:+ " " +:+ formatFloat (Rectangle_Height (TextBox_Bounds tb))
  +:+ " " +:+ Quote (TextBox_Content tb).

Definition textbox_line (tb : TextBox) : string := textbox_text tb +:+ NL.

(** [fmt.Sprintf("%s=%d\n", tagVersion, version)] *)
Definition version_line : string :=
  (tagVersion +:+ "=" +:+ formatInt version) +:+ NL.

(** [Scene.SaveToText] into a writer that does not fail: the text written. *)
Definition SaveToText (s : Scene) : option string :=
  let c := Scene_ObjectCollection s in
  buildings ← mapM building_line (Buildings c);
  paths ← mapM path_line (Paths c);
  Some (version_line
        +:+ write_all buildings
        +:+ write_all paths
        +:+ write_all (textbox_line <$> TextBoxes c)).

Record DecodeTextError := mkDecodeTextError {
  Msg : string;
  Err : option GoError;
  Line : nat;
  Version : Z;
}.

(** The [error] [LoadFromText] returns: the error of the scanner as it is, or
    a [DecodeTextError]. *)
Inductive LoadError :=
  | ScannerError (e : GoError)
  | DecodeError (e : DecodeTextError).

(** The verb [%f] into a [float32]: [doScanf] skips spaces, and so does
    [scanOne] before it reads the token. *)
Definition verb_f (s : string) : result (float32 * string) :=
  s ← SkipSpace s;
  s ← SkipSpace s;
  _ ← notEOF s;
  match scanFloatToken s with
  | Some r => Ok r
  | None => Error ErrParseFloat
  end.

(** The verb [%d] into an [int]. *)
Definition verb_d (s : string) : result (Z * string) :=
  s ← SkipSpace s;
  scanInt s.

(** [fmt.Sscanf(fields, "%f %f %f %f", &p.Start.X, &p.Start.Y, &p.End.X,
    &p.End.Y)] *)
Definition Sscanf_path (fields : string) : result (Vector2 * Vector2) :=
  '(x1, s) ← verb_f fields;
  s ← format_space s;
  '(y1, s) ← verb_f s;
  s ← format_space s;
  '(x2, s) ← verb_f s;
  s ← format_space s;
  '(y2, _) ← verb_f s;
  Ok (mkVector2 x1 y1, mkVector2 x2 y2).

(** [fmt.Sscanf(fields, "%f %f %d", &b.Pos.X, &b.Pos.Y, &b.Rot)] *)
Definition Sscanf_building (fields : string) : result (Vector2 * Z) :=
  '(x, s) ← verb_f fields;
  s ← format_space s;
  '(y, s) ← verb_f s;
  s ← format_space s;
  '(rot, _) ← verb_d s;
  Ok (mkVector2 x y, rot).

(** The text box of a line of class [TextBox]; the error is the [Err] of the
    [DecodeTextError]: none when the line has not five fields. *)
Definition decode_textbox (fields : string) : TextBox + option GoError :=
  match SplitN fields 5 with
  | [e0; e1; e2; e3; e4] =>
      match ParseFloat32 e0 with
      | None => inr (Some ErrParseFloat)
      | Some x =>
      match ParseFloat32 e1 with
      | None => inr (Some ErrParseFloat)
      | Some y =>
      match ParseFloat32 e2 with
      | None => inr (Some ErrParseFloat)
      | Some w =>
      match ParseFloat32 e3 with
      | None => inr (Some ErrParseFloat)
      | Some h =>
      match Unquote e4 with
      | None => inr (Some ErrSyntax)
      | Some content => inl (mkTextBox (mkRectangle x y w h) content)
      end end end end end
  | _ => inr None
  end.

(** What one non-empty line decodes to: the object to append, or the message
    and the wrapped error of the [DecodeTextError]. *)
Inductive decoded :=
  | DecodedTextBox (tb : TextBox)
  | DecodedPath (p : Path)
  | DecodedBuilding (b : Building)
  | DecodeFailed (msg : string) (err : option GoError).

(** The body of the loop of [Scene.decodeText] for one non-empty line.  The
    scratch values [p] and [b] of the source are written in full by each line
    that is appended, so each line builds its object afresh. *)
Definition decode_line (line : string) : decoded :=
  let '(class, fields) := Cut line in
  if String.eqb class textboxClass then
    match decode_textbox fields with
    | inl tb => DecodedTextBox tb
    | inr err => DecodeFailed msgInvalidTextBox err
    end
  else if (0 <=? Index pathDefs class)%Z then
    match Sscanf_path fields with
    | Ok (start, end_) => DecodedPath (mkPath (Index pathDefs class) start end_)
    | Error err => DecodeFailed msgInvalidPath (Some err)
    end
  else if (0 <=? Index buildingDefs class)%Z then
    match Sscanf_building fields with
    | Ok (pos, rot) => DecodedBuilding (mkBuilding (Index buildingDefs class) pos rot)
    | Error err => DecodeFailed msgInvalidBuilding (Some err)
    end
  else DecodeFailed msgInvalidClass None.

(** The loop of [Scene.decodeText] over the lines the scanner returns, [no]
    being the line counter: an empty line is skipped ([continue], before the
    counter is incremented), an object is appended to its sequence, an error
    stops the loop. *)
Fixpoint decodeText_lines (lines : list string) (ver : Z) (no : nat)
    (c : ObjectCollection) : ObjectCollection * option DecodeTextError :=
  match lines with
  | [] => (c, None)
  | line :: lines' =>
      if String.eqb line EmptyString then decodeText_lines lines' ver no c
      else
        match decode_line line with
        | DecodedTextBox tb =>
            decodeText_lines lines' ver (no + 1)
              (mkObjectCollection (Paths c) (Buildings c) (TextBoxes c ++ [tb]))
        | DecodedPath p =>
            decodeText_lines lines' ver (no + 1)
              (mkObjectCollection (Paths c ++ [p]) (Buildings c) (TextBoxes c))
        | DecodedBuilding b =>
            decodeText_lines lines' ver (no + 1)
              (mkObjectCollection (Paths c) (Buildings c ++ [b]) (TextBoxes c))
        | DecodeFailed msg err => (c, Some (mkDecodeTextError msg err no ver))
        end
  end.

(** [Scene.decodeText]: the lines left in the scanner are decoded from line
    number 2; the error the scanner may have stopped on is not looked at. *)
Definition decodeText (lines : list string) (ver : Z) (s : Scene)
  : Scene * option LoadError :=
  let '(c, err) := decodeText_lines lines ver 2 (Scene_ObjectCollection s) in
  (set_ObjectCollection s c, DecodeError <$> err).

(** [Scene.LoadFromText] on an input held in memory: the scene afterwards and
    the error returned ([None] for [nil]). *)
Definition LoadFromText (input : string) (s : Scene) : Scene * option LoadError :=
  let '(tokens, scanErr) := ScanLines input in
  match tokens, scanErr with
  | [], Some e => (s, Some (ScannerError e))
  | [], None => (s, Some (DecodeError (mkDecodeTextError msgEmpty None 0 0)))
  | line :: lines, _ =>
      if String.eqb line EmptyString
      then (s, Some (DecodeError (mkDecodeTextError msgEmpty None 0 0)))
      else
        match Sscanf_version line with
        | Error err =>
            (s, Some (DecodeError (mkDecodeTextError msgInvalidVersionLine (Some err) 1 0)))
        | Ok ver =>
            if (ver <? 0)%Z
            then (s, Some (DecodeError (mkDecodeTextError msgInvalidVersionNumber None 1 0)))
            else if (ver =? 0)%Z then decodeText lines ver s
            else (s, Some (DecodeError (mkDecodeTextError msgVersionTooHigh None 1 ver)))
        end
  end.

(** *** What the round trip of a scene through its text relies on *)

(** [%v] writes the number as one word, and the readers of the codec read the
    word back as the number. *)
Definition float_ok (x : float32) : Prop :=
  word (formatFloat x) = true
  /\ formatFloat x <> EmptyString
  /\ ParseFloat32 (formatFloat x) = Some x
  /\ forall rest, field_ends rest ->
       scanFloatToken (formatFloat x +:+ rest) = Some (x, rest).

(** [strconv.Quote] writes the content on one line, and [strconv.Unquote]
    reads it back. *)
Definition quote_ok (content : string) : Prop :=
  one_line (Quote content) = true
  /\ Unquote (Quote content) = Some content.

Definition Vector2_ok (v : Vector2) : Prop :=
  float_ok (Vector2_X v) /\ float_ok (Vector2_Y v).

Definition Path_ok (p : Path) : Prop :=
  Vector2_ok (Path_Start p) /\ Vector2_ok (Path_End p).

Definition Building_ok (b : Building) : Prop :=
  Vector2_ok (Building_Pos b)
  /\ (minInt64 <= Building_Rot b <= maxInt64)%Z.

Definition TextBox_ok (tb : TextBox) : Prop :=
  float_ok (Rectangle_X (TextBox_Bounds tb))
  /\ float_ok (Rectangle_Y (TextBox_Bounds tb))
  /\ float_ok (Rectangle_Width (TextBox_Bounds tb))
  /\ float_ok (Rectangle_Height (TextBox_Bounds tb))
  /\ quote_ok (TextBox_Content tb).

Definition collection_ok (c : ObjectCollection) : Prop :=
  Forall Path_ok (Paths c)
  /\ Forall Building_ok (Buildings c)
  /\ Forall TextBox_ok (TextBoxes c).

(** The class names are words, none is [TextBox], and no name is given to two
    definitions. *)
Definition registry_ok : Prop :=
  NoDup (pathDefs ++ buildingDefs)
  /\ Forall (fun class => word class = true /\ class <> textboxClass)
       (pathDefs ++ buildingDefs).

(** Every line of the text fits in the buffer of the scanner. *)
Definition lines_fit (text : string) : Prop :=
  Forall (fun line => (String.length line <? MaxScanTokenSize) = true)
    (split_newlines text).

(** The objects of [c'] appended to those of [c], kind by kind. *)
Definition ObjectCollection_append (c c' : ObjectCollection) : ObjectCollection :=
  mkObjectCollection (Paths c ++ Paths c') (Buildings c ++ Buildings c')
    (TextBoxes c ++ TextBoxes c').

End Codec.

(* ================================================================== *)
(** ** An instance of the texts: whole numbers and ASCII strings

    Coordinates are integers, written in decimal: what [%v] writes for a
    [float32] that is an integer below 10^6 in absolute value (from 10^6 on
    [%v] writes an exponent, and from 2^24 on a [float32] no longer holds
    every integer); the scenes and texts below stay within that range.
    [Quote] and [Unquote] are those of [strconv] on strings of ASCII
    characters (for [Unquote], on what [Quote] writes: a double-quoted string
    with the escapes [Quote] uses). *)
(* ================================================================== *)

Module IntText.
Import Text IntGeometry.
#[local] Existing Instance Float32_Z.

(** The digits of [ss.floatToken]: decimal digits and underscores. *)
Fixpoint scanFloatDigits (s : string) : string * string :=
  match s with
  | String c s' =>
      if isDigit c || Ascii.eqb c "_"%char
      then let '(tok, rest) := scanFloatDigits s' in (String c tok, rest)
      else (EmptyString, s)
  | EmptyString => (EmptyString, EmptyString)
  end.

(** An optional sign, then digits. *)
Definition scan_whole (s : string) : option (Z * string) :=
  let '(negative, s) := scan_sign s in
  let '(tok, rest) := scanFloatDigits s in
  match tok with
  | EmptyString => None
  | _ =>
      match DecimalString.NilEmpty.uint_of_string tok with
      | Some d => Some (if negative then (- Z.of_uint d)%Z else Z.of_uint d, rest)
      | None => None
      end
  end.

Definition parse_whole (s : string) : option Z :=
  match scan_whole s with
  | Some (z, EmptyString) => Some z
  | _ => None
  end.

Definition BACKSLASH : ascii := "\"%char.

Definition hex_digit (n : nat) : ascii :=
  ascii_of_nat (if n <? 10 then 48 + n else 87 + n).

Definition hex_value (c : ascii) : option nat :=
  let n := nat_of_ascii c in
  if (48 <=? n) && (n <=? 57) then Some (n - 48)
  else if (97 <=? n) && (n <=? 102) then Some (n - 87)
  else if (65 <=? n) && (n <=? 70) then Some (n - 55)
  else None.

(** One character as [strconv.Quote] writes it. *)
Definition quote_char (c : ascii) : string :=
  let n := nat_of_ascii c in
  if Ascii.eqb c DQ || Ascii.eqb c BACKSLASH then String BACKSLASH (String c EmptyString)
  else if (32 <=? n) && (n <? 127) then String c EmptyString
  else if n =? 7 then "\a"
  else if n =? 8 then "\b"
  else if n =? 12 then "\f"
  else if n =? 10 then "\n"
  else if n =? 13 then "\r"
  else if n =? 9 then "\t"
  else if n =? 11 then "\v"
  else String BACKSLASH (String "x" (String (hex_digit (n / 16))
                                       (String (hex_digit (n mod 16)) EmptyString))).

Fixpoint quote_body (s : string) : string :=
  match s with
  | EmptyString => String DQ EmptyString
  | String c s' => quote_char c +:+ quote_body s'
  end.

Definition quote (s : string) : string := String DQ (quote_body s).

(** The characters after the opening quote, up to the closing quote, which
    must end the string. *)
Fixpoint unquote_body (s : string) : option string :=
  match s with
  | EmptyString => None
  | String c rest =>
      if Ascii.eqb c DQ then
        match rest with EmptyString => Some EmptyString | _ => None end
      else if Ascii.eqb c LF then None
      else if Ascii.eqb c BACKSLASH then
        match rest with
        | String e rest' =>
            let simple (n : nat) := String (ascii_of_nat n) <$> unquote_body rest' in
            if Ascii.eqb e "a" then simple 7
            else if Ascii.eqb e "b" then simple 8
            else if Ascii.eqb e "f" then simple 12
            else if Ascii.eqb e "n" then simple 10
            else if Ascii.eqb e "r" then simple 13
            else if Ascii.eqb e "t" then simple 9
            else if Ascii.eqb e "v" then simple 11
            else if Ascii.eqb e BACKSLASH then simple 92
            else if Ascii.eqb e DQ then simple 34
            else if Ascii.eqb e "x" then
              match rest' with
              | String h1 (String h2 rest'') =>
                  match hex_value h1, hex_value h2 with
                  | Some a, Some b =>
                      String (ascii_of_nat (16 * a + b)) <$> unquote_body rest''
                  | _, _ => None
                  end
              | _ => None
              end
            else None
        | EmptyString => None
        end
      else String c <$> unquote_body rest
  end.

Definition unquote (s : string) : option string :=
  match s with
  | String q body => if Ascii.eqb q DQ then unquote_body body else None
  | EmptyString => None
  end.

Definition TextFormat_Z : TextFormat := {|
  formatFloat := formatInt;
  scanFloatToken := scan_whole;
  ParseFloat32 := parse_whole;
  Quote := quote;
  Unquote := unquote;
|}.

(** Two classes of paths and two classes of buildings. *)
Definition Registry_4 : Registry := {|
  pathDefs := ["Belt"; "Pipe"];
  buildingDefs := ["Smelter"; "Constructor"];
|}.

End IntText.

Module CodecExamples.
Import Text IntGeometry IntText Examples.
#[local] Existing Instance Float32_Z.
#[local] Existing Instance TextFormat_Z.
#[local] Existing Instance Registry_4.

(** [He said "hi"] *)
Definition he_said_hi : string :=
  "He said " +:+ String DQ "hi" +:+ String DQ EmptyString.

(** One building, one path and one text box whose content holds quotes. *)
Definition scene3 : Scene :=
  mkScene
    (mkObjectCollection
       [mkPath 1 (pt 0 0) (pt (-4) 12)]
       [mkBuilding 1 (pt 10 10) 90]
       [mkTextBox (mkRectangle 1%Z 2%Z 30%Z 4%Z) he_said_hi])
    [] 0 0 Object_zero false.

(** The text [SaveToText] writes for [scene3]. *)
Definition scene3_text : string :=
  "#VERSION=0" +:+ NL
  +:+ "Constructor 10 10 90" +:+ NL
  +:+ "Pipe 0 0 -4 12" +:+ NL
  +:+ "TextBox 1 2 30 4 " +:+ String DQ "He said \" +:+ String DQ "hi\"
  +:+ String DQ (String DQ EmptyString) +:+ NL.

(** A header, a blank line, and a text box line with two fields only. *)
Definition text_blank_then_bad : string :=
  "#VERSION=0" +:+ NL +:+ NL +:+ "TextBox 1 2".

(** A content of [MaxScanTokenSize] letters. *)
Definition long_content : string :=
  string_of_list_ascii (replicate MaxScanTokenSize "a"%char).

(** [scene3] with a text box of that content in front of its text box. *)
Definition scene_long : Scene :=
  mkScene
    (mkObjectCollection
       [mkPath 1 (pt 0 0) (pt (-4) 12)]
       [mkBuilding 1 (pt 10 10) 90]
       [mkTextBox (mkRectangle 0%Z 0%Z 5%Z 5%Z) long_content;
        mkTextBox (mkRectangle 1%Z 2%Z 30%Z 4%Z) he_said_hi])
    [] 0 0 Object_zero false.

End CodecExamples.

(* ================================================================== *)
(** ** The rest of the scene: save point, validity queries, update *)
(* ================================================================== *)

(** The tests between rectangles and between points that the validity
    queries of the scene delegate to. *)
Class Collision `{F : Float32} := {
  (** [rl.Rectangle.CheckCollisionRec] *)
  Rectangle_CheckCollisionRec : Rectangle -> Rectangle -> bool;
  (** [rl.Vector2.Equals] *)
  Vector2_Equals : Vector2 -> Vector2 -> bool;
}.

Section SceneQueries.
Context `{G : Geometry} {C : Collision}.

(** [Scene.ResetModified] *)
Definition ResetModified (s : Scene) : Scene :=
  mkScene (Scene_ObjectCollection s) (history s) (historyPos s) (historyPos s)
    (Hovered s) (wasModified s).

(** The loop of [Scene.IsBuildingValid] from index [i] on:
    [for i, b := range s.Buildings { if i == ignore { continue }; if
    b.Bounds().CheckCollisionRec(bounds) { return false } }; return true]. *)
Fixpoint IsBuildingValid_from (i : nat) (buildings : list Building)
    (bounds : Rectangle) (ignore : Z) : bool :=
  match buildings with
  | [] => true
  | b :: buildings' =>
      if (Z.of_nat i =? ignore)%Z
      then IsBuildingValid_from (S i) buildings' bounds ignore
      else if Rectangle_CheckCollisionRec (Building_Bounds b) bounds then false
      else IsBuildingValid_from (S i) buildings' bounds ignore
  end.

(** [Scene.IsBuildingValid] *)
Definition IsBuildingValid (s : Scene) (building : Building) (ignore : Z) : bool :=
  IsBuildingValid_from 0 (Buildings (Scene_ObjectCollection s))
    (Building_Bounds building) ignore.

(** [Scene.IsPathValid] *)
Definition IsPathValid (s : Scene) (path : Path) : bool :=
  negb (Vector2_Equals (Path_Start path) (Path_End path)).

(** What [keyboard.Binding()] returns, as far as [Scene.Update] tells the
    values apart. *)
Inductive Binding := BindingUndo | BindingRedo | BindingOther.

Definition set_Hovered (s : Scene) (o : Object) : Scene :=
  mkScene (Scene_ObjectCollection s) (history s) (historyPos s) (savedHistoryPos s)
    o (wasModified s).

(** [Scene.Update]; the globals it reads are arguments: the selection, the
    position of the mouse, [app.isNormal()], [keyboard.Ctrl] and
    [keyboard.Binding()].  The result is the scene and the selection handed to
    [selection.doInitSelection] for the action returned, if any. *)
Definition Update (s : Scene) (selection : ObjectSelection) (mousePos : Vector2)
    (isNormal ctrl : bool) (binding : Binding)
  : option (Scene * option ObjectSelection) :=
  hovered ← GetObjectAt s selection mousePos;
  let s := set_Hovered s hovered in
  if isNormal && ctrl then
    match binding with
    | BindingUndo => r ← Undo s; Some (r.1.1, r.2)
    | BindingRedo => r ← Redo s; Some (r.1.1, r.2)
    | BindingOther => Some (s, None)
    end
  else Some (s, None).

(** *** What the operations keep *)

(** The collection [c2] is reached from [c] by doing the operations [ops] one
    after the other, each one holding what its undo needs. *)
Inductive replays : ObjectCollection -> list sceneOp -> ObjectCollection -> Prop :=
  | replays_nil c : replays c [] c
  | replays_cons c op c1 ops c2 :
      op_captures c op ->
      sceneOp_do op c = Some c1 ->
      replays c1 ops c2 ->
      replays c (op :: ops) c2.

(** The comment of the fields [history] and [historyPos]: the operations
    before the position have been done, in order, and lead to the collection
    of the scene; those from the position on have been undone, and can be done
    again from it. *)
Definition history_ok (s : Scene) : Prop :=
  historyPos s <= length (history s)
  /\ (exists c0, replays c0 (take (historyPos s) (history s)) (Scene_ObjectCollection s))
  /\ (exists c1, replays (Scene_ObjectCollection s) (drop (historyPos s) (history s)) c1).

(** The scenes reached from the empty scene by the mutators (with selections
    that name no object twice), [Undo], [Redo], [ResetModified] and [Update]. *)
Inductive reachable : Scene -> Prop :=
  | reachable_zero : reachable Scene_zero
  | reachable_mutate s (m : mutation) s' :
      reachable s -> mutation_distinct m -> mutate s m = Some s' -> reachable s'
  | reachable_Undo s s' ok sel :
      reachable s -> Undo s = Some (s', ok, sel) -> reachable s'
  | reachable_Redo s s' ok sel :
      reachable s -> Redo s = Some (s', ok, sel) -> reachable s'
  | reachable_ResetModified s :
      reachable s -> reachable (ResetModified s)
  | reachable_Update s selection mousePos isNormal ctrl binding s' sel :
      reachable s ->
      Update s selection mousePos isNormal ctrl binding = Some (s', sel) ->
      reachable s'.

(** The object reference names an object of the collection (or none). *)
Definition Object_valid (c : ObjectCollection) (o : Object) : Prop :=
  match Object_Type o with
  | TypeNone => True
  | TypePathStart | TypePathEnd | TypePath => Object_Idx o < length (Paths c)
  | TypeBuilding => Object_Idx o < length (Buildings c)
  | TypeTextBox => Object_Idx o < length (TextBoxes c)
  end.

(** The object the reference names contains the point, in the zone the kind
    of the reference tells. *)
Definition Object_contains (c : ObjectCollection) (o : Object) (pos : Vector2) : Prop :=
  match Object_Type o with
  | TypeNone => False
  | TypePathStart =>
      exists p, Paths c !! Object_Idx o = Some p
                /\ Path_CheckStartCollisionPoint p pos = true
  | TypePathEnd =>
      exists p, Paths c !! Object_Idx o = Some p
                /\ Path_CheckEndCollisionPoint p pos = true
  | TypePath =>
      exists p, Paths c !! Object_Idx o = Some p
                /\ Path_CheckCollisionPoint p pos = true
  | TypeBuilding =>
      exists b, Buildings c !! Object_Idx o = Some b
                /\ Rectangle_CheckCollisionPoint (Building_Bounds b) pos = true
  | TypeTextBox =>
      exists tb, TextBoxes c !! Object_Idx o = Some tb
                 /\ Rectangle_CheckCollisionPoint (TextBox_Bounds tb) pos = true
  end.

(** What a loop [for i, idx := range idxs { s[idx] = vals[i] }] that returns
    has done: the length is the same, the positions that are not among the
    indices hold what they held, and, when no index comes twice, the i-th
    index holds the i-th value. *)
Definition assigned {T} (s s' : list T) (idxs : list nat) (vals : list T) : Prop :=
  length s' = length s
  /\ (forall j, j ∉ idxs -> s' !! j = s !! j)
  /\ (NoDup idxs -> forall i idx, idxs !! i = Some idx -> s' !! idx = vals !! i).

End SceneQueries.

(* ================================================================== *)
(** ** The rest of the codec: what a text decodes to *)
(* ================================================================== *)

Section DecodedObjects.
Context `{TF : TextFormat} `{R : Registry}.

Definition decoded_path (d : decoded) : option Path :=
  match d with DecodedPath p => Some p | _ => None end.

Definition decoded_building (d : decoded) : option Building :=
  match d with DecodedBuilding b => Some b | _ => None end.

Definition decoded_textbox (d : decoded) : option TextBox :=
  match d with DecodedTextBox tb => Some tb | _ => None end.

(** Whether the line was refused. *)
Definition decode_failed (d : decoded) : bool :=
  match d with DecodeFailed _ _ => true | _ => false end.

(** The lines that are not blank, decoded. *)
Definition decoded_lines (lines : list string) : list decoded :=
  decode_line <$> filter (fun l => l <> EmptyString) lines.

(** The objects decoded, kind by kind, each kind in the order of the lines. *)
Definition decoded_objects (ds : list decoded) : ObjectCollection :=
  mkObjectCollection (omap decoded_path ds) (omap decoded_building ds)
    (omap decoded_textbox ds).

(** The messages of the errors of the header. *)
Definition header_messages : list string :=
  [msgInvalidVersionLine; msgInvalidVersionNumber; msgVersionTooHigh].

(** The messages of the errors of a line of objects. *)
Definition line_messages : list string :=
  [msgInvalidTextBox; msgInvalidPath; msgInvalidBuilding; msgInvalidClass].

End DecodedObjects.

Module MoreExamples.
Import IntGeometry Examples.
#[local] Existing Instance Float32_Z.
#[local] Existing Instance Geometry_Z.

(** Two rectangles overlap. *)
Definition rect_overlaps (r1 r2 : Rectangle) : bool :=
  (Rectangle_X r1 <? Rectangle_X r2 + Rectangle_Width r2)%Z
  && (Rectangle_X r2 <? Rectangle_X r1 + Rectangle_Width r1)%Z
  && (Rectangle_Y r1 <? Rectangle_Y r2 + Rectangle_Height r2)%Z
  && (Rectangle_Y r2 <? Rectangle_Y r1 + Rectangle_Height r1)%Z.

Definition Collision_Z : Collision := {|
  Rectangle_CheckCollisionRec := rect_overlaps;
  Vector2_Equals := point_eqb;
|}.

(** The empty scene after [AddTextBox]. *)
Definition scene_tb : Scene :=
  default Scene_zero (AddTextBox Scene_zero textbox0).

(** ... saved, *)
Definition scene_tb_saved : Scene := ResetModified scene_tb.

(** ... after [Undo], *)
Definition scene_tb_undone : Scene :=
  default Scene_zero (r ← Undo scene_tb_saved; Some r.1.1).

(** ... and after [AddBuilding]: one operation in the history, as when the
    scene was saved, and another object in the collection. *)
Definition scene_saved_then_changed : Scene :=
  default Scene_zero (AddBuilding scene_tb_undone building0).

(** [scene_tb] after [Update] with the mouse on the text box and no key
    pressed. *)
Definition scene_tb_hovered : Scene :=
  default Scene_zero
    (r ← Update scene_tb ObjectSelection_zero (pt 1 1) false false BindingOther;
     Some r.1).

(** The empty scene after [AddTextBox], [AddBuilding] and [Undo], then
    [Update] with the mouse on the text box and no key pressed: there is an
    operation to do again, and the text box is hovered. *)
Definition scene_undone_hovered : Scene :=
  default Scene_zero
    (s ← scene_after_undo;
     r ← Update s ObjectSelection_zero (pt 1 1) false false BindingOther;
     Some r.1).

(** The start of the second path and the first text box of [scene6]. *)
Definition sel_modify : ObjectSelection :=
  mkObjectSelection [] [mkPathSel 1 true false] [0] Rectangle_zero.

(** The modification that writes [path0] and [textbox1] over them. *)
Definition op_modify : sceneOp :=
  mksceneOp SceneOpModify sel_modify
    (mkObjectCollection [path1] [] [textbox0])
    (mkObjectCollection [path0] [] [textbox1]).

End MoreExamples.

Module MoreCodecExamples.
Import Text.

(** A line of a path, a blank line, and a text box line with two fields
    only. *)
Definition lines_path_then_bad : list string :=
  ["Pipe 0 0 -4 12"; EmptyString; "TextBox 1 2"].

(** A header with a negative version and more text on the line. *)
Definition text_negative_version : string :=
  "#VERSION=-3 x" +:+ NL +:+ "Pipe 0 0 -4 12".

(** A header and the lines above. *)
Definition text_path_then_bad : string :=
  "#VERSION=0" +:+ NL +:+ "Pipe 0 0 -4 12" +:+ NL +:+ NL +:+ "TextBox 1 2".

End MoreCodecExamples.
(* ================================================================== *)
(** ** Properties of the slice helpers *)
(* ================================================================== *)

Section SliceFacts.
Context {T : Type}.
Implicit Types (s : list T) (idxs : list nat).

Lemma SwapDelete_length s i s' :
  SwapDelete s i = Some s' -> i < length s /\ length s' = length s - 1.
Proof.
  unfold SwapDelete. destruct (last s); [|done].
  case_decide; [|done]. intros [= <-].
  rewrite length_take, length_insert. lia.
Qed.

Lemma SwapDelete_lookup_lt s i s' j :
  SwapDelete s i = Some s' -> j < i -> s' !! j = s !! j.
Proof.
  unfold SwapDelete. destruct (last s); [|done].
  case_decide; [|done]. intros [= <-] Hj.
  rewrite lookup_take_lt by lia.
  rewrite list_lookup_insert_ne by lia. done.
Qed.

Lemma SwapDelete_is_Some s i : i < length s -> is_Some (SwapDelete s i).
Proof.
  intros Hi. unfold SwapDelete.
  destruct (last s) eqn:E.
  - rewrite decide_True by done. eauto.
  - apply last_None in E. subst. simpl in Hi. lia.
Qed.

(** One swap-insertion undoes one swap-removal. *)
Lemma SwapInsert_SwapDelete s i v s' :
  s !! i = Some v -> SwapDelete s i = Some s' -> SwapInsert s' i v = Some s.
Proof.
  intros Hv. unfold SwapDelete.
  destruct (last s) as [l|] eqn:El; [|done].
  case_decide as Hi; [|done]. intros [= <-].
  apply last_Some in El as [s0 ->].
  rewrite length_app in *. simpl in *.
  replace (length s0 + 1 - 1) with (length s0) by lia.
  destruct (decide (i = length s0)) as [->|Hne].
  - rewrite list_lookup_middle in Hv by done. injection Hv as <-.
    rewrite insert_app_r_alt by lia. rewrite Nat.sub_diag. simpl.
    rewrite take_app_length. unfold SwapInsert.
    rewrite lookup_ge_None_2 by lia. rewrite decide_True by done. done.
  - assert (i < length s0) by lia.
    rewrite lookup_app_l in Hv by done.
    rewrite insert_app_l by done.
    rewrite take_app_length' by (rewrite length_insert; done).
    unfold SwapInsert. rewrite list_lookup_insert_eq by done.
    rewrite list_insert_insert_eq, list_insert_id by done. done.
Qed.

Lemma delete_each_length s idxs s' :
  delete_each s idxs = Some s' -> length s' = length s - length idxs.
Proof.
  revert s. induction idxs as [|i idxs IH]; intros s; simpl.
  { intros [= <-]. lia. }
  destruct (SwapDelete s i) as [s1|] eqn:E; simpl; [|done].
  intros Hd. apply IH in Hd. apply SwapDelete_length in E. lia.
Qed.

Lemma insert_each_app s (ps qs : list (nat * T)) :
  insert_each s (ps ++ qs) = s' ← insert_each s ps; insert_each s' qs.
Proof.
  revert s. induction ps as [|[i v] ps IH]; intros s; simpl; [done|].
  destruct (SwapInsert s i v); simpl; [apply IH|done].
Qed.

(** Removing at strictly decreasing indices, then re-inserting the removed
    values in the reverse order, gives the slice back. *)
Lemma insert_each_delete_each (ps : list (nat * T)) s :
  StronglySorted (fun a b => b < a) ps.*1 ->
  Forall (fun p => s !! p.1 = Some p.2) ps ->
  exists s', delete_each s ps.*1 = Some s' /\ insert_each s' (rev ps) = Some s.
Proof.
  revert s. induction ps as [|[i v] ps IH]; intros s Hsort Hval; simpl.
  { eauto. }
  simpl in Hsort. apply StronglySorted_inv in Hsort as [Hsort Hlt].
  apply Forall_cons in Hval as [Hi Hval]. simpl in Hi.
  destruct (SwapDelete_is_Some s i) as [s1 Hs1].
  { eapply lookup_lt_Some; eauto. }
  rewrite Hs1. simpl.
  destruct (IH s1) as (s' & Hdel & Hins); [done| |].
  { rewrite Forall_forall in Hval. rewrite Forall_forall in Hlt.
    apply Forall_forall. intros [j w] Hin.
    simpl. rewrite (SwapDelete_lookup_lt _ _ _ _ Hs1).
    - apply (Hval _ Hin).
    - apply Hlt. change j with ((j, w).1). apply list_elem_of_fmap_2. done. }
  exists s'. split; [done|].
  rewrite insert_each_app, Hins. simpl.
  rewrite (SwapInsert_SwapDelete _ _ _ _ Hi Hs1). done.
Qed.

End SliceFacts.

Section SortFacts.
Context {A : Type} (key : A -> nat).

Lemma insert_desc_Permutation x (l : list A) : insert_desc key x l ≡ₚ x :: l.
Proof.
  induction l as [|y l IH]; simpl; [done|].
  case_decide; [done|]. rewrite IH. apply Permutation_swap.
Qed.

Lemma sort_desc_Permutation (l : list A) : sort_desc key l ≡ₚ l.
Proof.
  induction l as [|x l IH]; simpl; [done|].
  rewrite insert_desc_Permutation. by rewrite IH.
Qed.

Lemma insert_desc_fmap x (l : list A) :
  key <$> insert_desc key x l = insert_desc id (key x) (key <$> l).
Proof.
  induction l as [|y l IH]; simpl; [done|].
  change (id (key y)) with (key y). change (id (key x)) with (key x).
  case_decide; simpl; [done|]. f_equal. apply IH.
Qed.

Lemma sort_desc_fmap (l : list A) :
  key <$> sort_desc key l = sort_desc id (key <$> l).
Proof.
  induction l as [|x l IH]; simpl; [done|].
  rewrite insert_desc_fmap. by rewrite IH.
Qed.

End SortFacts.

Lemma insert_desc_sorted x (l : list nat) :
  x ∉ l ->
  StronglySorted (fun a b => b < a) l ->
  StronglySorted (fun a b => b < a) (insert_desc id x l).
Proof.
  induction l as [|y l IH]; intros Hx Hs; simpl.
  { repeat constructor. }
  apply not_elem_of_cons in Hx as [Hxy Hx].
  apply StronglySorted_inv in Hs as [Hs Hlt].
  case_decide; unfold id in *.
  - constructor; [by constructor|]. constructor; [lia|].
    eapply Forall_impl; [exact Hlt|]. simpl. lia.
  - constructor; [by apply IH|].
    rewrite insert_desc_Permutation. constructor; [lia|done].
Qed.

Lemma sort_desc_sorted (l : list nat) :
  NoDup l -> StronglySorted (fun a b => b < a) (sort_desc id l).
Proof.
  induction 1 as [|x l Hx Hl IH]; simpl; [constructor|].
  apply insert_desc_sorted; [|done].
  by rewrite sort_desc_Permutation.
Qed.

(** The values [CopyIdxs] snapshots are exactly what [SwapInsertMany] needs to
    undo [SwapDeleteMany] at the same indices. *)
Lemma swap_many_inverse {T} (s old : list T) (idxs : list nat) :
  NoDup idxs ->
  CopyIdxs [] s idxs = Some old ->
  exists s', SwapDeleteMany s idxs = Some s' /\
             SwapInsertMany s' idxs old = Some s.
Proof.
  intros Hnd Hcopy. unfold CopyIdxs in Hcopy.
  destruct (mapM _ idxs) as [vs|] eqn:Hm; simpl in Hcopy; [|done].
  injection Hcopy as <-. apply mapM_Some in Hm.
  pose proof (Forall2_length _ _ _ Hm) as Hlen.
  assert (Hfst : (zip idxs vs).*1 = idxs) by (by apply fst_zip; lia).
  destruct (insert_each_delete_each (sort_desc fst (zip idxs vs)) s)
    as (s' & Hdel & Hins).
  - rewrite sort_desc_fmap, Hfst. by apply sort_desc_sorted.
  - rewrite sort_desc_Permutation.
    clear Hfst Hlen Hnd. induction Hm; simpl; constructor; auto.
  - exists s'. unfold SwapDeleteMany, SwapInsertMany.
    rewrite sort_desc_fmap, Hfst in Hdel.
    rewrite decide_True by done. done.
Qed.

Lemma CopyIdxs_is_Some {T} (s : list T) (idxs : list nat) :
  Forall (fun i => i < length s) idxs -> is_Some (CopyIdxs [] s idxs).
Proof.
  intros Hall. unfold CopyIdxs.
  destruct (mapM _ idxs) as [vs|] eqn:Hm; simpl; [eauto|].
  exfalso. apply eq_None_not_Some in Hm. apply Hm.
  apply mapM_is_Some. eapply Forall_impl; [exact Hall|].
  simpl. intros i Hi. by apply lookup_lt_is_Some.
Qed.

(** C5. Deleting a set of indices of a sequence with [SwapDeleteMany] and then
    calling [SwapInsertMany] on the result with the same indices and the values
    that were removed (as [CopyIdxs] reads them) gives the original sequence
    back, every element at its original position. *)
Theorem SwapInsertMany_SwapDeleteMany {T} (s : list T) (idxs : list nat) :
  NoDup idxs ->
  Forall (fun i => i < length s) idxs ->
  exists removed s',
    CopyIdxs [] s idxs = Some removed /\
    SwapDeleteMany s idxs = Some s' /\
    length s' = length s - length idxs /\
    SwapInsertMany s' idxs removed = Some s.
Proof.
  intros Hnd Hall.
  destruct (CopyIdxs_is_Some s idxs Hall) as [old Hold].
  destruct (swap_many_inverse s old idxs Hnd Hold) as (s' & Hdel & Hins).
  exists old, s'. repeat split; try done.
  unfold SwapDeleteMany in Hdel. apply delete_each_length in Hdel.
  by rewrite (Permutation_length (sort_desc_Permutation id idxs)) in Hdel.
Qed.


(* ================================================================== *)
(** ** Properties of the history *)
(* ================================================================== *)

Section AssignFacts.
Context {T : Type}.

Lemma assign_each_frame (idxs : list nat) (vals s s' : list T) :
  assign_each s idxs vals = Some s' ->
  length s' = length s /\ forall j, j ∉ idxs -> s' !! j = s !! j.
Proof.
  revert vals s. induction idxs as [|i idxs IH]; intros vals s; simpl.
  { intros [= <-]. done. }
  destruct vals as [|v vals]; [done|].
  case_decide; [|done]. intros Hs'.
  apply IH in Hs' as [Hlen Hframe]. rewrite length_insert in Hlen.
  split; [done|]. intros j Hj. apply not_elem_of_cons in Hj as [Hji Hj].
  rewrite (Hframe j Hj). by rewrite list_lookup_insert_ne.
Qed.

(** Writing back, at the indices of a modification, the values a list [s] had
    there gives [s] again, whatever was written in between. *)
Lemma assign_each_restore (idxs : list nat) (old t s : list T) :
  length t = length s ->
  Forall2 (fun i o => s !! i = Some o) idxs old ->
  (forall j, j ∉ idxs -> t !! j = s !! j) ->
  assign_each t idxs old = Some s.
Proof.
  intros Hlen Hold. revert t Hlen.
  induction Hold as [|i o idxs old Hio Hold IH]; intros t Hlen Hframe; simpl.
  { f_equal. apply list_eq. intros j. apply Hframe. apply not_elem_of_nil. }
  apply lookup_lt_Some in Hio as Hi.
  rewrite decide_True by lia.
  apply IH; [by rewrite length_insert|].
  intros j Hj. destruct (decide (j = i)) as [->|Hne].
  - rewrite list_lookup_insert_eq by lia. done.
  - rewrite list_lookup_insert_ne by done. apply Hframe.
    by apply not_elem_of_cons.
Qed.

Lemma assign_each_undo (idxs : list nat) (new old s s' : list T) :
  CopyIdxs [] s idxs = Some old ->
  assign_each s idxs new = Some s' ->
  assign_each s' idxs old = Some s.
Proof.
  unfold CopyIdxs. intros Hcopy Hdo.
  destruct (mapM _ idxs) as [vs|] eqn:Hm; simpl in Hcopy; [|done].
  injection Hcopy as <-. apply mapM_Some in Hm.
  apply assign_each_frame in Hdo as [Hlen Hframe].
  by apply assign_each_restore.
Qed.

Lemma drop_last_app (s new : list T) : drop_last (s ++ new) (length new) = Some s.
Proof.
  unfold drop_last. rewrite length_app, decide_True by lia.
  replace (length s + length new - length new) with (length s) by lia.
  by rewrite take_app_length.
Qed.

End AssignFacts.

Section SceneFacts.
Context `{G : Geometry}.
Implicit Types (s : Scene) (c : ObjectCollection) (op : sceneOp)
  (sel : ObjectSelection).

Lemma FullPathIdxs_NoDup sel : NoDup (AnyPathIdxs sel) -> NoDup (FullPathIdxs sel).
Proof.
  unfold AnyPathIdxs, FullPathIdxs. intros H.
  eapply sublist_NoDup; [exact H|apply fmap_sublist, sublist_filter].
Qed.

Lemma snapshot_Some c pathIdxs sel old :
  snapshot c pathIdxs sel = Some old ->
  CopyIdxs [] (Paths c) pathIdxs = Some (Paths old)
  /\ CopyIdxs [] (Buildings c) (BuildingIdxs sel) = Some (Buildings old)
  /\ CopyIdxs [] (TextBoxes c) (TextBoxIdxs sel) = Some (TextBoxes old).
Proof.
  unfold snapshot. intros H.
  destruct (CopyIdxs [] (Buildings c) _) as [bs|]; simpl in H; [|done].
  destruct (CopyIdxs [] (Paths c) _) as [ps|]; simpl in H; [|done].
  destruct (CopyIdxs [] (TextBoxes c) _) as [ts|]; simpl in H; [|done].
  injection H as <-. done.
Qed.

(** [undo] after [do] gives the collection back. *)
Lemma sceneOp_undo_do c op c' :
  op_captures c op ->
  sceneOp_do op c = Some c' ->
  exists newSel, sceneOp_undo op c' = Some (c, newSel).
Proof.
  unfold op_captures, sceneOp_do, sceneOp_undo.
  destruct c as [ps bs ts]. destruct (sceneOp_Type op); simpl.
  - intros _ [= <-]. simpl. rewrite !drop_last_app. simpl. eauto.
  - intros [Hsnap (Hp & Hb & Ht)] Hdo.
    apply snapshot_Some in Hsnap as (Hps & Hbs & Hts). simpl in *.
    apply FullPathIdxs_NoDup in Hp.
    destruct (swap_many_inverse _ _ _ Hp Hps) as (ps' & Hdp & Hip).
    destruct (swap_many_inverse _ _ _ Hb Hbs) as (bs' & Hdb & Hib).
    destruct (swap_many_inverse _ _ _ Ht Hts) as (ts' & Hdt & Hit).
    rewrite Hdp, Hdb, Hdt in Hdo. simpl in Hdo. injection Hdo as <-. simpl.
    rewrite Hip, Hib, Hit. simpl. eauto.
  - intros Hsnap Hdo.
    apply snapshot_Some in Hsnap as (Hps & Hbs & Hts). simpl in *.
    destruct (assign_each ps _ _) as [ps'|] eqn:Hdp; simpl in Hdo; [|done].
    destruct (assign_each bs _ _) as [bs'|] eqn:Hdb; simpl in Hdo; [|done].
    destruct (assign_each ts _ _) as [ts'|] eqn:Hdt; simpl in Hdo; [|done].
    injection Hdo as <-. simpl.
    rewrite (assign_each_undo _ _ _ _ _ Hps Hdp).
    rewrite (assign_each_undo _ _ _ _ _ Hbs Hdb).
    rewrite (assign_each_undo _ _ _ _ _ Hts Hdt). simpl. eauto.
Qed.

Lemma doSceneOp_Some s op s' :
  doSceneOp s op = Some s' ->
  historyPos s <= length (history s)
  /\ exists c', sceneOp_do op (Scene_ObjectCollection s) = Some c'
     /\ s' = mkScene c' (take (historyPos s) (history s) ++ [op])
               (historyPos s + 1) (savedHistoryPos s) Object_zero (wasModified s).
Proof.
  unfold doSceneOp, trim_history. case_decide; simpl; [|done].
  destruct (sceneOp_do op _) as [c'|]; simpl; [|done].
  intros [= <-]. eauto.
Qed.

(** Every mutator is [doSceneOp] at the operation it builds. *)
Lemma mutate_doSceneOp s (m : mutation) s' :
  mutate s m = Some s' ->
  exists op, mutation_op (Scene_ObjectCollection s) m = Some op
             /\ doSceneOp s op = Some s'.
Proof.
  destruct m; simpl; unfold AddPath, AddBuilding, AddTextBox, AddObjects,
    DeleteObjects, ModifyObjects; try (intros; eexists; split; [reflexivity|done]).
  - destruct (snapshot _ _ _) as [old|]; simpl; [|done]. eauto.
  - destruct (snapshot _ _ _) as [old|]; simpl; [|done]. eauto.
Qed.

Lemma mutation_op_captures c (m : mutation) op :
  mutation_distinct m -> mutation_op c m = Some op -> op_captures c op.
Proof.
  unfold op_captures.
  destruct m; simpl; try (intros _ [= <-]; done).
  - intros Hd. destruct (snapshot _ _ _) as [old|] eqn:E; simpl; [|done].
    intros [= <-]. simpl. done.
  - intros _. destruct (snapshot _ _ _) as [old|] eqn:E; simpl; [|done].
    intros [= <-]. simpl. done.
Qed.

(** [Undo] right after [doSceneOp] undoes that very operation. *)
Lemma Undo_doSceneOp s op s' :
  op_captures (Scene_ObjectCollection s) op ->
  doSceneOp s op = Some s' ->
  exists newSel,
    Undo s' = Some (mkScene (Scene_ObjectCollection s) (history s') (historyPos s)
                      (savedHistoryPos s') Object_zero (wasModified s'),
                    true, Some newSel)
    /\ history s' !! historyPos s = Some op
    /\ historyPos s < length (history s').
Proof.
  intros Hcap Hdo.
  apply doSceneOp_Some in Hdo as (Hpos & c' & Hc' & ->).
  destruct (sceneOp_undo_do _ _ _ Hcap Hc') as [newSel Hundo].
  assert (Hop : (take (historyPos s) (history s) ++ [op]) !! historyPos s = Some op).
  { rewrite lookup_app_r by (rewrite length_take; lia).
    rewrite length_take. by replace (historyPos s - _) with 0 by lia. }
  exists newSel. split; [|split; [exact Hop|]].
  - unfold Undo. simpl. rewrite decide_True by lia.
    replace (historyPos s + 1 - 1) with (historyPos s) by lia.
    rewrite Hop. simpl. rewrite Hundo. simpl. done.
  - simpl. rewrite length_app, length_take. simpl. lia.
Qed.

(** [redo] changes the collection as [do] does. *)
Lemma sceneOp_redo_do op c c' :
  sceneOp_do op c = Some c' -> exists newSel, sceneOp_redo op c = Some (c', newSel).
Proof.
  unfold sceneOp_do, sceneOp_redo. destruct (sceneOp_Type op).
  - intros [= <-]. eauto.
  - destruct (SwapDeleteMany (Paths c) _); simpl; [|done].
    destruct (SwapDeleteMany (Buildings c) _); simpl; [|done].
    destruct (SwapDeleteMany (TextBoxes c) _); simpl; [|done].
    intros [= <-]. eauto.
  - destruct (assign_each (Paths c) _ _); simpl; [|done].
    destruct (assign_each (Buildings c) _ _); simpl; [|done].
    destruct (assign_each (TextBoxes c) _ _); simpl; [|done].
    intros [= <-]. eauto.
Qed.

(** C1. A mutation of the scene followed at once by [Undo] leaves the three
    sequences (paths, buildings, text boxes) as they were before the mutation,
    element for element and position for position; for a deletion this is the
    work of [SwapInsertMany], and relies on the selection naming no object
    twice. *)
Theorem Undo_after_mutation s (m : mutation) s1 :
  mutation_distinct m ->
  mutate s m = Some s1 ->
  exists s2 newSel,
    Undo s1 = Some (s2, true, Some newSel)
    /\ Paths (Scene_ObjectCollection s2) = Paths (Scene_ObjectCollection s)
    /\ Buildings (Scene_ObjectCollection s2) = Buildings (Scene_ObjectCollection s)
    /\ TextBoxes (Scene_ObjectCollection s2) = TextBoxes (Scene_ObjectCollection s).
Proof.
  intros Hd Hm.
  apply mutate_doSceneOp in Hm as (op & Hop & Hdo).
  pose proof (mutation_op_captures _ _ _ Hd Hop) as Hcap.
  destruct (Undo_doSceneOp _ _ _ Hcap Hdo) as (newSel & Hu & _).
  eexists _, newSel. split; [exact Hu|]. done.
Qed.

(** A mutation of the scene, [Undo], then [Redo]: the scene is the one the
    mutation left, but for the modified flag and the hovered object, which
    [Redo] resets. *)
Theorem Redo_after_Undo s (m : mutation) s1 :
  mutation_distinct m ->
  mutate s m = Some s1 ->
  exists s2 sel2 s3 sel3,
    Undo s1 = Some (s2, true, Some sel2)
    /\ Redo s2 = Some (s3, true, Some sel3)
    /\ Scene_ObjectCollection s3 = Scene_ObjectCollection s1
    /\ history s3 = history s1
    /\ historyPos s3 = historyPos s1.
Proof.
  intros Hd Hm.
  apply mutate_doSceneOp in Hm as (op & Hop & Hdo).
  pose proof (mutation_op_captures _ _ _ Hd Hop) as Hcap.
  destruct (Undo_doSceneOp _ _ _ Hcap Hdo) as (sel2 & Hu & Hlook & Hlt).
  apply doSceneOp_Some in Hdo as (Hpos & c' & Hc' & Hs1).
  destruct (sceneOp_redo_do _ _ _ Hc') as [sel3 Hredo].
  eexists _, sel2, _, sel3. split; [exact Hu|].
  unfold Redo. simpl. rewrite decide_True by done.
  rewrite Hlook. simpl. rewrite Hredo. simpl.
  split; [reflexivity|]. subst s1. simpl. done.
Qed.

(** C6. [doSceneOp] first drops the operations that were undone (the history
    is cut at the cursor), then records the new operation and moves the cursor
    past it; afterwards nothing is left to redo. *)
Theorem doSceneOp_discards_undone s op s' :
  doSceneOp s op = Some s' ->
  history s' = take (historyPos s) (history s) ++ [op]
  /\ historyPos s' = historyPos s + 1
  /\ historyPos s' = length (history s')
  /\ HasRedo s' = false.
Proof.
  intros Hdo. apply doSceneOp_Some in Hdo as (Hpos & c' & _ & ->).
  unfold HasRedo. simpl. rewrite length_app, length_take. simpl.
  repeat split; try lia.
  apply bool_decide_eq_false. lia.
Qed.

(** C8, as the code has it. [Undo] hands back the empty selection for an
    addition, the stored selection of the operation, as it is, for a deletion,
    and the stored selection with its bounds recomputed against the collection
    after the undo for a modification. *)
Theorem Undo_selection s op s' newSel :
  0 < historyPos s ->
  history s !! (historyPos s - 1) = Some op ->
  Undo s = Some (s', true, newSel) ->
  newSel = Some
    match sceneOp_Type op with
    | SceneOpAdd => ObjectSelection_zero
    | SceneOpDelete => Sel op
    | SceneOpModify => recomputeBounds (Sel op) (Scene_ObjectCollection s')
    end.
Proof.
  intros Hpos Hop. unfold Undo. rewrite decide_True by done.
  rewrite Hop. simpl. unfold sceneOp_undo.
  destruct (sceneOp_Type op); simpl.
  - destruct (drop_last (Paths _) _); simpl; [|done].
    destruct (drop_last (Buildings _) _); simpl; [|done].
    destruct (drop_last (TextBoxes _) _); simpl; [|done].
    intros [= <- <-]. done.
  - destruct (SwapInsertMany (Paths _) _ _); simpl; [|done].
    destruct (SwapInsertMany (Buildings _) _ _); simpl; [|done].
    destruct (SwapInsertMany (TextBoxes _) _ _); simpl; [|done].
    intros [= <- <-]. done.
  - destruct (assign_each (Paths _) _ _); simpl; [|done].
    destruct (assign_each (Buildings _) _ _); simpl; [|done].
    destruct (assign_each (TextBoxes _) _ _); simpl; [|done].
    intros [= <- <-]. done.
Qed.

(** C3, as the code has it. [redo] of an addition appends the objects and
    selects the appended range of buildings and of text boxes; the path
    entries are all fully selected, but their indices start at the length of
    the paths after the append: none of them is an index of the sequence. *)
Theorem redo_Add_selection sel old new c :
  let c' := mkObjectCollection (Paths c ++ Paths new)
              (Buildings c ++ Buildings new) (TextBoxes c ++ TextBoxes new) in
  let pathIdxs := (fun i => mkPathSel (length (Paths c') + i) true true)
                    <$> seq 0 (length (Paths new)) in
  sceneOp_redo (mksceneOp SceneOpAdd sel old new) c =
    Some (c', recomputeBounds
                (mkObjectSelection
                   (seq (length (Buildings c)) (length (Buildings new)))
                   pathIdxs
                   (seq (length (TextBoxes c)) (length (TextBoxes new)))
                   Rectangle_zero) c')
  /\ length pathIdxs = length (Paths new)
  /\ Forall (fun e => length (Paths c') <= PathSel_Idx e
                      /\ PathSel_Start e = true /\ PathSel_End e = true) pathIdxs.
Proof.
  intros c' pathIdxs. subst c' pathIdxs. unfold sceneOp_redo. simpl.
  unfold Range. rewrite !length_app.
  replace (length (Buildings c) + length (Buildings new) - length (Buildings new))
    with (length (Buildings c)) by lia.
  replace (length (TextBoxes c) + length (TextBoxes new) - length (TextBoxes new))
    with (length (TextBoxes c)) by lia.
  replace (length (Buildings c) + length (Buildings new) - length (Buildings c))
    with (length (Buildings new)) by lia.
  replace (length (TextBoxes c) + length (TextBoxes new) - length (TextBoxes c))
    with (length (TextBoxes new)) by lia.
  split; [done|]. split.
  - by rewrite length_fmap, length_seq.
  - apply Forall_fmap, Forall_forall. intros i _. simpl. split; [lia|done].
Qed.

End SceneFacts.

(* ================================================================== *)
(** ** Properties of the hit-testing *)
(* ================================================================== *)

Section ScanFacts.
Context {A B : Type}.

Lemma scan_down_ext n (b1 b2 : nat -> option (option A)) :
  (forall i, i < n -> b1 i = b2 i) -> scan_down n b1 = scan_down n b2.
Proof.
  induction n as [|n IH]; intros Hb; simpl; [done|].
  rewrite (Hb n) by lia. rewrite IH by (intros; apply Hb; lia). done.
Qed.

Lemma head_app_hits (l1 l2 : list A) :
  head (l1 ++ l2) = match head l1 with Some a => Some a | None => head l2 end.
Proof. by destruct l1. Qed.

(** A loop over the positions of a list, from the last to the first, returns
    what the first hit of the reversed list is. *)
Lemma scan_down_list (l : list B) (f : B -> option (option A)) (hits : B -> list A) :
  Forall (fun x => f x = Some (head (hits x))) l ->
  scan_down (length l) (fun i => x ← l !! i; f x) = Some (head (rev l ≫= hits)).
Proof.
  induction l as [|x l IH] using rev_ind; intros Hall; [done|].
  apply Forall_app in Hall as [Hl Hx]. apply Forall_cons in Hx as [Hx _].
  rewrite length_app, Nat.add_1_r. simpl.
  rewrite list_lookup_middle by done. simpl. rewrite Hx. simpl.
  rewrite rev_unit. simpl. rewrite head_app_hits.
  destruct (head (hits x)); [done|].
  etrans; [|exact (IH Hl)]. apply scan_down_ext. intros i Hi.
  by rewrite lookup_app_l.
Qed.

(** The same for a loop whose body uses the position itself. *)
Lemma scan_down_imap (l : list B) (f : nat -> B -> option A) (hits : nat -> B -> list A) :
  (forall i x, f i x = head (hits i x)) ->
  scan_down (length l) (fun i => x ← l !! i; Some (f i x))
  = Some (head (rev (imap hits l) ≫= id)).
Proof.
  intros Hf. induction l as [|x l IH] using rev_ind; [done|].
  rewrite length_app, Nat.add_1_r. simpl.
  rewrite list_lookup_middle by done. simpl.
  rewrite imap_app. simpl. rewrite rev_unit. simpl.
  rewrite Nat.add_0_r, head_app_hits. unfold id at 1. rewrite <- Hf.
  destruct (f (length l) x); [done|].
  etrans; [|exact IH]. apply scan_down_ext. intros i Hi.
  by rewrite lookup_app_l.
Qed.

Lemma or_else_head (l1 l2 : list A) :
  or_else (Some (head l1)) (Some (head l2)) = Some (head (l1 ++ l2)).
Proof. unfold or_else. simpl. rewrite head_app_hits. by destruct (head l1). Qed.

End ScanFacts.

Section HitTestFacts.
Context `{G : Geometry}.

Lemma path_at_hits start end_ idx p pos :
  path_at start end_ idx p pos = head (path_hits start end_ idx p pos).
Proof.
  unfold path_at, path_hits.
  destruct (start && _); [done|]. destruct (end_ && _); [done|].
  by destruct (Path_CheckCollisionPoint p pos).
Qed.

Lemma rect_at_hits ty idx r pos :
  (if Rectangle_CheckCollisionPoint r pos then Some (mkObject ty idx) else None)
  = head (rect_hits ty idx r pos).
Proof. unfold rect_hits. by destruct (Rectangle_CheckCollisionPoint r pos). Qed.

(** X21. When the selection refers to objects of the
    collection, [GetObjectAt] returns the first of the objects containing the
    point in this order: the entries of the selection from the last to the
    first (paths, then buildings, then text boxes; an end zone of a selected
    path is tested only when that end is selected), then all the paths,
    buildings and text boxes of the collection, each kind from the highest
    index to the lowest; the end zones of a path are tested before its body.
    When no object contains the point the result is [Object{}]. *)
Theorem GetObjectAt_first_candidate s selection pos :
  selection_in_range (Scene_ObjectCollection s) selection ->
  GetObjectAt s selection pos
  = Some (hd Object_zero (candidates (Scene_ObjectCollection s) selection pos)).
Proof.
  intros (Hp & Hb & Ht). unfold GetObjectAt, candidates.
  set (c := Scene_ObjectCollection s) in *.
  rewrite (scan_down_list (PathIdxs selection) _
    (fun elt => match Paths c !! PathSel_Idx elt with
                | Some p => path_hits (PathSel_Start elt) (PathSel_End elt)
                              (PathSel_Idx elt) p pos
                | None => []
                end)).
  2:{ eapply Forall_impl; [exact Hp|]. simpl. intros elt Hlt.
      apply lookup_lt_is_Some in Hlt as [p ->]. simpl.
      by rewrite path_at_hits. }
  rewrite (scan_down_list (BuildingIdxs selection) _
    (fun idx => match Buildings c !! idx with
                | Some b => rect_hits TypeBuilding idx (Building_Bounds b) pos
                | None => []
                end)).
  2:{ eapply Forall_impl; [exact Hb|]. simpl. intros idx Hlt.
      apply lookup_lt_is_Some in Hlt as [b ->]. simpl.
      by rewrite rect_at_hits. }
  rewrite (scan_down_list (TextBoxIdxs selection) _
    (fun idx => match TextBoxes c !! idx with
                | Some tb => rect_hits TypeTextBox idx (TextBox_Bounds tb) pos
                | None => []
                end)).
  2:{ eapply Forall_impl; [exact Ht|]. simpl. intros idx Hlt.
      apply lookup_lt_is_Some in Hlt as [tb ->]. simpl.
      by rewrite rect_at_hits. }
  rewrite (scan_down_imap (Paths c) (fun i p => path_at true true i p pos)
             (fun i p => path_hits true true i p pos))
    by (intros; apply path_at_hits).
  rewrite (scan_down_imap (Buildings c)
             (fun i b => if Rectangle_CheckCollisionPoint (Building_Bounds b) pos
                         then Some (mkObject TypeBuilding i) else None)
             (fun i b => rect_hits TypeBuilding i (Building_Bounds b) pos))
    by (intros; apply rect_at_hits).
  rewrite (scan_down_imap (TextBoxes c)
             (fun i tb => if Rectangle_CheckCollisionPoint (TextBox_Bounds tb) pos
                          then Some (mkObject TypeTextBox i) else None)
             (fun i tb => rect_hits TypeTextBox i (TextBox_Bounds tb) pos))
    by (intros; apply rect_at_hits).
  rewrite !or_else_head. simpl. f_equal.
  by destruct (_ ++ _).
Qed.

End HitTestFacts.

(* ================================================================== *)
(** ** The properties on concrete scenes *)
(* ================================================================== *)

Section Concrete.
Import IntGeometry Examples.
#[local] Existing Instance Float32_Z.
#[local] Existing Instance Geometry_Z.

(** Indices 1 and 3 of a sequence of five elements. *)
Example swap_delete_insert_1_3 :
  SwapDeleteMany [10; 20; 30; 40; 50] [1; 3] = Some [10; 50; 30]
  /\ SwapInsertMany [10; 50; 30] [1; 3] [20; 40] = Some [10; 20; 30; 40; 50].
Proof. split; reflexivity. Qed.

Lemma SwapInsertMany_SwapDeleteMany_witness :
  NoDup [1; 3]
  /\ Forall (fun i => i < length [10; 20; 30; 40; 50]) [1; 3]
  /\ exists removed s',
       CopyIdxs [] [10; 20; 30; 40; 50] [1; 3] = Some removed
       /\ SwapDeleteMany [10; 20; 30; 40; 50] [1; 3] = Some s'
       /\ length s' = length [10; 20; 30; 40; 50] - length [1; 3]
       /\ SwapInsertMany s' [1; 3] removed = Some [10; 20; 30; 40; 50].
Proof.
  assert (Hnd : NoDup [1; 3]) by compute_done.
  assert (Hin : Forall (fun i => i < length [10; 20; 30; 40; 50]) [1; 3])
    by (repeat constructor; simpl; lia).
  split; [exact Hnd|]. split; [exact Hin|].
  exact (SwapInsertMany_SwapDeleteMany [10; 20; 30; 40; 50] [1; 3] Hnd Hin).
Defined.

Lemma Undo_after_mutation_witness :
  mutation_distinct (MDeleteObjects sel_mixed)
  /\ exists s1,
       mutate scene6 (MDeleteObjects sel_mixed) = Some s1
       /\ Paths (Scene_ObjectCollection s1) = [path1]
       /\ exists s2 newSel,
            Undo s1 = Some (s2, true, Some newSel)
            /\ Paths (Scene_ObjectCollection s2) = [path0; path1]
            /\ Buildings (Scene_ObjectCollection s2) = [building0; building1]
            /\ TextBoxes (Scene_ObjectCollection s2) = [textbox0; textbox1].
Proof.
  assert (Hd : mutation_distinct (MDeleteObjects sel_mixed)).
  { repeat split; compute_done. }
  split; [exact Hd|]. eexists. split; [vm_compute; reflexivity|].
  split; [reflexivity|].
  apply (Undo_after_mutation scene6 (MDeleteObjects sel_mixed)); [exact Hd|].
  vm_compute. reflexivity.
Defined.

Lemma Redo_after_Undo_witness :
  mutation_distinct (MDeleteObjects sel_mixed)
  /\ exists s1,
       mutate scene6 (MDeleteObjects sel_mixed) = Some s1
       /\ exists s2 sel2 s3 sel3,
            Undo s1 = Some (s2, true, Some sel2)
            /\ Redo s2 = Some (s3, true, Some sel3)
            /\ Scene_ObjectCollection s3 = Scene_ObjectCollection s1
            /\ history s3 = history s1
            /\ historyPos s3 = historyPos s1.
Proof.
  assert (Hd : mutation_distinct (MDeleteObjects sel_mixed)).
  { repeat split; compute_done. }
  split; [exact Hd|]. eexists. split; [vm_compute; reflexivity|].
  apply (Redo_after_Undo scene6 (MDeleteObjects sel_mixed)); [exact Hd|].
  vm_compute. reflexivity.
Defined.

Lemma doSceneOp_discards_undone_witness :
  exists s s',
    scene_after_undo = Some s
    /\ HasRedo s = true
    /\ doSceneOp s op_add_path0 = Some s'
    /\ history s' = take (historyPos s) (history s) ++ [op_add_path0]
    /\ historyPos s' = historyPos s + 1
    /\ historyPos s' = length (history s')
    /\ HasRedo s' = false.
Proof.
  eexists. eexists. split; [vm_compute; reflexivity|].
  split; [reflexivity|].
  split; [vm_compute; reflexivity|].
  eapply doSceneOp_discards_undone. vm_compute. reflexivity.
Defined.

Lemma Undo_selection_witness :
  DeleteObjects scene6 sel_textbox0_stale = Some scene_textbox0_deleted
  /\ 0 < historyPos scene_textbox0_deleted
  /\ history scene_textbox0_deleted !! (historyPos scene_textbox0_deleted - 1)
     = Some op_delete_textbox0
  /\ Undo scene_textbox0_deleted
     = Some (scene_textbox0_restored, true, Some sel_textbox0_stale)
  /\ Some sel_textbox0_stale = Some
       match sceneOp_Type op_delete_textbox0 with
       | SceneOpAdd => ObjectSelection_zero
       | SceneOpDelete => Sel op_delete_textbox0
       | SceneOpModify =>
           recomputeBounds (Sel op_delete_textbox0)
             (Scene_ObjectCollection scene_textbox0_restored)
       end.
Proof.
  assert (Hpos : 0 < historyPos scene_textbox0_deleted) by (vm_compute; lia).
  assert (Hop : history scene_textbox0_deleted
                  !! (historyPos scene_textbox0_deleted - 1)
                = Some op_delete_textbox0) by reflexivity.
  assert (Hundo : Undo scene_textbox0_deleted
                  = Some (scene_textbox0_restored, true, Some sel_textbox0_stale))
    by reflexivity.
  split; [reflexivity|]. split; [exact Hpos|]. split; [exact Hop|].
  split; [exact Hundo|].
  exact (Undo_selection _ _ _ _ Hpos Hop Hundo).
Defined.

(** C8 as stated, at a deletion: the selection [Undo] returns is the stored one,
    whose bounds are not those [recomputeBounds] gives against the collection
    after the undo. *)
Lemma Undo_Delete_bounds_not_recomputed :
  exists s1 s2 newSel,
    DeleteObjects scene6 sel_textbox0_stale = Some s1
    /\ Undo s1 = Some (s2, true, Some newSel)
    /\ Bounds newSel = mkRectangle 0%Z 0%Z 0%Z 0%Z
    /\ Bounds (recomputeBounds sel_textbox0_stale (Scene_ObjectCollection s2))
       = mkRectangle 0%Z 0%Z 10%Z 10%Z
    /\ newSel <> recomputeBounds sel_textbox0_stale (Scene_ObjectCollection s2).
Proof.
  eexists. eexists. eexists. split; [vm_compute; reflexivity|].
  split; [vm_compute; reflexivity|].
  split; [reflexivity|]. split; [reflexivity|].
  intros H. apply (f_equal Bounds) in H. vm_compute in H. discriminate H.
Qed.

(** C3 at the empty scene with the addition of one path undone: the path has
    index 0 after [Redo], and the selection names index 1. *)
Example Redo_Add_path_index_out_of_range :
  exists s' newSel,
    Redo scene_add_undone = Some (s', true, Some newSel)
    /\ Paths (Scene_ObjectCollection s') = [path0]
    /\ PathIdxs newSel = [mkPathSel 1 true true]
    /\ ~ Forall (fun e => PathSel_Idx e < length (Paths (Scene_ObjectCollection s')))
           (PathIdxs newSel).
Proof.
  eexists. eexists. split; [vm_compute; reflexivity|].
  split; [reflexivity|]. split; [reflexivity|].
  intros H. apply Forall_cons in H as [H _]. simpl in H. lia.
Qed.

Lemma GetObjectAt_first_candidate_witness :
  selection_in_range (Scene_ObjectCollection scene6) sel_mixed
  /\ GetObjectAt scene6 sel_mixed (pt 0 2) = Some (mkObject TypePathStart 1)
  /\ GetObjectAt scene6 sel_mixed (pt 0 2)
     = Some (hd Object_zero
               (candidates (Scene_ObjectCollection scene6) sel_mixed (pt 0 2))).
Proof.
  assert (Hr : selection_in_range (Scene_ObjectCollection scene6) sel_mixed).
  { repeat split; repeat constructor; simpl; lia. }
  split; [exact Hr|]. split; [reflexivity|].
  exact (GetObjectAt_first_candidate scene6 sel_mixed (pt 0 2) Hr).
Defined.

(** C9 at two text boxes that both contain the point and are both selected,
    the one of index 1 listed before the one of index 0 in the selection:
    [GetObjectAt] scans the list of the selection from its last entry, and
    returns the text box of index 0, where the order of its own comment
    ("selected text box with highest index") gives the text box of index
    1. *)
Lemma GetObjectAt_selection_order :
  GetObjectAt scene6 sel_textboxes_1_0 (pt 5 5) = Some (mkObject TypeTextBox 0)
  /\ ObjectAt_spec scene6 sel_textboxes_1_0 (pt 5 5) = mkObject TypeTextBox 1.
Proof. split; reflexivity. Qed.

(** The end zones of a selected path are tested only when that end is
    selected: at a path of which only the start is selected, a point in its
    end zone is reported as the body of the path. *)
Example GetObjectAt_unselected_end :
  GetObjectAt scene6 sel_mixed (pt 4 2) = Some (mkObject TypePath 1)
  /\ ObjectAt_spec scene6 sel_mixed (pt 4 2) = mkObject TypePathEnd 1.
Proof. split; reflexivity. Qed.

End Concrete.

(* ================================================================== *)
(** ** Properties of the text codec *)
(* ================================================================== *)

Section CodecFacts.
Context `{TF : TextFormat} `{R : Registry}.
Import Text.

Lemma split_newlines_nonempty s : split_newlines s <> [].
Proof.
  destruct s as [|c s]; simpl; [done|].
  destruct (Ascii.eqb c LF); [done|]. by destruct (split_newlines s).
Qed.

(** The first line of a text of several lines is the first token of the
    scanner when it is short enough. *)
Lemma scan_tokens_cons seg segs :
  segs <> [] ->
  (String.length seg <? MaxScanTokenSize) = true ->
  exists ts e, scan_tokens (seg :: segs) = (dropCR seg :: ts, e).
Proof.
  intros Hne Hlen. destruct segs as [|seg' segs]; [done|].
  change (scan_tokens (seg :: seg' :: segs))
    with (if String.length seg <? MaxScanTokenSize
          then let '(ts, e) := scan_tokens (seg' :: segs) in (dropCR seg :: ts, e)
          else ([], Some ErrTooLong)).
  rewrite Hlen. destruct (scan_tokens (seg' :: segs)) as [ts e]. eauto.
Qed.

(** What [LoadFromText] does once the scanner has returned a first line. *)
Lemma LoadFromText_first_line input line s :
  head (ScanLines input).1 = Some line ->
  line <> EmptyString ->
  LoadFromText input s =
    match Sscanf_version line with
    | Error err =>
        (s, Some (DecodeError (mkDecodeTextError msgInvalidVersionLine (Some err) 1 0)))
    | Ok ver =>
        if (ver <? 0)%Z
        then (s, Some (DecodeError (mkDecodeTextError msgInvalidVersionNumber None 1 0)))
        else if (ver =? 0)%Z then decodeText (tail (ScanLines input).1) ver s
        else (s, Some (DecodeError (mkDecodeTextError msgVersionTooHigh None 1 ver)))
    end.
Proof.
  unfold LoadFromText. destruct (ScanLines input) as [tokens e]. simpl.
  destruct tokens as [|l ls]; [done|]. simpl. intros [= ->] Hne.
  destruct (String.eqb line EmptyString) eqn:E.
  - apply String.eqb_eq in E. done.
  - done.
Qed.

End CodecFacts.

Section NumberFacts.
Import Text.

Lemma scanNumber_digits d rest :
  number_ends rest ->
  scanNumber (DecimalString.NilEmpty.string_of_uint d +:+ rest)
  = (DecimalString.NilEmpty.string_of_uint d, rest).
Proof.
  intros Hrest.
  induction d; simpl; try (rewrite IHd; reflexivity).
  destruct rest as [|c rest]; [done|]. simpl in *. by rewrite Hrest.
Qed.

Lemma string_of_uint_head d :
  d <> Decimal.Nil ->
  exists c s, DecimalString.NilEmpty.string_of_uint d = String c s
              /\ isDigit c = true.
Proof. destruct d; [done|..]; intros _; simpl; eauto. Qed.

Lemma isDigit_not_space c : isDigit c = true -> isSpace c = false /\ Ascii.eqb c LF = false
  /\ Ascii.eqb c "+"%char = false /\ Ascii.eqb c "-"%char = false.
Proof.
  unfold isDigit, isSpace. intros H.
  assert (Hn : 48 <= nat_of_ascii c <= 57).
  { apply andb_true_iff in H as [H1 H2].
    apply Nat.leb_le in H1. apply Nat.leb_le in H2. lia. }
  repeat split.
  - apply orb_false_iff. split.
    + apply andb_false_iff. right. apply Nat.leb_gt. lia.
    + apply Nat.eqb_neq. lia.
  - apply Ascii.eqb_neq. intros ->. vm_compute in Hn. lia.
  - apply Ascii.eqb_neq. intros ->. vm_compute in Hn. lia.
  - apply Ascii.eqb_neq. intros ->. vm_compute in Hn. lia.
Qed.

(** The digits of a positive number scan back to the number. *)
Lemma scan_digits_pos negative p rest digits :
  number_ends rest ->
  digits = DecimalString.NilEmpty.string_of_uint (Pos.to_uint p) ->
  exists c s, digits = String c s /\ isDigit c = true
    /\ scanNumber (digits +:+ rest) = (digits, rest)
    /\ ParseInt negative digits =
         if (minInt64 <=? (if negative then Z.neg p else Z.pos p))%Z
            && ((if negative then Z.neg p else Z.pos p) <=? maxInt64)%Z
         then Ok (if negative then Z.neg p else Z.pos p) else Error ErrIntRange.
Proof.
  intros Hrest Hdigits.
  destruct (string_of_uint_head (Pos.to_uint p)) as (c & s & Hd & Hc).
  { apply DecimalPos.Unsigned.to_uint_nonnil. }
  rewrite <- Hdigits in Hd.
  exists c, s. split; [exact Hd|]. split; [exact Hc|].
  split; [subst digits; by apply scanNumber_digits|].
  assert (Hu : DecimalString.NilEmpty.uint_of_string digits = Some (Pos.to_uint p)).
  { subst digits. apply DecimalString.NilEmpty.usu. }
  unfold ParseInt. rewrite Hu. rewrite Hd.
  unfold Z.of_uint. rewrite DecimalPos.Unsigned.of_to.
  by destruct negative.
Qed.

(** An ASCII character that is no space starts no space of several bytes. *)
Lemma plain_inv c :
  plain c = true ->
  nat_of_ascii c < 128 /\ isSpace c = false /\ Ascii.eqb c LF = false.
Proof.
  unfold plain. intros H. apply andb_true_iff in H as [Hlt Hs].
  apply Nat.ltb_lt in Hlt. apply negb_true_iff in Hs.
  split; [done|]. split; [done|].
  apply Ascii.eqb_neq. intros ->. done.
Qed.

Lemma plain_space_width c s : plain c = true -> space_width (String c s) = 0.
Proof.
  intros H. apply plain_inv in H as (Hlt & Hs & _).
  unfold space_width. rewrite Hs.
  destruct s as [|c1 s]; [done|].
  replace (nat_of_ascii c =? 194) with false by (symmetry; apply Nat.eqb_neq; lia).
  simpl. destruct s as [|c2 s]; [done|].
  unfold wide_space3.
  replace (nat_of_ascii c =? 225) with false by (symmetry; apply Nat.eqb_neq; lia).
  replace (nat_of_ascii c =? 226) with false by (symmetry; apply Nat.eqb_neq; lia).
  replace (nat_of_ascii c =? 227) with false by (symmetry; apply Nat.eqb_neq; lia).
  done.
Qed.

Lemma isDigit_plain c : isDigit c = true -> plain c = true.
Proof.
  intros H. destruct (isDigit_not_space c H) as (Hs & _).
  unfold plain. rewrite Hs. apply andb_true_iff. split; [|done].
  unfold isDigit in H. apply andb_true_iff in H as [_ H2].
  apply Nat.leb_le in H2. apply Nat.ltb_lt. lia.
Qed.

(** [%d] reads back what [%d] writes. *)
Lemma SkipSpace_nonspace c s :
  plain c = true -> SkipSpace (String c s) = Ok (String c s).
Proof.
  intros H. unfold SkipSpace, SkipSpace_from.
  rewrite (plain_space_width c s H).
  apply plain_inv in H as (_ & _ & ->). done.
Qed.

Lemma scan_sign_digit c s : isDigit c = true -> scan_sign (String c s) = (false, String c s).
Proof.
  intros Hc. destruct (isDigit_not_space c Hc) as (_ & _ & Hplus & Hminus).
  simpl. by rewrite Hplus, Hminus.
Qed.

Lemma formatInt_pos p :
  formatInt (Z.pos p) = DecimalString.NilEmpty.string_of_uint (Pos.to_uint p).
Proof.
  unfold formatInt. simpl. unfold DecimalString.NilZero.string_of_uint.
  destruct (Pos.to_uint p) eqn:Hp; try reflexivity.
  by apply DecimalPos.Unsigned.to_uint_nonnil in Hp.
Qed.

Lemma formatInt_neg p :
  formatInt (Z.neg p)
  = String "-" (DecimalString.NilEmpty.string_of_uint (Pos.to_uint p)).
Proof.
  unfold formatInt. simpl. unfold DecimalString.NilZero.string_of_uint.
  destruct (Pos.to_uint p) eqn:Hp; try reflexivity.
  by apply DecimalPos.Unsigned.to_uint_nonnil in Hp.
Qed.

Lemma append_cons' a (s t : string) : String a s +:+ t = String a (s +:+ t).
Proof. reflexivity. Qed.

Lemma scanInt_formatInt z rest :
  (minInt64 <= z <= maxInt64)%Z ->
  number_ends rest ->
  scanInt (formatInt z +:+ rest) = Ok (z, rest).
Proof.
  intros Hz Hrest.
  assert (Hrange : (minInt64 <=? z)%Z && (z <=? maxInt64)%Z = true).
  { apply andb_true_iff. split; apply Z.leb_le; lia. }
  destruct z as [|p|p].
  - destruct rest as [|c rest]; [reflexivity|].
    simpl in Hrest. unfold scanInt.
    change (formatInt 0 +:+ String c rest) with (String "0" (String c rest)).
    rewrite SkipSpace_nonspace by done. simpl. rewrite Hrest. reflexivity.
  - rewrite formatInt_pos.
    destruct (scan_digits_pos false p rest _ Hrest eq_refl)
      as (c & s & Hd & Hc & Hscan & Hparse).
    unfold scanInt.
    assert (Hskip : SkipSpace (DecimalString.NilEmpty.string_of_uint (Pos.to_uint p) +:+ rest)
                    = Ok (DecimalString.NilEmpty.string_of_uint (Pos.to_uint p) +:+ rest)).
    { rewrite Hd. simpl String.append. by apply SkipSpace_nonspace, isDigit_plain. }
    rewrite Hskip. simpl mbind.
    assert (Hsign : scan_sign (DecimalString.NilEmpty.string_of_uint (Pos.to_uint p) +:+ rest)
                    = (false, DecimalString.NilEmpty.string_of_uint (Pos.to_uint p) +:+ rest)).
    { rewrite Hd. simpl String.append. by apply scan_sign_digit. }
    assert (Hne : notEOF (DecimalString.NilEmpty.string_of_uint (Pos.to_uint p) +:+ rest)
                  = Ok tt).
    { rewrite Hd. reflexivity. }
    unfold mbind, result_bind. rewrite Hne, Hsign, Hne, Hscan, Hparse, Hrange.
    rewrite Hd. reflexivity.
  - rewrite formatInt_neg.
    destruct (scan_digits_pos true p rest _ Hrest eq_refl)
      as (c & s & Hd & Hc & Hscan & Hparse).
    unfold scanInt. rewrite append_cons', SkipSpace_nonspace by done.
    assert (Hne : notEOF (DecimalString.NilEmpty.string_of_uint (Pos.to_uint p) +:+ rest)
                  = Ok tt).
    { rewrite Hd. reflexivity. }
    simpl. rewrite Hne. simpl. rewrite Hscan, Hparse, Hrange.
    rewrite Hd. reflexivity.
Qed.

Lemma formatInt_not_space z :
  exists c s, formatInt z = String c s /\ plain c = true.
Proof.
  unfold formatInt, Z.to_int. destruct z as [|p|p].
  - simpl. eexists _, _. split; [reflexivity|]. done.
  - destruct (string_of_uint_head (Pos.to_uint p)) as (c & s & Hd & Hc).
    { apply DecimalPos.Unsigned.to_uint_nonnil. }
    exists c, s. simpl. unfold DecimalString.NilZero.string_of_uint.
    pose proof (isDigit_plain c Hc) as Hp.
    destruct (Pos.to_uint p); done.
  - simpl. eexists _, _. split; [reflexivity|]. done.
Qed.

Lemma Sscanf_version_formatInt v :
  (minInt64 <= v <= maxInt64)%Z ->
  Sscanf_version ("#VERSION=" +:+ formatInt v) = Ok v.
Proof.
  intros Hv. unfold Sscanf_version.
  change (literal "#VERSION=" ("#VERSION=" +:+ formatInt v))
    with (Ok (formatInt v) : result string).
  simpl mbind. unfold mbind, result_bind.
  destruct (formatInt_not_space v) as (c & s & Hf & Hp).
  pose proof (scanInt_formatInt v EmptyString Hv I) as Hscan.
  assert (Happ : forall t : string, t +:+ EmptyString = t).
  { intros t. induction t as [|a t IH]; [done|].
    change (String a (t +:+ EmptyString) = String a t). by rewrite IH. }
  rewrite Happ in Hscan.
  assert (Hskip : SkipSpace (formatInt v) = Ok (formatInt v)).
  { rewrite Hf. by apply SkipSpace_nonspace. }
  by rewrite Hskip, Hscan.
Qed.

End NumberFacts.

Section LoadFacts.
Context `{TF : TextFormat} `{R : Registry}.
Import Text.

Lemma split_newlines_line line rest :
  no_newline line = true ->
  split_newlines (line +:+ NL +:+ rest) = line :: split_newlines rest.
Proof.
  induction line as [|c line IH]; intros Hnl.
  { reflexivity. }
  simpl in Hnl. apply andb_true_iff in Hnl as [Hc Hnl].
  apply negb_true_iff in Hc.
  change (String c line +:+ NL +:+ rest) with (String c (line +:+ NL +:+ rest)).
  simpl. rewrite Hc, (IH Hnl). reflexivity.
Qed.




(** A blank line is skipped without the line counter moving. *)
Lemma decodeText_lines_blank lines ver no c :
  decodeText_lines (EmptyString :: lines) ver no c = decodeText_lines lines ver no c.
Proof. reflexivity. Qed.

(** C4 at a header, one blank line, and a text box line of two fields: the
    error names line 2, and the line that fails is the third of the input. *)
Theorem LoadFromText_line_after_blank s :
  split_newlines CodecExamples.text_blank_then_bad
    = ["#VERSION=0"; EmptyString; "TextBox 1 2"]
  /\ LoadFromText CodecExamples.text_blank_then_bad s
     = (s, Some (DecodeError (mkDecodeTextError msgInvalidTextBox None 2 0))).
Proof. split; [reflexivity|]. destruct s. reflexivity. Qed.

End LoadFacts.

Section StringFacts.
Import Text.

Lemma append_nil_r (s : string) : s +:+ EmptyString = s.
Proof.
  induction s as [|a s IH]; [done|].
  change (String a (s +:+ EmptyString) = String a s). by rewrite IH.
Qed.

Lemma append_cons a (s t : string) : String a s +:+ t = String a (s +:+ t).
Proof. reflexivity. Qed.

Lemma append_assoc (a b c : string) : (a +:+ b) +:+ c = a +:+ (b +:+ c).
Proof.
  induction a as [|x a IH]; [done|].
  rewrite !append_cons. by rewrite IH.
Qed.

Lemma space_append (rest : string) : " " +:+ rest = String SP rest.
Proof. reflexivity. Qed.

Lemma all_chars_append P (a b : string) :
  all_chars P (a +:+ b) = all_chars P a && all_chars P b.
Proof.
  induction a as [|x a IH]; [done|].
  rewrite append_cons. simpl. rewrite IH. by rewrite andb_assoc.
Qed.

Lemma all_chars_impl (P Q : ascii -> bool) s :
  (forall c, P c = true -> Q c = true) ->
  all_chars P s = true -> all_chars Q s = true.
Proof.
  intros HPQ. induction s as [|x s IH]; simpl; [done|].
  intros H. apply andb_true_iff in H as [Hx Hs].
  apply andb_true_iff. auto.
Qed.

Lemma isSpace_SP : isSpace SP = true.
Proof. reflexivity. Qed.

Lemma isSpace_LF : isSpace LF = true.
Proof. reflexivity. Qed.

Lemma isSpace_CR : isSpace CR = true.
Proof. reflexivity. Qed.

Lemma not_space_neq c d : isSpace c = false -> isSpace d = true -> Ascii.eqb c d = false.
Proof. intros Hc Hd. apply Ascii.eqb_neq. intros ->. congruence. Qed.

Lemma word_one_line s : word s = true -> one_line s = true.
Proof.
  apply all_chars_impl. intros c Hc. apply plain_inv in Hc as (_ & Hc & _).
  rewrite (not_space_neq c LF), (not_space_neq c CR); done.
Qed.

Lemma one_line_no_newline s : one_line s = true -> no_newline s = true.
Proof.
  induction s as [|x s IH]; simpl; [done|].
  intros H. apply andb_true_iff in H as [Hx Hs].
  apply andb_true_iff in Hx as [Hx _]. rewrite Hx. simpl. by apply IH.
Qed.

Lemma one_line_dropCR s : one_line s = true -> dropCR s = s.
Proof.
  induction s as [|x s IH]; [done|].
  simpl. intros H. apply andb_true_iff in H as [Hx Hs].
  apply andb_true_iff in Hx as [_ Hx]. apply negb_true_iff in Hx.
  destruct s as [|y s]; [by rewrite Hx|].
  by rewrite (IH Hs).
Qed.

Lemma word_no_space s : word s = true -> has_space s = false.
Proof.
  induction s as [|x s IH]; simpl; [done|].
  intros H. apply andb_true_iff in H as [Hx Hs].
  apply plain_inv in Hx as (_ & Hx & _).
  rewrite (not_space_neq x SP), (IH Hs); done.
Qed.

Lemma has_space_append_space (a rest : string) : has_space (a +:+ String SP rest) = true.
Proof.
  induction a as [|x a IH]; [done|].
  rewrite append_cons. simpl. rewrite IH. apply orb_true_r.
Qed.

Lemma Cut_append_space (a rest : string) :
  has_space a = false -> Cut (a +:+ String SP rest) = (a, rest).
Proof.
  induction a as [|x a IH]; [done|].
  simpl has_space. intros H. apply orb_false_iff in H as [Hx Ha].
  rewrite append_cons. simpl. rewrite Hx, (IH Ha). done.
Qed.

Lemma SplitN_append_space (a rest : string) n :
  has_space a = false ->
  SplitN (a +:+ String SP rest) (S (S n)) = a :: SplitN rest (S n).
Proof.
  intros Ha. simpl. rewrite has_space_append_space, Cut_append_space by done.
  done.
Qed.

(** A word that is not empty starts with a character that no reader of the
    scanner skips. *)
Lemma word_head s :
  word s = true -> s <> EmptyString ->
  exists c t, s = String c t /\ plain c = true.
Proof.
  destruct s as [|c t]; [done|]. intros H _. simpl in H.
  apply andb_true_iff in H as [Hc _]. by exists c, t.
Qed.

Lemma SkipSpace_word s rest :
  word s = true -> s <> EmptyString -> SkipSpace (s +:+ rest) = Ok (s +:+ rest).
Proof.
  intros Hw Hne. destruct (word_head s Hw Hne) as (c & t & -> & Hc).
  rewrite append_cons. by apply SkipSpace_nonspace.
Qed.

Lemma format_space_word s rest :
  word s = true -> s <> EmptyString ->
  format_space (String SP (s +:+ rest)) = Ok (s +:+ rest).
Proof.
  intros Hw Hne. destruct (word_head s Hw Hne) as (c & t & -> & Hc).
  rewrite append_cons. unfold format_space.
  change (space_width (String SP (String c (t +:+ rest)))) with 1.
  change (Ascii.eqb SP LF) with false. cbv iota.
  unfold skip_blanks_from. rewrite (plain_space_width c _ Hc).
  apply plain_inv in Hc as (_ & _ & ->). done.
Qed.

Lemma notEOF_word s rest : s <> EmptyString -> notEOF (s +:+ rest) = Ok tt.
Proof. by destruct s. Qed.

Lemma formatInt_word z : word (formatInt z) = true /\ formatInt z <> EmptyString.
Proof.
  assert (Hd : forall d, word (DecimalString.NilEmpty.string_of_uint d) = true).
  { induction d; simpl; done. }
  destruct z as [|p|p].
  - done.
  - rewrite formatInt_pos. split; [apply Hd|].
    destruct (string_of_uint_head (Pos.to_uint p)) as (c & t & -> & _); [|done].
    apply DecimalPos.Unsigned.to_uint_nonnil.
  - rewrite formatInt_neg. split; [|done]. simpl. apply Hd.
Qed.

Lemma verb_d_formatInt z rest :
  (minInt64 <= z <= maxInt64)%Z ->
  number_ends rest ->
  verb_d (formatInt z +:+ rest) = Ok (z, rest).
Proof.
  intros Hz Hrest. unfold verb_d.
  destruct (formatInt_word z) as [Hw Hne].
  rewrite SkipSpace_word by done. by apply scanInt_formatInt.
Qed.

End StringFacts.

Section FieldFacts.
Context `{TF : TextFormat}.
Import Text.

Lemma bind_Ok {A B} (a : A) (f : A -> result B) : Ok a ≫= f = f a.
Proof. reflexivity. Qed.

Lemma verb_f_formatFloat x rest :
  float_ok x -> field_ends rest -> verb_f (formatFloat x +:+ rest) = Ok (x, rest).
Proof.
  intros (Hw & Hne & _ & Hscan) Hrest. unfold verb_f.
  rewrite SkipSpace_word by done. rewrite bind_Ok.
  rewrite SkipSpace_word by done. rewrite bind_Ok.
  rewrite notEOF_word by done. rewrite bind_Ok.
  by rewrite Hscan.
Qed.

Lemma Sscanf_path_fields x1 y1 x2 y2 :
  float_ok x1 -> float_ok y1 -> float_ok x2 -> float_ok y2 ->
  Sscanf_path (formatFloat x1 +:+ " " +:+ formatFloat y1 +:+ " "
               +:+ formatFloat x2 +:+ " " +:+ formatFloat y2)
  = Ok (mkVector2 x1 y1, mkVector2 x2 y2).
Proof.
  intros H1 H2 H3 H4. unfold Sscanf_path. rewrite !space_append.
  rewrite verb_f_formatFloat by done. rewrite bind_Ok. cbv beta iota.
  rewrite format_space_word by apply H2. rewrite bind_Ok.
  rewrite verb_f_formatFloat by done. rewrite bind_Ok. cbv beta iota.
  rewrite format_space_word by apply H3. rewrite bind_Ok.
  rewrite verb_f_formatFloat by done. rewrite bind_Ok. cbv beta iota.
  rewrite <- (append_nil_r (formatFloat y2)).
  rewrite format_space_word by apply H4. rewrite bind_Ok.
  rewrite verb_f_formatFloat by done. done.
Qed.

Lemma Sscanf_building_fields x y rot :
  float_ok x -> float_ok y -> (minInt64 <= rot <= maxInt64)%Z ->
  Sscanf_building (formatFloat x +:+ " " +:+ formatFloat y +:+ " " +:+ formatInt rot)
  = Ok (mkVector2 x y, rot).
Proof.
  intros H1 H2 H3. unfold Sscanf_building. rewrite !space_append.
  rewrite verb_f_formatFloat by done. rewrite bind_Ok. cbv beta iota.
  rewrite format_space_word by apply H2. rewrite bind_Ok.
  rewrite verb_f_formatFloat by done. rewrite bind_Ok. cbv beta iota.
  destruct (formatInt_word rot) as [Hw Hne].
  rewrite <- (append_nil_r (formatInt rot)).
  rewrite format_space_word by done. rewrite bind_Ok.
  rewrite verb_d_formatInt by done. done.
Qed.

Lemma decode_textbox_fields x y w h content :
  float_ok x -> float_ok y -> float_ok w -> float_ok h -> quote_ok content ->
  decode_textbox (formatFloat x +:+ " " +:+ formatFloat y +:+ " "
                  +:+ formatFloat w +:+ " " +:+ formatFloat h +:+ " "
                  +:+ Quote content)
  = inl (mkTextBox (mkRectangle x y w h) content).
Proof.
  intros Hx Hy Hw Hh [_ Hq]. unfold decode_textbox. rewrite !space_append.
  rewrite !SplitN_append_space
    by (apply word_no_space; first [apply Hx|apply Hy|apply Hw|apply Hh]).
  change (SplitN (Quote content) 1) with [Quote content].
  destruct Hx as (_ & _ & -> & _). destruct Hy as (_ & _ & -> & _).
  destruct Hw as (_ & _ & -> & _). destruct Hh as (_ & _ & -> & _).
  by rewrite Hq.
Qed.

End FieldFacts.

Section RegistryFacts.
Context `{TF : TextFormat}.

Lemma Index_absent (defs : list string) class : class ∉ defs -> Index defs class = (-1)%Z.
Proof.
  induction defs as [|d defs IH]; [done|].
  intros H. apply not_elem_of_cons in H as [Hne Hnot]. simpl.
  destruct (String.eqb d class) eqn:E.
  { apply String.eqb_eq in E. congruence. }
  rewrite (IH Hnot). done.
Qed.

Lemma Index_lookup (defs : list string) i class :
  NoDup defs -> defs !! i = Some class -> Index defs class = Z.of_nat i.
Proof.
  intros Hnd. revert i. induction Hnd as [|d defs Hd Hnd IH]; intros i; [done|].
  destruct i as [|i]; simpl.
  - intros [= ->]. by rewrite String.eqb_refl.
  - intros Hi. destruct (String.eqb d class) eqn:E.
    { apply String.eqb_eq in E. subst d. apply list_elem_of_lookup_2 in Hi. done. }
    rewrite (IH i Hi).
    replace (Z.of_nat i <? 0)%Z with false by (symmetry; apply Z.ltb_ge; lia).
    lia.
Qed.

Lemma Def_Class_Some (defs : list string) idx class :
  Def_Class defs idx = Some class ->
  defs !! Z.to_nat idx = Some class /\ Z.of_nat (Z.to_nat idx) = idx.
Proof.
  unfold Def_Class. destruct (0 <=? idx)%Z eqn:E; [|done].
  apply Z.leb_le in E. intros H. split; [done|lia].
Qed.

End RegistryFacts.

Section RoundTrip.
Context `{TF : TextFormat} `{R : Registry}.
Import Text.

Lemma eqb_append_space_empty (a rest : string) :
  String.eqb (a +:+ String SP rest) EmptyString = false.
Proof. by destruct a. Qed.

Lemma one_line_append_space (a b : string) :
  one_line (a +:+ String SP b) = one_line a && one_line b.
Proof. unfold one_line. rewrite all_chars_append. done. Qed.

Lemma float_one_line x : float_ok x -> one_line (formatFloat x) = true.
Proof. intros (Hw & _). by apply word_one_line. Qed.

Lemma formatInt_one_line z : one_line (formatInt z) = true.
Proof. apply word_one_line, formatInt_word. Qed.

Lemma decode_path_text p class :
  NoDup pathDefs ->
  word class = true -> class <> textboxClass ->
  Def_Class pathDefs (Path_DefIdx p) = Some class ->
  Path_ok p ->
  decode_line (path_text class p) = DecodedPath p
  /\ one_line (path_text class p) = true.
Proof.
  intros Hnd Hw Hne Hdef ((Hx1 & Hy1) & (Hx2 & Hy2)).
  apply Def_Class_Some in Hdef as [Hlook Hidx].
  split.
  - unfold decode_line, path_text. rewrite (space_append (formatFloat _ +:+ _)).
    rewrite Cut_append_space by (by apply word_no_space).
    replace (String.eqb class textboxClass) with false
      by (symmetry; by apply String.eqb_neq).
    rewrite (Index_lookup _ _ _ Hnd Hlook), Hidx.
    replace (0 <=? Path_DefIdx p)%Z with true by (symmetry; apply Z.leb_le; lia).
    rewrite Sscanf_path_fields by done.
    by destruct p as [idx [x1 y1] [x2 y2]].
  - unfold path_text. rewrite !space_append, !one_line_append_space.
    rewrite (word_one_line _ Hw), !float_one_line by done. done.
Qed.

Lemma decode_building_text b class :
  NoDup buildingDefs ->
  class ∉ pathDefs ->
  word class = true -> class <> textboxClass ->
  Def_Class buildingDefs (Building_DefIdx b) = Some class ->
  Building_ok b ->
  decode_line (building_text class b) = DecodedBuilding b
  /\ one_line (building_text class b) = true.
Proof.
  intros Hnd Hnot Hw Hne Hdef ((Hx & Hy) & Hrot).
  apply Def_Class_Some in Hdef as [Hlook Hidx].
  split.
  - unfold decode_line, building_text. rewrite (space_append (formatFloat _ +:+ _)).
    rewrite Cut_append_space by (by apply word_no_space).
    replace (String.eqb class textboxClass) with false
      by (symmetry; by apply String.eqb_neq).
    rewrite (Index_absent _ _ Hnot).
    change (0 <=? -1)%Z with false. cbv iota.
    rewrite (Index_lookup _ _ _ Hnd Hlook), Hidx.
    replace (0 <=? Building_DefIdx b)%Z with true by (symmetry; apply Z.leb_le; lia).
    rewrite Sscanf_building_fields by done.
    by destruct b as [idx [x y] rot].
  - unfold building_text. rewrite !space_append, !one_line_append_space.
    rewrite (word_one_line _ Hw), !float_one_line, formatInt_one_line by done. done.
Qed.

Lemma decode_textbox_text tb :
  TextBox_ok tb ->
  decode_line (textbox_text tb) = DecodedTextBox tb
  /\ one_line (textbox_text tb) = true.
Proof.
  intros (Hx & Hy & Hw & Hh & Hq). split.
  - unfold decode_line, textbox_text. rewrite (space_append (formatFloat _ +:+ _)).
    rewrite Cut_append_space by done.
    rewrite String.eqb_refl.
    rewrite decode_textbox_fields by done.
    by destruct tb as [[x y w h] content].
  - unfold textbox_text. rewrite !space_append, !one_line_append_space.
    rewrite !float_one_line by done. destruct Hq as [-> _]. done.
Qed.

(** The lines of a run of objects of one kind. *)
Lemma decodeText_lines_paths (texts : list string) (ps : list Path) lines ver no c :
  Forall2 (fun t p => decode_line t = DecodedPath p /\ exists a r, t = a +:+ String SP r)
    texts ps ->
  decodeText_lines (texts ++ lines) ver no c
  = decodeText_lines lines ver (no + length ps)
      (mkObjectCollection (Paths c ++ ps) (Buildings c) (TextBoxes c)).
Proof.
  intros H. revert no c.
  induction H as [|t p texts ps [Hd (a & r & ->)] _ IH]; intros no c.
  { simpl. rewrite Nat.add_0_r, app_nil_r. by destruct c. }
  simpl. rewrite eqb_append_space_empty, Hd, IH. simpl.
  rewrite <- app_assoc. f_equal. lia.
Qed.

Lemma decodeText_lines_buildings (texts : list string) (bs : list Building) lines ver no c :
  Forall2 (fun t b => decode_line t = DecodedBuilding b /\ exists a r, t = a +:+ String SP r)
    texts bs ->
  decodeText_lines (texts ++ lines) ver no c
  = decodeText_lines lines ver (no + length bs)
      (mkObjectCollection (Paths c) (Buildings c ++ bs) (TextBoxes c)).
Proof.
  intros H. revert no c.
  induction H as [|t b texts bs [Hd (a & r & ->)] _ IH]; intros no c.
  { simpl. rewrite Nat.add_0_r, app_nil_r. by destruct c. }
  simpl. rewrite eqb_append_space_empty, Hd, IH. simpl.
  rewrite <- app_assoc. f_equal. lia.
Qed.

Lemma decodeText_lines_textboxes (texts : list string) (tbs : list TextBox) lines ver no c :
  Forall2 (fun t tb => decode_line t = DecodedTextBox tb /\ exists a r, t = a +:+ String SP r)
    texts tbs ->
  decodeText_lines (texts ++ lines) ver no c
  = decodeText_lines lines ver (no + length tbs)
      (mkObjectCollection (Paths c) (Buildings c) (TextBoxes c ++ tbs)).
Proof.
  intros H. revert no c.
  induction H as [|t tb texts tbs [Hd (a & r & ->)] _ IH]; intros no c.
  { simpl. rewrite Nat.add_0_r, app_nil_r. by destruct c. }
  simpl. rewrite eqb_append_space_empty, Hd, IH. simpl.
  rewrite <- app_assoc. f_equal. lia.
Qed.

(** The text of a run of lines splits back into the lines. *)
Lemma split_newlines_write_all (texts : list string) rest :
  Forall (fun t => one_line t = true) texts ->
  split_newlines (write_all ((fun t => t +:+ NL) <$> texts) +:+ rest)
  = texts ++ split_newlines rest.
Proof.
  induction 1 as [|t texts Ht _ IH]; [done|].
  change (write_all ((fun t => t +:+ NL) <$> (t :: texts)))
    with ((t +:+ NL) +:+ write_all ((fun t => t +:+ NL) <$> texts)).
  rewrite !append_assoc.
  rewrite split_newlines_line by (by apply one_line_no_newline).
  by rewrite IH.
Qed.

(** The scanner returns the lines of a text that ends with a newline when
    they all fit in its buffer. *)
Lemma scan_tokens_lines (lines : list string) :
  Forall (fun t => one_line t = true) lines ->
  Forall (fun t => (String.length t <? MaxScanTokenSize) = true) lines ->
  scan_tokens (lines ++ [EmptyString]) = (lines, None).
Proof.
  induction 1 as [|t lines Ht _ IH]; intros Hfit; [done|].
  apply Forall_cons in Hfit as [Hfit_t Hfit].
  change ((t :: lines) ++ [EmptyString]) with (t :: (lines ++ [EmptyString])).
  destruct (scan_tokens_cons t (lines ++ [EmptyString])) as (ts & e & Hscan);
    [by destruct lines|done|].
  assert (Hstep : scan_tokens (t :: (lines ++ [EmptyString]))
                  = let '(ts, e) := scan_tokens (lines ++ [EmptyString]) in
                    (dropCR t :: ts, e)).
  { destruct (lines ++ [EmptyString]) as [|l ls] eqn:E; [by destruct lines|].
    change (scan_tokens (t :: l :: ls))
      with (if String.length t <? MaxScanTokenSize
            then let '(ts, e) := scan_tokens (l :: ls) in (dropCR t :: ts, e)
            else ([], Some ErrTooLong)).
    by rewrite Hfit_t. }
  rewrite Hstep, (IH Hfit), one_line_dropCR by done. done.
Qed.

Lemma option_bind_Some {A B} (a : A) (f : A -> option B) : Some a ≫= f = f a.
Proof. reflexivity. Qed.

Lemma registry_ok_inv :
  registry_ok ->
  NoDup pathDefs /\ NoDup buildingDefs
  /\ (forall class, class ∈ buildingDefs -> class ∉ pathDefs)
  /\ (forall class, class ∈ pathDefs ++ buildingDefs ->
        word class = true /\ class <> textboxClass).
Proof.
  intros [Hnd Hall]. apply NoDup_app in Hnd as (Hp & Hdisj & Hb).
  repeat split; try done.
  - intros class Hin Hin'. by apply (Hdisj class).
  - by apply (proj1 (Forall_forall _ _) Hall).
  - by apply (proj1 (Forall_forall _ _) Hall).
Qed.

Lemma mapM_path_lines (ps : list Path) plines :
  registry_ok -> Forall Path_ok ps ->
  mapM path_line ps = Some plines ->
  exists texts,
    plines = (fun t => t +:+ NL) <$> texts
    /\ Forall (fun t => one_line t = true) texts
    /\ Forall2 (fun t p => decode_line t = DecodedPath p
                           /\ exists a r, t = a +:+ String SP r) texts ps.
Proof.
  intros Hreg Hok. apply registry_ok_inv in Hreg as (Hnd & _ & _ & Hcls).
  revert plines. induction Hok as [|p ps Hp _ IH]; intros plines.
  { intros [= <-]. exists []. repeat split; constructor. }
  change (mapM path_line (p :: ps))
    with (y ← path_line p; k ← mapM path_line ps; mret (y :: k)).
  destruct (path_line p) as [l|] eqn:Hline; [|intros [=]].
  rewrite option_bind_Some. destruct (mapM path_line ps) as [rest|]; [|intros [=]].
  rewrite option_bind_Some.
  unfold path_line in Hline.
  destruct (Def_Class pathDefs (Path_DefIdx p)) as [class|] eqn:Hdef; [|done].
  rewrite option_bind_Some in Hline. injection Hline as <-.
  intros [= <-]. destruct (IH rest eq_refl) as (texts & -> & Hone & Hall).
  destruct (Hcls class) as [Hw Hne].
  { apply elem_of_app. left. apply Def_Class_Some in Hdef as [Hl _].
    by apply list_elem_of_lookup_2 in Hl. }
  destruct (decode_path_text p class Hnd Hw Hne Hdef Hp) as [Hd Hl].
  exists (path_text class p :: texts). repeat split.
  - by constructor.
  - constructor; [|done]. split; [done|]. unfold path_text.
    rewrite space_append. eauto.
Qed.

Lemma mapM_building_lines (bs : list Building) blines :
  registry_ok -> Forall Building_ok bs ->
  mapM building_line bs = Some blines ->
  exists texts,
    blines = (fun t => t +:+ NL) <$> texts
    /\ Forall (fun t => one_line t = true) texts
    /\ Forall2 (fun t b => decode_line t = DecodedBuilding b
                           /\ exists a r, t = a +:+ String SP r) texts bs.
Proof.
  intros Hreg Hok. apply registry_ok_inv in Hreg as (_ & Hnd & Hdisj & Hcls).
  revert blines. induction Hok as [|b bs Hb _ IH]; intros blines.
  { intros [= <-]. exists []. repeat split; constructor. }
  change (mapM building_line (b :: bs))
    with (y ← building_line b; k ← mapM building_line bs; mret (y :: k)).
  destruct (building_line b) as [l|] eqn:Hline; [|intros [=]].
  rewrite option_bind_Some. destruct (mapM building_line bs) as [rest|]; [|intros [=]].
  rewrite option_bind_Some.
  unfold building_line in Hline.
  destruct (Def_Class buildingDefs (Building_DefIdx b)) as [class|] eqn:Hdef; [|done].
  rewrite option_bind_Some in Hline. injection Hline as <-.
  intros [= <-]. destruct (IH rest eq_refl) as (texts & -> & Hone & Hall).
  assert (Hin : class ∈ buildingDefs).
  { apply Def_Class_Some in Hdef as [Hl _]. by apply list_elem_of_lookup_2 in Hl. }
  destruct (Hcls class) as [Hw Hne]; [apply elem_of_app; by right|].
  destruct (decode_building_text b class Hnd (Hdisj _ Hin) Hw Hne Hdef Hb) as [Hd Hl].
  exists (building_text class b :: texts). repeat split.
  - by constructor.
  - constructor; [|done]. split; [done|]. unfold building_text.
    rewrite space_append. eauto.
Qed.

Lemma textbox_lines (tbs : list TextBox) :
  Forall TextBox_ok tbs ->
  textbox_line <$> tbs = (fun t => t +:+ NL) <$> (textbox_text <$> tbs)
  /\ Forall (fun t => one_line t = true) (textbox_text <$> tbs)
  /\ Forall2 (fun t tb => decode_line t = DecodedTextBox tb
                          /\ exists a r, t = a +:+ String SP r)
       (textbox_text <$> tbs) tbs.
Proof.
  induction 1 as [|tb tbs Htb _ (IH1 & IH2 & IH3)].
  { repeat split; constructor. }
  destruct (decode_textbox_text tb Htb) as [Hd Hl].
  rewrite !fmap_cons. repeat split.
  - rewrite IH1. done.
  - by constructor.
  - constructor; [|done]. split; [done|]. unfold textbox_text.
    rewrite space_append. eauto.
Qed.

Lemma ObjectCollection_append_zero c :
  ObjectCollection_append ObjectCollection_zero c = c.
Proof. by destruct c. Qed.

(** X22. When the class names of the registries are
    distinct words other than [TextBox], the numbers and the contents of the
    scene are read back by the library as it writes them, and every line of
    the text fits in the buffer of the scanner, [LoadFromText] of the text
    [SaveToText] writes returns no error and appends to a scene the paths, the
    buildings and the text boxes of the saved scene, each kind in its order:
    read into an empty scene, the collection is the one that was saved. *)
Theorem SaveToText_LoadFromText s text s0 :
  registry_ok ->
  collection_ok (Scene_ObjectCollection s) ->
  SaveToText s = Some text ->
  lines_fit text ->
  LoadFromText text s0
  = (set_ObjectCollection s0
       (ObjectCollection_append (Scene_ObjectCollection s0) (Scene_ObjectCollection s)),
     None)
  /\ (Scene_ObjectCollection s0 = ObjectCollection_zero ->
      Scene_ObjectCollection (LoadFromText text s0).1 = Scene_ObjectCollection s).
Proof.
  intros Hreg (Hps & Hbs & Htbs) Hsave Hfit.
  assert (Hload : LoadFromText text s0
    = (set_ObjectCollection s0
         (ObjectCollection_append (Scene_ObjectCollection s0) (Scene_ObjectCollection s)),
       None));
    [|split; [exact Hload|];
      intros Hzero; rewrite Hload, Hzero; apply ObjectCollection_append_zero].
  unfold SaveToText in Hsave.
  destruct (mapM building_line _) as [blines|] eqn:Hb; [|done].
  destruct (mapM path_line _) as [plines|] eqn:Hp; [|done].
  simpl in Hsave. injection Hsave as <-.
  destruct (mapM_building_lines _ _ Hreg Hbs Hb) as (btexts & -> & Hb1 & Hb2).
  destruct (mapM_path_lines _ _ Hreg Hps Hp) as (ptexts & -> & Hp1 & Hp2).
  destruct (textbox_lines _ Htbs) as (Ht0 & Ht1 & Ht2).
  rewrite Ht0 in *. set (ttexts := textbox_text <$> _) in *.
  assert (Hsplit : split_newlines
            (version_line
             +:+ write_all ((fun t => t +:+ NL) <$> btexts)
             +:+ write_all ((fun t => t +:+ NL) <$> ptexts)
             +:+ write_all ((fun t => t +:+ NL) <$> ttexts))
          = ("#VERSION=0" :: btexts ++ ptexts ++ ttexts) ++ [EmptyString]).
  { change version_line with ("#VERSION=0" +:+ NL).
    rewrite append_assoc. rewrite split_newlines_line by done.
    rewrite split_newlines_write_all by done.
    rewrite split_newlines_write_all by done.
    rewrite <- (append_nil_r (write_all ((fun t => t +:+ NL) <$> ttexts))).
    rewrite split_newlines_write_all by done.
    simpl. by rewrite <- !app_assoc. }
  unfold lines_fit in Hfit. rewrite Hsplit in Hfit.
  apply Forall_app in Hfit as [Hfit _].
  unfold LoadFromText, ScanLines. rewrite Hsplit.
  rewrite scan_tokens_lines; [|constructor; [done|]; by rewrite !Forall_app|done].
  change (String.eqb "#VERSION=0" EmptyString) with false. cbv iota.
  change (Sscanf_version "#VERSION=0") with (Ok 0%Z : result Z). cbv iota beta.
  change (0 <? 0)%Z with false. change (0 =? 0)%Z with true. cbv iota.
  unfold decodeText.
  rewrite (decodeText_lines_buildings _ _ _ _ _ _ Hb2).
  rewrite (decodeText_lines_paths _ _ _ _ _ _ Hp2).
  rewrite <- (app_nil_r ttexts).
  rewrite (decodeText_lines_textboxes _ _ _ _ _ _ Ht2).
  reflexivity.
Qed.

(** The line number of an error of [decodeText]: the counter starts at 2 and
    moves at each line that is not blank, so the error carries 2 plus the
    number of non-blank lines before the line that fails, with the message and
    the error of that line, and the version. *)
Theorem decodeText_lines_error lines ver no c c' e :
  decodeText_lines lines ver no c = (c', Some e) ->
  exists pre line post,
    lines = pre ++ line :: post
    /\ line <> EmptyString
    /\ decode_line line = DecodeFailed (Msg e) (Err e)
    /\ Line e = no + length (filter (fun l => l <> EmptyString) pre)
    /\ Version e = ver.
Proof.
  revert no c. induction lines as [|line lines IH]; intros no c; [done|].
  simpl. destruct (String.eqb line EmptyString) eqn:E.
  - apply String.eqb_eq in E. subst line. intros H.
    destruct (IH _ _ H) as (pre & l & post & -> & Hne & Hd & Hl & Hv).
    exists (EmptyString :: pre), l, post. repeat split; try done.
  - apply String.eqb_neq in E.
    destruct (decode_line line) as [tb|p|b|msg err] eqn:Hdec.
    1-3: intros H; destruct (IH _ _ H) as (pre & l & post & -> & Hne & Hd & Hl & Hv);
         exists (line :: pre), l, post; repeat split; try done;
         rewrite filter_cons_True by done; simpl; lia.
    intros [= <- <-]. exists [], line, lines. simpl. repeat split; try done.
Qed.

End RoundTrip.

Section CodecConcrete.
Import Text IntGeometry IntText Examples CodecExamples.
#[local] Existing Instance Float32_Z.
#[local] Existing Instance TextFormat_Z.
#[local] Existing Instance Registry_4.

(** A building, a path and a text box with quotes in its content are written
    and read back. *)
Example SaveToText_LoadFromText_scene3 :
  SaveToText scene3 = Some scene3_text
  /\ LoadFromText scene3_text Scene_zero = (scene3, None).
Proof. split; reflexivity. Qed.


(** A version that does not fit an [int] is an invalid first line, not a
    version that is too high. *)
Example LoadFromText_version_out_of_range :
  LoadFromText "#VERSION=9223372036854775808" Scene_zero
  = (Scene_zero,
     Some (DecodeError (mkDecodeTextError msgInvalidVersionLine (Some ErrIntRange) 1 0))).
Proof. reflexivity. Qed.


(** C2 at a scene with a text box of 65536 letters: the text is written, the
    scanner of [decodeText] stops at the line of that text box with
    [ErrTooLong], which [decodeText] never reads ([LoadFromText] reads
    [scanner.Err()] after the first line only): reading the text back into an
    empty scene returns no error and a scene without its text boxes. *)
Lemma SaveToText_LoadFromText_long_line :
  match SaveToText scene_long with
  | Some text =>
      (LoadFromText text Scene_zero).2 = None
      /\ TextBoxes (Scene_ObjectCollection (LoadFromText text Scene_zero).1) = []
      /\ length (TextBoxes (Scene_ObjectCollection scene_long)) = 2
      /\ Scene_ObjectCollection (LoadFromText text Scene_zero).1
         <> Scene_ObjectCollection scene_long
  | None => False
  end.
Proof.
  assert (H : match SaveToText scene_long with
              | Some text =>
                  (LoadFromText text Scene_zero).2 = None
                  /\ TextBoxes (Scene_ObjectCollection (LoadFromText text Scene_zero).1)
                     = []
              | None => False
              end) by (vm_compute; split; reflexivity).
  destruct (SaveToText scene_long) as [text|]; [|done].
  destruct H as [Herr Htb]. repeat split; try done.
  intros Heq. rewrite Heq in Htb. discriminate Htb.
Qed.

Lemma decodeText_lines_error_witness :
  decodeText_lines [EmptyString; "TextBox 1 2"] 0 2 ObjectCollection_zero
  = (ObjectCollection_zero, Some (mkDecodeTextError msgInvalidTextBox None 2 0))
  /\ exists pre line post,
       [EmptyString; "TextBox 1 2"] = pre ++ line :: post
       /\ line <> EmptyString
       /\ decode_line line = DecodeFailed msgInvalidTextBox None
       /\ 2 = 2 + length (filter (fun l => l <> EmptyString) pre)
       /\ 0%Z = 0%Z.
Proof.
  assert (H : decodeText_lines [EmptyString; "TextBox 1 2"] 0 2 ObjectCollection_zero
              = (ObjectCollection_zero,
                 Some (mkDecodeTextError msgInvalidTextBox None 2 0))) by reflexivity.
  split; [exact H|].
  exact (decodeText_lines_error _ _ _ _ _ _ H).
Defined.

Lemma field_ends_number_ends rest : field_ends rest -> number_ends rest.
Proof. destruct rest as [|c rest]; [done|]. simpl. by intros ->. Qed.

Lemma scanFloatDigits_digits d rest :
  field_ends rest ->
  scanFloatDigits (DecimalString.NilEmpty.string_of_uint d +:+ rest)
  = (DecimalString.NilEmpty.string_of_uint d, rest).
Proof.
  intros Hrest.
  induction d; simpl; try (rewrite IHd; reflexivity).
  destruct rest as [|c rest]; [done|]. simpl in *. by subst c.
Qed.

Lemma scan_whole_formatInt z rest :
  field_ends rest -> scan_whole (formatInt z +:+ rest) = Some (z, rest).
Proof.
  intros Hrest. destruct z as [|p|p].
  - destruct rest as [|c rest]; [reflexivity|].
    simpl in Hrest. by subst c.
  - rewrite formatInt_pos.
    destruct (string_of_uint_head (Pos.to_uint p)) as (c & s & Hd & Hc).
    { apply DecimalPos.Unsigned.to_uint_nonnil. }
    unfold scan_whole.
    assert (Hsign : scan_sign (DecimalString.NilEmpty.string_of_uint (Pos.to_uint p) +:+ rest)
                    = (false, DecimalString.NilEmpty.string_of_uint (Pos.to_uint p) +:+ rest)).
    { rewrite Hd. rewrite append_cons. by apply scan_sign_digit. }
    rewrite Hsign, scanFloatDigits_digits, DecimalString.NilEmpty.usu by done.
    unfold Z.of_uint. rewrite DecimalPos.Unsigned.of_to. rewrite Hd. reflexivity.
  - rewrite formatInt_neg.
    destruct (string_of_uint_head (Pos.to_uint p)) as (c & s & Hd & Hc).
    { apply DecimalPos.Unsigned.to_uint_nonnil. }
    unfold scan_whole. rewrite append_cons.
    change (scan_sign (String "-" ?x)) with (true, x).
    cbv iota beta. rewrite scanFloatDigits_digits, DecimalString.NilEmpty.usu by done.
    unfold Z.of_uint. rewrite DecimalPos.Unsigned.of_to. rewrite Hd. reflexivity.
Qed.

(** The integer instance meets what the round trip asks of the numbers. *)
Lemma float_ok_Z (z : Z) : float_ok z.
Proof.
  destruct (formatInt_word z) as [Hw Hne].
  split; [exact Hw|]. split; [exact Hne|]. split.
  - simpl. unfold parse_whole.
    rewrite <- (append_nil_r (formatInt z)) at 1.
    by rewrite scan_whole_formatInt.
  - intros rest Hrest. simpl. by apply scan_whole_formatInt.
Qed.

Lemma SaveToText_LoadFromText_witness :
  registry_ok
  /\ collection_ok (Scene_ObjectCollection scene3)
  /\ SaveToText scene3 = Some scene3_text
  /\ lines_fit scene3_text
  /\ LoadFromText scene3_text Scene_zero
     = (set_ObjectCollection Scene_zero
          (ObjectCollection_append (Scene_ObjectCollection Scene_zero)
             (Scene_ObjectCollection scene3)),
        None)
  /\ (Scene_ObjectCollection Scene_zero = ObjectCollection_zero ->
      Scene_ObjectCollection (LoadFromText scene3_text Scene_zero).1
      = Scene_ObjectCollection scene3).
Proof.
  assert (Hreg : registry_ok).
  { split; [compute_done|]. repeat constructor; done. }
  assert (Hok : collection_ok (Scene_ObjectCollection scene3)).
  { repeat split; repeat constructor; try apply float_ok_Z; try reflexivity;
      unfold minInt64, maxInt64; simpl; lia. }
  assert (Hsave : SaveToText scene3 = Some scene3_text) by reflexivity.
  assert (Hfit : lines_fit scene3_text) by (repeat constructor).
  split; [exact Hreg|]. split; [exact Hok|]. split; [exact Hsave|].
  split; [exact Hfit|].
  exact (SaveToText_LoadFromText scene3 scene3_text Scene_zero Hreg Hok Hsave Hfit).
Defined.

End CodecConcrete.

(* ================================================================== *)
(** ** The history of operations *)
(* ================================================================== *)

Section HistoryFacts.
Context `{G : Geometry}.
Implicit Types (s : Scene) (c : ObjectCollection) (op : sceneOp)
  (sel : ObjectSelection).

Lemma replays_app c ops1 c1 ops2 c2 :
  replays c ops1 c1 -> replays c1 ops2 c2 -> replays c (ops1 ++ ops2) c2.
Proof.
  induction 1 as [|c op c1 ops c3 Hcap Hdo _ IH]; simpl; [done|].
  intros H2. eapply replays_cons; eauto.
Qed.

Lemma replays_snoc_inv c ops op c2 :
  replays c (ops ++ [op]) c2 ->
  exists c1, replays c ops c1 /\ op_captures c1 op /\ sceneOp_do op c1 = Some c2.
Proof.
  revert c. induction ops as [|o ops IH]; intros c H; simpl in H.
  - inversion H as [|? ? c1 ? ? Hcap Hdo Hrest]; subst.
    inversion Hrest; subst. exists c. split; [constructor|done].
  - inversion H as [|? ? c1 ? ? Hcap Hdo Hrest]; subst.
    destruct (IH _ Hrest) as (c3 & Hr & Hc & Hd).
    exists c3. split; [|done]. eapply replays_cons; eauto.
Qed.

Lemma replays_snoc c ops c1 op c2 :
  replays c ops c1 -> op_captures c1 op -> sceneOp_do op c1 = Some c2 ->
  replays c (ops ++ [op]) c2.
Proof.
  intros H Hcap Hdo. eapply replays_app; [exact H|].
  eapply replays_cons; [exact Hcap|exact Hdo|constructor].
Qed.

(** [doSceneOp] keeps the history in step with the collection. *)
Lemma doSceneOp_history_ok s op s' :
  history_ok s -> op_captures (Scene_ObjectCollection s) op ->
  doSceneOp s op = Some s' -> history_ok s'.
Proof.
  intros (Hpos & [c0 Hbefore] & _) Hcap Hdo.
  apply doSceneOp_Some in Hdo as (_ & c' & Hc' & ->).
  unfold history_ok. simpl.
  assert (Hlen : length (take (historyPos s) (history s) ++ [op]) = historyPos s + 1).
  { rewrite length_app, length_take. simpl. lia. }
  split; [lia|]. split.
  - exists c0. rewrite take_ge by lia. eapply replays_snoc; eauto.
  - exists c'. rewrite drop_ge by lia. constructor.
Qed.

(** On a scene whose history is in step, [Undo] returns: it undoes the
    operation before the cursor if there is one, and changes nothing
    otherwise. *)
Lemma Undo_history_ok s :
  history_ok s ->
  exists s' osel,
    Undo s = Some (s', HasUndo s, osel)
    /\ history_ok s'
    /\ history s' = history s
    /\ savedHistoryPos s' = savedHistoryPos s
    /\ wasModified s' = wasModified s
    /\ (HasUndo s = false -> s' = s /\ osel = None)
    /\ (HasUndo s = true ->
        historyPos s' + 1 = historyPos s
        /\ Hovered s' = Object_zero
        /\ exists op newSel,
             history s !! historyPos s' = Some op
             /\ osel = Some newSel
             /\ op_captures (Scene_ObjectCollection s') op
             /\ sceneOp_do op (Scene_ObjectCollection s') = Some (Scene_ObjectCollection s)
             /\ sceneOp_undo op (Scene_ObjectCollection s)
                = Some (Scene_ObjectCollection s', newSel)).
Proof.
  intros Hok. pose proof Hok as (Hpos & [c0 Hbefore] & [c1 Hafter]).
  unfold Undo, HasUndo. case_decide as Hp.
  - rewrite bool_decide_eq_true_2 by done.
    destruct (lookup_lt_is_Some_2 (history s) (historyPos s - 1)) as [op Hop]; [lia|].
    rewrite Hop. simpl.
    assert (HP : historyPos s = S (historyPos s - 1)) by lia.
    rewrite HP in Hbefore at 1. rewrite (take_S_r _ _ _ Hop) in Hbefore.
    apply replays_snoc_inv in Hbefore as (cm & Hr & Hcap & Hdo).
    destruct (sceneOp_undo_do _ _ _ Hcap Hdo) as [newSel Hundo].
    rewrite Hundo. simpl.
    eexists _, _. split; [reflexivity|]. simpl.
    split; [|split; [done|split; [done|split; [done|split; [done|]]]]].
    + unfold history_ok. simpl. split; [lia|]. split; [by exists c0|].
      exists c1. rewrite (drop_S _ _ _ Hop). rewrite <- HP.
      eapply replays_cons; eauto.
    + intros _. split; [lia|]. split; [done|]. exists op, newSel. done.
  - rewrite bool_decide_eq_false_2 by done.
    exists s, None. split; [done|]. split; [done|].
    split; [done|split; [done|split; [done|split; [done|done]]]].
Qed.

(** On a scene whose history is in step, [Redo] returns: it does the
    operation at the cursor again if there is one, and changes nothing
    otherwise. *)
Lemma Redo_history_ok s :
  history_ok s ->
  exists s' osel,
    Redo s = Some (s', HasRedo s, osel)
    /\ history_ok s'
    /\ history s' = history s
    /\ savedHistoryPos s' = savedHistoryPos s
    /\ wasModified s' = wasModified s
    /\ (HasRedo s = false -> s' = s /\ osel = None)
    /\ (HasRedo s = true ->
        historyPos s' = historyPos s + 1
        /\ Hovered s' = Object_zero
        /\ exists op newSel,
             history s !! historyPos s = Some op
             /\ osel = Some newSel
             /\ op_captures (Scene_ObjectCollection s) op
             /\ sceneOp_do op (Scene_ObjectCollection s) = Some (Scene_ObjectCollection s')
             /\ sceneOp_redo op (Scene_ObjectCollection s)
                = Some (Scene_ObjectCollection s', newSel)).
Proof.
  intros Hok. pose proof Hok as (Hpos & [c0 Hbefore] & [c1 Hafter]).
  unfold Redo, HasRedo. case_decide as Hp.
  - rewrite bool_decide_eq_true_2 by done.
    destruct (lookup_lt_is_Some_2 (history s) (historyPos s)) as [op Hop]; [lia|].
    rewrite Hop. simpl.
    rewrite (drop_S _ _ _ Hop) in Hafter.
    inversion Hafter as [|? ? cm ? ? Hcap Hdo Hrest]; subst.
    destruct (sceneOp_redo_do _ _ _ Hdo) as [newSel Hredo].
    rewrite Hredo. simpl.
    eexists _, _. split; [reflexivity|]. simpl.
    split; [|split; [done|split; [done|split; [done|split; [done|]]]]].
    + unfold history_ok. simpl. split; [lia|]. split; [|exists c1].
      * exists c0. replace (historyPos s + 1) with (S (historyPos s)) by lia.
        rewrite (take_S_r _ _ _ Hop). eapply replays_snoc; eauto.
      * by replace (historyPos s + 1) with (S (historyPos s)) by lia.
    + intros _. split; [done|]. split; [done|]. exists op, newSel. done.
  - rewrite bool_decide_eq_false_2 by done.
    exists s, None. split; [done|]. split; [done|].
    split; [done|split; [done|split; [done|split; [done|done]]]].
Qed.

Lemma set_Hovered_history_ok s o : history_ok s -> history_ok (set_Hovered s o).
Proof. done. Qed.

Lemma ResetModified_history_ok s : history_ok s -> history_ok (ResetModified s).
Proof. done. Qed.

Lemma Scene_zero_history_ok : history_ok Scene_zero.
Proof.
  unfold history_ok. simpl. split; [lia|].
  split; exists ObjectCollection_zero; constructor.
Qed.

Lemma mutate_history_ok s (m : mutation) s' :
  history_ok s -> mutation_distinct m -> mutate s m = Some s' -> history_ok s'.
Proof.
  intros Hok Hd Hm. apply mutate_doSceneOp in Hm as (op & Hop & Hdo).
  eapply doSceneOp_history_ok; [exact Hok| |exact Hdo].
  eapply mutation_op_captures; eauto.
Qed.

(** What [Update] does to the scene: it sets the hovered object, then calls
    [Undo], [Redo] or nothing. *)
Lemma Update_cases s selection mousePos isNormal ctrl binding s' osel :
  Update s selection mousePos isNormal ctrl binding = Some (s', osel) ->
  exists o, GetObjectAt s selection mousePos = Some o
    /\ ((s' = set_Hovered s o /\ osel = None)
        \/ (exists ok, Undo (set_Hovered s o) = Some (s', ok, osel))
        \/ (exists ok, Redo (set_Hovered s o) = Some (s', ok, osel))).
Proof.
  unfold Update. destruct (GetObjectAt s selection mousePos) as [o|]; simpl; [|done].
  intros H. exists o. split; [done|].
  destruct (isNormal && ctrl); [|left; by injection H as <- <-].
  destruct binding.
  - destruct (Undo (set_Hovered s o)) as [[[s1 ok] sel1]|]; simpl in H; [|done].
    injection H as <- <-. right. left. by exists ok.
  - destruct (Redo (set_Hovered s o)) as [[[s1 ok] sel1]|]; simpl in H; [|done].
    injection H as <- <-. right. right. by exists ok.
  - left. by injection H as <- <-.
Qed.

(** X3. The history stays in step with the collection: on every scene reached
    from the empty scene by the mutators, [Undo], [Redo], [ResetModified] and
    [Update], the cursor is within the history, the operations before the
    cursor lead, done in order, to the collection of the scene, and those from
    the cursor on can be done again from it. *)
Theorem reachable_history_ok s : reachable s -> history_ok s.
Proof.
  induction 1 as [|s m s' _ IH Hd Hm|s s' ok sel _ IH Hu|s s' ok sel _ IH Hr
                  |s _ IH|s selection mousePos isNormal ctrl binding s' sel _ IH Hup].
  - apply Scene_zero_history_ok.
  - eapply mutate_history_ok; eauto.
  - destruct (Undo_history_ok s IH) as (s1 & o1 & Hu1 & Hok & _).
    rewrite Hu in Hu1. by injection Hu1 as -> _ _.
  - destruct (Redo_history_ok s IH) as (s1 & o1 & Hr1 & Hok & _).
    rewrite Hr in Hr1. by injection Hr1 as -> _ _.
  - by apply ResetModified_history_ok.
  - apply Update_cases in Hup as (o & _ & [[-> _]|[[ok Hu]|[ok Hr]]]).
    + by apply set_Hovered_history_ok.
    + destruct (Undo_history_ok _ (set_Hovered_history_ok s o IH)) as (s1 & o1 & Hu1 & Hok & _).
      rewrite Hu in Hu1. by injection Hu1 as -> _ _.
    + destruct (Redo_history_ok _ (set_Hovered_history_ok s o IH)) as (s1 & o1 & Hr1 & Hok & _).
      rewrite Hr in Hr1. by injection Hr1 as -> _ _.
Qed.

End HistoryFacts.

Section UndoRedoFacts.
Context `{G : Geometry}.
Implicit Types (s : Scene) (c : ObjectCollection) (op : sceneOp)
  (sel : ObjectSelection).

(** X4. On a scene whose history is in step with its collection, [Undo]
    returns (no index is out of range): it tells whether there was an
    operation to undo, as [HasUndo] does, moves the cursor back by one if so,
    never changes the list of operations, and leaves the scene as it is when
    there is nothing to undo. *)
Theorem Undo_returns s :
  history_ok s ->
  exists s' osel,
    Undo s = Some (s', HasUndo s, osel)
    /\ history s' = history s
    /\ historyPos s' + (if HasUndo s then 1 else 0) = historyPos s
    /\ (HasUndo s = false -> s' = s /\ osel = None)
    /\ history_ok s'.
Proof.
  intros Hok.
  destruct (Undo_history_ok s Hok) as (s' & osel & Hu & Hok' & Hh & _ & _ & Hf & Ht).
  exists s', osel. split; [done|]. split; [done|].
  split; [|split; [done|done]].
  destruct (HasUndo s).
  - by destruct Ht as [-> _].
  - destruct Hf as [-> _]; [done|lia].
Qed.

(** X5. On a scene whose history is in step with its collection, [Redo]
    returns: it tells whether there was an operation to do again, as [HasRedo]
    does, moves the cursor forward by one if so, never changes the list of
    operations, and leaves the scene as it is when there is nothing to do
    again. *)
Theorem Redo_returns s :
  history_ok s ->
  exists s' osel,
    Redo s = Some (s', HasRedo s, osel)
    /\ history s' = history s
    /\ historyPos s' = historyPos s + (if HasRedo s then 1 else 0)
    /\ (HasRedo s = false -> s' = s /\ osel = None)
    /\ history_ok s'.
Proof.
  intros Hok.
  destruct (Redo_history_ok s Hok) as (s' & osel & Hr & Hok' & Hh & _ & _ & Hf & Ht).
  exists s', osel. split; [done|]. split; [done|].
  split; [|split; [done|done]].
  destruct (HasRedo s).
  - by destruct Ht as [-> _].
  - destruct Hf as [-> _]; [done|lia].
Qed.

(** X6. Anywhere in the history, [Undo] followed by [Redo] gives back the
    collection, the list of operations, the cursor and the saved position. *)
Theorem Undo_then_Redo s :
  history_ok s -> HasUndo s = true ->
  exists s1 sel1 s2 sel2,
    Undo s = Some (s1, true, Some sel1)
    /\ Redo s1 = Some (s2, true, Some sel2)
    /\ Scene_ObjectCollection s2 = Scene_ObjectCollection s
    /\ history s2 = history s
    /\ historyPos s2 = historyPos s
    /\ savedHistoryPos s2 = savedHistoryPos s.
Proof.
  intros Hok Hhas. pose proof Hok as (Hpos & _).
  destruct (Undo_history_ok s Hok) as (s1 & o1 & Hu & Hok1 & Hh1 & Hs1 & _ & _ & Ht).
  destruct (Ht Hhas) as (Hp1 & _ & op & sel1 & Hop & -> & Hcap & Hdo & _).
  rewrite Hhas in Hu.
  assert (Hredo : HasRedo s1 = true).
  { unfold HasRedo. apply bool_decide_eq_true_2. rewrite Hh1. lia. }
  destruct (Redo_history_ok s1 Hok1) as (s2 & o2 & Hr & _ & Hh2 & Hs2 & _ & _ & Ht2).
  destruct (Ht2 Hredo) as (Hp2 & _ & op' & sel2 & Hop' & -> & _ & Hdo' & _).
  rewrite Hredo in Hr.
  rewrite Hh1, Hop in Hop'. injection Hop' as <-.
  rewrite Hdo in Hdo'. injection Hdo' as Hc.
  exists s1, sel1, s2, sel2. split; [done|]. split; [done|].
  split; [done|]. split; [congruence|]. split; [lia|congruence].
Qed.

(** X7. Anywhere in the history, [Redo] followed by [Undo] gives back the
    collection, the list of operations, the cursor and the saved position. *)
Theorem Redo_then_Undo s :
  history_ok s -> HasRedo s = true ->
  exists s1 sel1 s2 sel2,
    Redo s = Some (s1, true, Some sel1)
    /\ Undo s1 = Some (s2, true, Some sel2)
    /\ Scene_ObjectCollection s2 = Scene_ObjectCollection s
    /\ history s2 = history s
    /\ historyPos s2 = historyPos s
    /\ savedHistoryPos s2 = savedHistoryPos s.
Proof.
  intros Hok Hhas.
  destruct (Redo_history_ok s Hok) as (s1 & o1 & Hr & Hok1 & Hh1 & Hs1 & _ & _ & Ht).
  destruct (Ht Hhas) as (Hp1 & _ & op & sel1 & Hop & -> & Hcap & Hdo & _).
  rewrite Hhas in Hr.
  assert (Hundo : HasUndo s1 = true).
  { unfold HasUndo. apply bool_decide_eq_true_2. lia. }
  destruct (Undo_history_ok s1 Hok1) as (s2 & o2 & Hu & _ & Hh2 & Hs2 & _ & _ & Ht2).
  destruct (Ht2 Hundo) as (Hp2 & _ & op' & sel2 & Hop' & -> & _ & _ & Hun).
  rewrite Hundo in Hu.
  assert (Hp : historyPos s2 = historyPos s) by lia.
  rewrite Hh1, Hp, Hop in Hop'. injection Hop' as <-.
  destruct (sceneOp_undo_do _ _ _ Hcap Hdo) as [sel' Hun'].
  rewrite Hun' in Hun. injection Hun as Hc _.
  exists s1, sel1, s2, sel2. split; [done|]. split; [done|].
  split; [done|]. split; [congruence|]. split; [done|congruence].
Qed.

(** X8. The saved position: right after [ResetModified] the scene is not
    modified; a mutation makes it modified; undoing that mutation makes it
    unmodified again. *)
Theorem IsModified_after_ResetModified s (m : mutation) s1 :
  mutation_distinct m ->
  mutate (ResetModified s) m = Some s1 ->
  IsModified (ResetModified s) = false
  /\ IsModified s1 = true
  /\ exists s2 osel, Undo s1 = Some (s2, true, osel) /\ IsModified s2 = false.
Proof.
  intros Hd Hm.
  apply mutate_doSceneOp in Hm as (op & Hop & Hdo).
  pose proof (mutation_op_captures _ _ _ Hd Hop) as Hcap.
  destruct (Undo_doSceneOp _ _ _ Hcap Hdo) as (newSel & Hu & _).
  apply doSceneOp_Some in Hdo as (_ & c' & _ & ->).
  unfold IsModified. simpl in *.
  split; [by rewrite bool_decide_eq_true_2|].
  split; [rewrite bool_decide_eq_false_2; [done|lia]|].
  eexists _, _. split; [exact Hu|]. simpl. by rewrite bool_decide_eq_true_2.
Qed.

(** X9. [IsModified] compares the cursor with the saved position and nothing
    else: from an unmodified scene, one [Undo] and then any mutation bring the
    cursor back to the saved position, and the scene counts as unmodified,
    whatever the mutation put in the collection. *)
Theorem IsModified_after_Undo_and_mutation s s1 osel (m : mutation) s2 :
  IsModified s = false ->
  Undo s = Some (s1, true, osel) ->
  mutate s1 m = Some s2 ->
  IsModified s2 = false.
Proof.
  unfold IsModified. intros Hsaved Hu Hm.
  apply negb_false_iff, bool_decide_eq_true_1 in Hsaved.
  unfold Undo in Hu. case_decide as Hp; [|done].
  destruct (history s !! _) as [op|]; simpl in Hu; [|done].
  destruct (sceneOp_undo op _) as [[c newSel]|]; simpl in Hu; [|done].
  injection Hu as <- _.
  apply mutate_doSceneOp in Hm as (op' & _ & Hdo).
  apply doSceneOp_Some in Hdo as (_ & c' & _ & ->). simpl.
  apply negb_false_iff, bool_decide_eq_true_2. lia.
Qed.

(** C10. After a successful [doSceneOp] (so after every mutator), and after
    every [Undo] or [Redo] that did something, [Hovered] is [Object{}],
    whatever it was before.  These calls do succeed: on a scene whose history
    is in step with its collection an addition returns, [Undo] undoes
    something whenever [HasUndo] holds, and [Redo] does something again
    whenever [HasRedo] holds. *)
Theorem Hovered_reset :
  (forall s op s', doSceneOp s op = Some s' -> Hovered s' = Object_zero)
  /\ (forall s (m : mutation) s', mutate s m = Some s' -> Hovered s' = Object_zero)
  /\ (forall s s' newSel, Undo s = Some (s', true, newSel) -> Hovered s' = Object_zero)
  /\ (forall s s' newSel, Redo s = Some (s', true, newSel) -> Hovered s' = Object_zero)
  /\ (forall s col, history_ok s ->
        exists s', AddObjects s col = Some s' /\ Hovered s' = Object_zero)
  /\ (forall s, history_ok s -> HasUndo s = true ->
        exists s' newSel,
          Undo s = Some (s', true, Some newSel) /\ Hovered s' = Object_zero)
  /\ (forall s, history_ok s -> HasRedo s = true ->
        exists s' newSel,
          Redo s = Some (s', true, Some newSel) /\ Hovered s' = Object_zero).
Proof.
  assert (Hdo : forall s op s', doSceneOp s op = Some s' -> Hovered s' = Object_zero).
  { intros s op s' H. apply doSceneOp_Some in H as (_ & c' & _ & ->). done. }
  split; [exact Hdo|]. split; [|split; [|split; [|split; [|split]]]].
  - intros s m s' Hm. apply mutate_doSceneOp in Hm as (op & _ & H). eauto.
  - intros s s' newSel. unfold Undo. case_decide; [|done].
    destruct (history s !! _) as [op|]; simpl; [|done].
    destruct (sceneOp_undo op _) as [[c sel']|]; simpl; [|done].
    intros [= <- _]. done.
  - intros s s' newSel. unfold Redo. case_decide; [|done].
    destruct (history s !! _) as [op|]; simpl; [|done].
    destruct (sceneOp_redo op _) as [[c sel']|]; simpl; [|done].
    intros [= <- _]. done.
  - intros s col (Hpos & _).
    assert (H : exists s', AddObjects s col = Some s').
    { unfold AddObjects, doSceneOp, trim_history. rewrite decide_True by done.
      simpl. eauto. }
    destruct H as [s' H]. exists s'. split; [exact H|]. by eapply Hdo.
  - intros s Hok Hhas.
    destruct (Undo_history_ok s Hok) as (s' & osel & Hu & _ & _ & _ & _ & _ & Ht).
    destruct (Ht Hhas) as (_ & Hhov & op & newSel & _ & -> & _).
    rewrite Hhas in Hu. by exists s', newSel.
  - intros s Hok Hhas.
    destruct (Redo_history_ok s Hok) as (s' & osel & Hr & _ & _ & _ & _ & _ & Ht).
    destruct (Ht Hhas) as (_ & Hhov & op & newSel & _ & -> & _).
    rewrite Hhas in Hr. by exists s', newSel.
Qed.

End UndoRedoFacts.

(* ================================================================== *)
(** ** The object under the mouse *)
(* ================================================================== *)

Section ContainsFacts.
Context `{G : Geometry}.
Implicit Types (s : Scene) (c : ObjectCollection) (o : Object).

Lemma scan_down_Some {A} n (body : nat -> option (option A)) a :
  scan_down n body = Some (Some a) -> exists i, i < n /\ body i = Some (Some a).
Proof.
  induction n as [|n IH]; simpl; [done|].
  destruct (body n) as [[b|]|] eqn:E; simpl; [| |done].
  - intros [= <-]. exists n. split; [lia|done].
  - intros H. destruct (IH H) as (i & Hi & Hb). exists i. split; [lia|done].
Qed.

Lemma scan_down_None {A} n (body : nat -> option (option A)) :
  scan_down n body = Some None -> forall i, i < n -> body i = Some None.
Proof.
  induction n as [|n IH]; simpl; [intros; lia|].
  destruct (body n) as [[b|]|] eqn:E; simpl; [done| |done].
  intros H i Hi. destruct (decide (i = n)) as [->|]; [done|]. apply IH; [done|lia].
Qed.

Lemma or_else_Some {A} (x y : option (option A)) r :
  or_else x y = Some r ->
  (exists a, x = Some (Some a) /\ r = Some a) \/ (x = Some None /\ y = Some r).
Proof.
  unfold or_else. destruct x as [[a|]|]; simpl; [| |done].
  - intros [= <-]. left. eauto.
  - intros ->. right. done.
Qed.

Lemma path_at_Some c start end_ idx p pos o :
  Paths c !! idx = Some p -> path_at start end_ idx p pos = Some o ->
  Object_contains c o pos.
Proof.
  unfold path_at. intros Hp.
  destruct (start && Path_CheckStartCollisionPoint p pos) eqn:E1.
  { intros [= <-]. apply andb_true_iff in E1 as [_ E1]. unfold Object_contains; simpl; eauto. }
  destruct (end_ && Path_CheckEndCollisionPoint p pos) eqn:E2.
  { intros [= <-]. apply andb_true_iff in E2 as [_ E2]. unfold Object_contains; simpl; eauto. }
  destruct (Path_CheckCollisionPoint p pos) eqn:E3; [|done].
  intros [= <-]. unfold Object_contains; simpl; eauto.
Qed.

Lemma path_at_None idx p pos :
  path_at true true idx p pos = None ->
  Path_CheckStartCollisionPoint p pos = false
  /\ Path_CheckEndCollisionPoint p pos = false
  /\ Path_CheckCollisionPoint p pos = false.
Proof.
  unfold path_at. simpl.
  destruct (Path_CheckStartCollisionPoint p pos); [done|].
  destruct (Path_CheckEndCollisionPoint p pos); [done|].
  by destruct (Path_CheckCollisionPoint p pos).
Qed.

Lemma Object_contains_valid c o pos : Object_contains c o pos -> Object_valid c o.
Proof.
  unfold Object_contains, Object_valid.
  destruct (Object_Type o); [done|..]; intros (x & Hx & _);
    by apply lookup_lt_Some in Hx.
Qed.

(** The result of [GetObjectAt], loop by loop. *)
Lemma GetObjectAt_Some s selection pos o :
  GetObjectAt s selection pos = Some o ->
  Object_contains (Scene_ObjectCollection s) o pos
  \/ (o = Object_zero
      /\ forall o', ~ Object_contains (Scene_ObjectCollection s) o' pos).
Proof.
  unfold GetObjectAt. set (c := Scene_ObjectCollection s).
  destruct (or_else _ _) as [r|] eqn:E; simpl; [|done]. intros [= <-].
  apply or_else_Some in E as [(a & H1 & ->)|[_ E]].
  { left. apply scan_down_Some in H1 as (i & _ & Hb). simpl.
    destruct (PathIdxs selection !! i) as [elt|]; simpl in Hb; [|done].
    destruct (Paths c !! PathSel_Idx elt) as [p|] eqn:Hp; simpl in Hb; [|done].
    injection Hb as Hb. eapply path_at_Some; eauto. }
  apply or_else_Some in E as [(a & H2 & ->)|[_ E]].
  { left. apply scan_down_Some in H2 as (i & _ & Hb). simpl.
    destruct (BuildingIdxs selection !! i) as [idx|]; simpl in Hb; [|done].
    destruct (Buildings c !! idx) as [b|] eqn:Hl; simpl in Hb; [|done].
    destruct (Rectangle_CheckCollisionPoint _ pos) eqn:Hc; [|done].
    injection Hb as <-. unfold Object_contains; simpl; eauto. }
  apply or_else_Some in E as [(a & H3 & ->)|[_ E]].
  { left. apply scan_down_Some in H3 as (i & _ & Hb). simpl.
    destruct (TextBoxIdxs selection !! i) as [idx|]; simpl in Hb; [|done].
    destruct (TextBoxes c !! idx) as [tb|] eqn:Hl; simpl in Hb; [|done].
    destruct (Rectangle_CheckCollisionPoint _ pos) eqn:Hc; [|done].
    injection Hb as <-. unfold Object_contains; simpl; eauto. }
  apply or_else_Some in E as [(a & H4 & ->)|[H4 E]].
  { left. apply scan_down_Some in H4 as (i & _ & Hb). simpl.
    destruct (Paths c !! i) as [p|] eqn:Hp; simpl in Hb; [|done].
    injection Hb as Hb. eapply path_at_Some; eauto. }
  apply or_else_Some in E as [(a & H5 & ->)|[H5 H6]].
  { left. apply scan_down_Some in H5 as (i & _ & Hb). simpl.
    destruct (Buildings c !! i) as [b|] eqn:Hl; simpl in Hb; [|done].
    destruct (Rectangle_CheckCollisionPoint _ pos) eqn:Hc; [|done].
    injection Hb as <-. unfold Object_contains; simpl; eauto. }
  destruct r as [a|].
  { left. apply scan_down_Some in H6 as (i & _ & Hb). simpl.
    destruct (TextBoxes c !! i) as [tb|] eqn:Hl; simpl in Hb; [|done].
    destruct (Rectangle_CheckCollisionPoint _ pos) eqn:Hc; [|done].
    injection Hb as <-. unfold Object_contains; simpl; eauto. }
  right. split; [done|]. intros [ty idx]. unfold Object_contains. simpl.
  assert (Hpaths : forall p, Paths c !! idx = Some p ->
            Path_CheckStartCollisionPoint p pos = false
            /\ Path_CheckEndCollisionPoint p pos = false
            /\ Path_CheckCollisionPoint p pos = false).
  { intros p Hp. pose proof (scan_down_None _ _ H4 idx (lookup_lt_Some _ _ _ Hp)) as Hb.
    simpl in Hb. rewrite Hp in Hb. simpl in Hb. injection Hb as Hb.
    by apply path_at_None in Hb. }
  destruct ty; simpl.
  - intros [].
  - intros (p & Hp & Hc). destruct (Hpaths p Hp) as (? & ? & ?). congruence.
  - intros (p & Hp & Hc). destruct (Hpaths p Hp) as (? & ? & ?). congruence.
  - intros (p & Hp & Hc). destruct (Hpaths p Hp) as (? & ? & ?). congruence.
  - intros (b & Hl & Hc).
    pose proof (scan_down_None _ _ H5 idx (lookup_lt_Some _ _ _ Hl)) as Hb.
    simpl in Hb. rewrite Hl in Hb. simpl in Hb. rewrite Hc in Hb. done.
  - intros (tb & Hl & Hc).
    pose proof (scan_down_None _ _ H6 idx (lookup_lt_Some _ _ _ Hl)) as Hb.
    simpl in Hb. rewrite Hl in Hb. simpl in Hb. rewrite Hc in Hb. done.
Qed.

(** X10. When [GetObjectAt] returns, it never names an object that is not
    there or that does not contain the point: either the reference it returns
    names an object of the collection that contains the point, in the zone the
    kind of the reference tells, or it is [Object{}] and no object of the
    collection contains the point. *)
Theorem GetObjectAt_contains s selection pos o :
  GetObjectAt s selection pos = Some o ->
  (Object_valid (Scene_ObjectCollection s) o
   /\ Object_contains (Scene_ObjectCollection s) o pos)
  \/ (o = Object_zero
      /\ forall o', ~ Object_contains (Scene_ObjectCollection s) o' pos).
Proof.
  intros H. apply GetObjectAt_Some in H as [H|H]; [left|by right].
  split; [|done]. by eapply Object_contains_valid.
Qed.

Lemma Undo_Hovered s s' ok osel :
  Undo s = Some (s', ok, osel) -> s' = s \/ Hovered s' = Object_zero.
Proof.
  unfold Undo. case_decide; [|intros [= <-]; by left].
  destruct (history s !! _) as [op|]; simpl; [|done].
  destruct (sceneOp_undo op _) as [[c sel']|]; simpl; [|done].
  intros [= <- _]. by right.
Qed.

Lemma Redo_Hovered s s' ok osel :
  Redo s = Some (s', ok, osel) -> s' = s \/ Hovered s' = Object_zero.
Proof.
  unfold Redo. case_decide; [|intros [= <-]; by left].
  destruct (history s !! _) as [op|]; simpl; [|done].
  destruct (sceneOp_redo op _) as [[c sel']|]; simpl; [|done].
  intros [= <- _]. by right.
Qed.

Lemma Object_zero_valid c : Object_valid c Object_zero.
Proof. done. Qed.

(** X11. The hovered object is never a dangling reference: on every scene
    reached from the empty scene by the mutators, [Undo], [Redo],
    [ResetModified] and [Update], [Hovered] is [Object{}] or names an object
    of the collection.  (The mutators, [Undo] and [Redo] reset it; [Update]
    sets it to what [GetObjectAt] finds.) *)
Theorem reachable_Hovered_valid s :
  reachable s -> Object_valid (Scene_ObjectCollection s) (Hovered s).
Proof.
  induction 1 as [|s m s' _ IH Hd Hm|s s' ok sel _ IH Hu|s s' ok sel _ IH Hr
                  |s _ IH|s selection mousePos isNormal ctrl binding s' sel _ IH Hup].
  - done.
  - apply mutate_doSceneOp in Hm as (op & _ & Hdo).
    apply doSceneOp_Some in Hdo as (_ & c' & _ & ->). done.
  - apply Undo_Hovered in Hu as [->| ->]; done.
  - apply Redo_Hovered in Hr as [->| ->]; done.
  - done.
  - apply Update_cases in Hup as (o & Hget & Hcases).
    assert (Hv : Object_valid (Scene_ObjectCollection (set_Hovered s o))
                   (Hovered (set_Hovered s o))).
    { simpl. apply GetObjectAt_Some in Hget as [Hc| [-> _]]; [|done].
      by eapply Object_contains_valid. }
    destruct Hcases as [[-> _]|[[ok Hu]|[ok Hr]]].
    + done.
    + apply Undo_Hovered in Hu as [->| ->]; done.
    + apply Redo_Hovered in Hr as [->| ->]; done.
Qed.

End ContainsFacts.

(* ================================================================== *)
(** ** Validity of a building *)
(* ================================================================== *)

Section ValidFacts.
Context `{G : Geometry} {C : Collision}.

Lemma IsBuildingValid_from_true i buildings bounds ignore :
  IsBuildingValid_from i buildings bounds ignore = true <->
  forall j b, buildings !! j = Some b -> Z.of_nat (i + j) <> ignore ->
    Rectangle_CheckCollisionRec (Building_Bounds b) bounds = false.
Proof.
  revert i. induction buildings as [|b0 buildings IH]; intros i; simpl.
  { split; [intros _ j b Hl; done|done]. }
  assert (Hshift : (forall j b, buildings !! j = Some b -> Z.of_nat (S i + j) <> ignore ->
                      Rectangle_CheckCollisionRec (Building_Bounds b) bounds = false)
                   <-> (forall j b, (b0 :: buildings) !! S j = Some b ->
                          Z.of_nat (i + S j) <> ignore ->
                          Rectangle_CheckCollisionRec (Building_Bounds b) bounds = false)).
  { split; intros H j b Hl Hne; apply (H j b); [exact Hl| |exact Hl|].
    - by replace (S i + j) with (i + S j) by lia.
    - by replace (i + S j) with (S i + j) by lia. }
  destruct (Z.eqb_spec (Z.of_nat i) ignore) as [Heq|Hne].
  - rewrite IH, Hshift. split.
    + intros H [|j] b Hl Hn; [|by apply (H j b)].
      exfalso. apply Hn. by replace (i + 0) with i by lia.
    + intros H j b Hl Hn. by apply (H (S j) b).
  - destruct (Rectangle_CheckCollisionRec (Building_Bounds b0) bounds) eqn:Hc.
    + split; [done|]. intros H.
      rewrite (H 0 b0) in Hc; [done|done|]. by replace (i + 0) with i by lia.
    + rewrite IH, Hshift. split.
      * intros H [|j] b Hl Hn; [|by apply (H j b)]. by injection Hl as <-.
      * intros H j b Hl Hn. by apply (H (S j) b).
Qed.

(** X12. [IsBuildingValid] answers true exactly when no building of the
    scene, the one at index [ignore] apart, has bounds that collide with the
    bounds of the building given; with an [ignore] that is no index (-1, say)
    every building of the scene counts. *)
Theorem IsBuildingValid_true s building ignore :
  IsBuildingValid s building ignore = true <->
  forall j b, Buildings (Scene_ObjectCollection s) !! j = Some b ->
    Z.of_nat j <> ignore ->
    Rectangle_CheckCollisionRec (Building_Bounds b) (Building_Bounds building) = false.
Proof. unfold IsBuildingValid. by rewrite IsBuildingValid_from_true. Qed.

End ValidFacts.

(* ================================================================== *)
(** ** What a text decodes to *)
(* ================================================================== *)

Ltac solve_elem :=
  repeat first [apply list_elem_of_here | apply list_elem_of_further].

Section DecodeFacts.
Context `{TF : TextFormat} `{R : Registry}.
Import Text.
Implicit Types (c : ObjectCollection) (s : Scene).

Lemma decoded_lines_blank lines : decoded_lines (EmptyString :: lines) = decoded_lines lines.
Proof. unfold decoded_lines. by rewrite filter_cons_False by (intros H; by apply H). Qed.

Lemma decoded_lines_cons line lines :
  line <> EmptyString ->
  decoded_lines (line :: lines) = decode_line line :: decoded_lines lines.
Proof. intros Hne. unfold decoded_lines. by rewrite filter_cons_True by done. Qed.

Lemma decoded_lines_app pre post :
  decoded_lines (pre ++ post) = decoded_lines pre ++ decoded_lines post.
Proof. unfold decoded_lines. by rewrite filter_app, fmap_app. Qed.

Lemma ObjectCollection_append_nil c :
  ObjectCollection_append c (decoded_objects []) = c.
Proof. destruct c. unfold ObjectCollection_append. simpl. by rewrite !app_nil_r. Qed.

(** One more object decoded is one more object appended. *)
Lemma ObjectCollection_append_cons c d ds :
  decode_failed d = false ->
  ObjectCollection_append c (decoded_objects (d :: ds))
  = ObjectCollection_append
      match d with
      | DecodedTextBox tb =>
          mkObjectCollection (Paths c) (Buildings c) (TextBoxes c ++ [tb])
      | DecodedPath p =>
          mkObjectCollection (Paths c ++ [p]) (Buildings c) (TextBoxes c)
      | DecodedBuilding b =>
          mkObjectCollection (Paths c) (Buildings c ++ [b]) (TextBoxes c)
      | DecodeFailed _ _ => c
      end (decoded_objects ds).
Proof.
  unfold ObjectCollection_append, decoded_objects.
  destruct d; simpl; [| | |done]; intros _; by rewrite <- app_assoc.
Qed.

(** The loop of [decodeText], in terms of the lines it is given: it stops at
    the first line that is refused, with the objects of the lines before. *)
Lemma decodeText_lines_result lines ver no c :
  match decodeText_lines lines ver no c with
  | (c', None) =>
      Forall (fun d => decode_failed d = false) (decoded_lines lines)
      /\ c' = ObjectCollection_append c (decoded_objects (decoded_lines lines))
  | (c', Some e) =>
      exists pre line post,
        lines = pre ++ line :: post
        /\ line <> EmptyString
        /\ Forall (fun d => decode_failed d = false) (decoded_lines pre)
        /\ decode_line line = DecodeFailed (Msg e) (Err e)
        /\ Line e = no + length (decoded_lines pre)
        /\ Version e = ver
        /\ c' = ObjectCollection_append c (decoded_objects (decoded_lines pre))
  end.
Proof.
  revert no c. induction lines as [|line lines IH]; intros no c.
  { simpl. split; [constructor|]. by rewrite ObjectCollection_append_nil. }
  simpl. destruct (String.eqb line EmptyString) eqn:E.
  - apply String.eqb_eq in E. subst line. specialize (IH no c).
    destruct (decodeText_lines lines ver no c) as [c' [e|]].
    + destruct IH as (pre & l & post & -> & Hne & Hok & Hd & Hl & Hv & Hc).
      exists (EmptyString :: pre), l, post. by rewrite decoded_lines_blank.
    + by rewrite decoded_lines_blank.
  - apply String.eqb_neq in E. rewrite decoded_lines_cons by done.
    destruct (decode_line line) as [tb|p|b|msg err] eqn:Hdec.
    1-3: match goal with
         | |- match decodeText_lines _ _ _ ?c1 with _ => _ end =>
             specialize (IH (no + 1) c1);
             destruct (decodeText_lines lines ver (no + 1) c1) as [c' [e|]]
         end;
         [ destruct IH as (pre & l & post & -> & Hne & Hok & Hd & Hl & Hv & Hc);
           exists (line :: pre), l, post;
           rewrite decoded_lines_cons, Hdec by done;
           rewrite ObjectCollection_append_cons by done;
           repeat split; try done; [by constructor|simpl; lia]
         | destruct IH as [Hok Hc];
           rewrite ObjectCollection_append_cons by done;
           split; [by constructor|done] ].
    exists [], line, lines. change (decoded_lines []) with (@nil decoded).
    rewrite ObjectCollection_append_nil. simpl.
    split; [done|]. split; [done|]. split; [constructor|].
    split; [done|]. split; [lia|done].
Qed.

(** X13. The loop of [decodeText] returns no error exactly when none of the
    non-blank lines is refused; the collection is then the one it was given
    with the decoded paths, buildings and text boxes appended, each kind in
    the order of the lines: blank lines and the order of lines of different
    kinds do not matter. *)
Theorem decodeText_lines_objects lines ver no c c' :
  decodeText_lines lines ver no c = (c', None)
  <-> Forall (fun d => decode_failed d = false) (decoded_lines lines)
      /\ c' = ObjectCollection_append c (decoded_objects (decoded_lines lines)).
Proof.
  pose proof (decodeText_lines_result lines ver no c) as H.
  destruct (decodeText_lines lines ver no c) as [c1 [e|]].
  - destruct H as (pre & l & post & -> & Hne & _ & Hd & _).
    split; [done|]. intros [Hok _]. exfalso.
    rewrite decoded_lines_app, decoded_lines_cons in Hok by done.
    apply Forall_app in Hok as [_ Hok]. apply Forall_cons in Hok as [Hok _].
    by rewrite Hd in Hok.
  - destruct H as [Hok ->]. split; [by intros [= <-]|].
    intros [_ ->]. done.
Qed.

(** X14. [decodeText] does not undo what it has done when it stops on an
    error: the objects of the lines before the line that is refused stay
    appended to the collection of the scene. *)
Theorem decodeText_partial lines ver s s' err :
  decodeText lines ver s = (s', Some err) ->
  exists e pre line post,
    err = DecodeError e
    /\ lines = pre ++ line :: post
    /\ decode_line line = DecodeFailed (Msg e) (Err e)
    /\ Forall (fun d => decode_failed d = false) (decoded_lines pre)
    /\ Scene_ObjectCollection s'
       = ObjectCollection_append (Scene_ObjectCollection s)
           (decoded_objects (decoded_lines pre)).
Proof.
  unfold decodeText.
  pose proof (decodeText_lines_result lines ver 2 (Scene_ObjectCollection s)) as H.
  destruct (decodeText_lines lines ver 2 (Scene_ObjectCollection s)) as [c1 [e|]];
    simpl; [|done].
  intros [= <- <-].
  destruct H as (pre & l & post & -> & Hne & Hok & Hd & _ & _ & ->).
  exists e, pre, l, post. done.
Qed.

(** The messages of a line that is refused. *)
Lemma decode_line_messages line msg err :
  decode_line line = DecodeFailed msg err -> msg ∈ line_messages.
Proof.
  unfold decode_line, line_messages. destruct (Cut line) as [class fields].
  destruct (String.eqb class textboxClass).
  { destruct (decode_textbox fields); [done|]. intros [= <- _]. solve_elem. }
  destruct (0 <=? Index pathDefs class)%Z.
  { destruct (Sscanf_path fields) as [[a b]|e]; [done|]. intros [= <- _]. solve_elem. }
  destruct (0 <=? Index buildingDefs class)%Z.
  { destruct (Sscanf_building fields) as [[a b]|e]; [done|]. intros [= <- _]. solve_elem. }
  intros [= <- _]. solve_elem.
Qed.

Lemma prefix_append_l c c' :
  Paths c `prefix_of` Paths (ObjectCollection_append c c')
  /\ Buildings c `prefix_of` Buildings (ObjectCollection_append c c')
  /\ TextBoxes c `prefix_of` TextBoxes (ObjectCollection_append c c').
Proof. simpl. repeat split; apply prefix_app_r; done. Qed.

Lemma decodeText_lines_prefix lines ver no c :
  exists c', (decodeText_lines lines ver no c).1 = ObjectCollection_append c c'.
Proof.
  pose proof (decodeText_lines_result lines ver no c) as H.
  destruct (decodeText_lines lines ver no c) as [c1 [e|]]; simpl.
  - destruct H as (pre & l & post & _ & _ & _ & _ & _ & _ & ->). eauto.
  - destruct H as [_ ->]. eauto.
Qed.

(** X15. [LoadFromText] adds to the scene and touches nothing else, whatever
    the text and whether it returns an error or not: the paths, buildings and
    text boxes the scene had stay where they were, at the head of their
    sequences; the history, its cursor, the saved position and the hovered
    object are as before (the collection is not emptied first, and the objects
    loaded are no operation of the history). *)
Theorem LoadFromText_keeps input s :
  let s' := (LoadFromText input s).1 in
  (exists c', Scene_ObjectCollection s'
              = ObjectCollection_append (Scene_ObjectCollection s) c')
  /\ history s' = history s
  /\ historyPos s' = historyPos s
  /\ savedHistoryPos s' = savedHistoryPos s
  /\ Hovered s' = Hovered s
  /\ wasModified s' = wasModified s.
Proof.
  assert (Hsame : exists c', Scene_ObjectCollection s
                    = ObjectCollection_append (Scene_ObjectCollection s) c').
  { exists ObjectCollection_zero. destruct (Scene_ObjectCollection s).
    unfold ObjectCollection_append. simpl. by rewrite !app_nil_r. }
  unfold LoadFromText. destruct (ScanLines input) as [tokens scanErr].
  destruct tokens as [|line lines]; [by destruct scanErr|].
  destruct (String.eqb line EmptyString); [done|].
  destruct (Sscanf_version line) as [ver|e]; [|done].
  destruct (ver <? 0)%Z; [done|]. destruct (ver =? 0)%Z; [|done].
  unfold decodeText.
  destruct (decodeText_lines_prefix lines ver 2 (Scene_ObjectCollection s)) as [c' Hc'].
  destruct (decodeText_lines lines ver 2 (Scene_ObjectCollection s)) as [c1 e].
  simpl in *. split; [by exists c'|done].
Qed.

(** X16. The line numbers of the errors of [LoadFromText]: line 0 is the
    error of an empty text or of a blank first line; line 1 is an error of the
    header; in both cases the scene is as it was.  Every other error is an
    error of a line of objects: its line number is 2 at least, its version is
    0 and its message is one of the four messages of the lines. *)
Theorem LoadFromText_error_lines input s s' e :
  LoadFromText input s = (s', Some (DecodeError e)) ->
  (Line e = 0 /\ Msg e = msgEmpty /\ s' = s)
  \/ (Line e = 1 /\ Msg e ∈ header_messages /\ s' = s)
  \/ (2 <= Line e /\ Msg e ∈ line_messages /\ Version e = 0%Z).
Proof.
  unfold LoadFromText. destruct (ScanLines input) as [tokens scanErr].
  destruct tokens as [|line lines].
  { destruct scanErr; [done|]. intros [= <- <-]. left. done. }
  destruct (String.eqb line EmptyString).
  { intros [= <- <-]. left. done. }
  unfold header_messages.
  destruct (Sscanf_version line) as [ver|err].
  2: { intros [= <- <-]. right. left. simpl. split; [done|]. split; [solve_elem|done]. }
  destruct (ver <? 0)%Z.
  { intros [= <- <-]. right. left. simpl. split; [done|]. split; [solve_elem|done]. }
  destruct (ver =? 0)%Z eqn:Hver.
  2: { intros [= <- <-]. right. left. simpl. split; [done|]. split; [solve_elem|done]. }
  apply Z.eqb_eq in Hver. subst ver. unfold decodeText.
  pose proof (decodeText_lines_result lines 0 2 (Scene_ObjectCollection s)) as H.
  destruct (decodeText_lines lines 0 2 (Scene_ObjectCollection s)) as [c1 [e1|]];
    simpl; [|done].
  intros [= <- <-]. right. right.
  destruct H as (pre & l & post & _ & _ & _ & Hd & Hl & Hv & _).
  split; [lia|]. split; [|done]. by eapply decode_line_messages.
Qed.

End DecodeFacts.

(* ================================================================== *)
(** ** The first line of a text *)
(* ================================================================== *)

Section HeaderFacts.
Context `{TF : TextFormat} `{R : Registry}.
Import Text.

(** [Sscanf] reads the version and does not look at what follows it. *)
Lemma Sscanf_version_tail v tail :
  (minInt64 <= v <= maxInt64)%Z ->
  number_ends tail ->
  Sscanf_version ("#VERSION=" +:+ formatInt v +:+ tail) = Ok v.
Proof.
  intros Hv Htail. unfold Sscanf_version.
  change (literal "#VERSION=" ("#VERSION=" +:+ formatInt v +:+ tail))
    with (Ok (formatInt v +:+ tail) : result string).
  simpl mbind. unfold mbind, result_bind.
  destruct (formatInt_not_space v) as (c & t & Hf & Hp).
  assert (Hskip : SkipSpace (formatInt v +:+ tail) = Ok (formatInt v +:+ tail)).
  { rewrite Hf. by apply SkipSpace_nonspace. }
  by rewrite Hskip, scanInt_formatInt.
Qed.

(** X17. The header, for every version an [int] holds, written in decimal
    after [#VERSION=] and followed by anything that is not a digit: a negative
    version is refused as an invalid version number at line 1, a version above
    0 as too high, with that version, at line 1, both without a change to the
    scene; version 0 hands the remaining lines to [decodeText]. *)
Theorem LoadFromText_header input v tail s :
  head (ScanLines input).1 = Some ("#VERSION=" +:+ formatInt v +:+ tail) ->
  number_ends tail ->
  (minInt64 <= v <= maxInt64)%Z ->
  LoadFromText input s =
    if (v <? 0)%Z
    then (s, Some (DecodeError (mkDecodeTextError msgInvalidVersionNumber None 1 0)))
    else if (v =? 0)%Z then decodeText (List.tail (ScanLines input).1) 0 s
    else (s, Some (DecodeError (mkDecodeTextError msgVersionTooHigh None 1 v))).
Proof.
  intros Hhead Htail Hv.
  rewrite (LoadFromText_first_line _ _ _ Hhead) by done.
  rewrite Sscanf_version_tail by done.
  destruct (v <? 0)%Z; [done|].
  destruct (v =? 0)%Z eqn:E; [|done]. by apply Z.eqb_eq in E as ->.
Qed.

Lemma scan_tokens_blank segs :
  segs <> [] -> exists ts e, scan_tokens (EmptyString :: segs) = (EmptyString :: ts, e).
Proof.
  intros Hne. destruct (scan_tokens_cons EmptyString segs Hne) as (ts & e & Hs); [done|].
  eauto.
Qed.

Lemma scan_tokens_CR segs :
  segs <> [] ->
  exists ts e, scan_tokens (String CR EmptyString :: segs) = (EmptyString :: ts, e).
Proof.
  intros Hne.
  destruct (scan_tokens_cons (String CR EmptyString) segs Hne) as (ts & e & Hs); [done|].
  eauto.
Qed.

(** X18. A text that is empty, or whose first line is blank (a newline, or a
    carriage return and a newline), is refused as an empty file, at line 0 and
    without a change to the scene, whatever follows the first line. *)
Theorem LoadFromText_blank_first_line rest s :
  let empty := (s, Some (DecodeError (mkDecodeTextError msgEmpty None 0 0))) in
  LoadFromText EmptyString s = empty
  /\ LoadFromText (String LF rest) s = empty
  /\ LoadFromText (String CR (String LF rest)) s = empty.
Proof.
  intros empty. split; [reflexivity|]. split.
  - unfold LoadFromText, ScanLines.
    change (split_newlines (String LF rest)) with (EmptyString :: split_newlines rest).
    destruct (scan_tokens_blank (split_newlines rest)) as (ts & e & ->);
      [apply split_newlines_nonempty|]. done.
  - unfold LoadFromText, ScanLines.
    assert (Hsplit : split_newlines (String CR (String LF rest))
                     = String CR EmptyString :: split_newlines rest) by reflexivity.
    rewrite Hsplit.
    destruct (scan_tokens_CR (split_newlines rest)) as (ts & e & ->);
      [apply split_newlines_nonempty|]. done.
Qed.

End HeaderFacts.

(* ================================================================== *)
(** ** What a modification and an addition write *)
(* ================================================================== *)

Section WriteFacts.
Context {T : Type}.

Lemma assign_each_written (idxs : list nat) (vals s s' : list T) :
  NoDup idxs ->
  assign_each s idxs vals = Some s' ->
  forall i idx, idxs !! i = Some idx -> s' !! idx = vals !! i /\ is_Some (vals !! i).
Proof.
  revert vals s. induction idxs as [|i0 idxs IH]; intros vals s Hnd; simpl.
  { intros _ i idx Hi. done. }
  destruct vals as [|v vals]; [done|].
  case_decide as Hlt; [|done]. intros Hs'.
  apply NoDup_cons in Hnd as [Hnotin Hnd].
  intros [|i] idx Hi; simpl in Hi.
  - injection Hi as <-.
    apply assign_each_frame in Hs' as [_ Hframe].
    rewrite (Hframe i0 Hnotin), list_lookup_insert_eq by done. simpl. eauto.
  - exact (IH vals _ Hnd Hs' i idx Hi).
Qed.

Lemma assign_each_assigned (idxs : list nat) (vals s s' : list T) :
  assign_each s idxs vals = Some s' -> assigned s s' idxs vals.
Proof.
  intros H. pose proof (assign_each_frame _ _ _ _ H) as [Hlen Hframe].
  split; [done|]. split; [done|].
  intros Hnd i idx Hi. by apply (assign_each_written idxs vals s s' Hnd H).
Qed.

(** The loop panics on an index out of range, or when the values run out. *)
Lemma assign_each_is_Some (idxs : list nat) (vals s : list T) :
  is_Some (assign_each s idxs vals)
  <-> Forall (fun idx => idx < length s) idxs /\ length idxs <= length vals.
Proof.
  revert vals s. induction idxs as [|i0 idxs IH]; intros vals s; simpl.
  { split; [intros _; split; [constructor|lia]|eauto]. }
  destruct vals as [|v vals]; simpl.
  { split; [by intros [? ?]|intros [_ ?]; lia]. }
  case_decide as Hlt.
  - rewrite IH, length_insert. split.
    + intros [Hall Hlen]. split; [by constructor|lia].
    + intros [Hall Hlen]. apply Forall_cons in Hall as [_ Hall]. split; [done|lia].
  - split; [by intros [? ?]|]. intros [Hall _].
    apply Forall_cons in Hall as [? _]. done.
Qed.

End WriteFacts.

Section ModifyFacts.
Context `{G : Geometry}.
Implicit Types (s : Scene) (c : ObjectCollection) (op : sceneOp).

(** X19. The [do] of a modification returns exactly when every index of the
    selection is in range and the new collection holds a value for each of
    them; it then leaves the three sequences with their lengths, leaves every
    object that is not selected as it was, and, when the selection names no
    object twice, puts the i-th new value at the i-th index of the
    selection. *)
Theorem sceneOp_do_Modify op c :
  sceneOp_Type op = SceneOpModify ->
  (is_Some (sceneOp_do op c)
   <-> (Forall (fun idx => idx < length (Paths c)) (AnyPathIdxs (Sel op))
        /\ length (AnyPathIdxs (Sel op)) <= length (Paths (New op)))
       /\ (Forall (fun idx => idx < length (Buildings c)) (BuildingIdxs (Sel op))
           /\ length (BuildingIdxs (Sel op)) <= length (Buildings (New op)))
       /\ (Forall (fun idx => idx < length (TextBoxes c)) (TextBoxIdxs (Sel op))
           /\ length (TextBoxIdxs (Sel op)) <= length (TextBoxes (New op))))
  /\ (forall c', sceneOp_do op c = Some c' ->
        assigned (Paths c) (Paths c') (AnyPathIdxs (Sel op)) (Paths (New op))
        /\ assigned (Buildings c) (Buildings c') (BuildingIdxs (Sel op))
             (Buildings (New op))
        /\ assigned (TextBoxes c) (TextBoxes c') (TextBoxIdxs (Sel op))
             (TextBoxes (New op))).
Proof.
  intros Hty. unfold sceneOp_do. rewrite Hty.
  rewrite <- !assign_each_is_Some.
  destruct (assign_each (Paths c) _ _) as [ps|] eqn:Hp; simpl.
  2: { split; [split; [by intros [? ?]|by intros [[? ?] _]]|done]. }
  destruct (assign_each (Buildings c) _ _) as [bs|] eqn:Hb; simpl.
  2: { split; [split; [by intros [? ?]|by intros (_ & [? ?] & _)]|done]. }
  destruct (assign_each (TextBoxes c) _ _) as [ts|] eqn:Ht; simpl.
  2: { split; [split; [by intros [? ?]|by intros (_ & _ & [? ?])]|done]. }
  split; [split; eauto|].
  intros c' [= <-]. simpl. split; [|split]; by apply assign_each_assigned.
Qed.

(** X20. On a scene whose history is in step with its collection,
    [AddObjects] returns (and so do [AddPath], [AddBuilding] and [AddTextBox],
    which add a collection of one object): the objects are appended at the end
    of their sequences, the objects that were there keep their indices, the
    addition can be undone and nothing is left to do again. *)
Theorem AddObjects_returns s col :
  history_ok s ->
  exists s',
    AddObjects s col = Some s'
    /\ Scene_ObjectCollection s' = ObjectCollection_append (Scene_ObjectCollection s) col
    /\ history_ok s'
    /\ HasUndo s' = true
    /\ HasRedo s' = false
    /\ (forall path, AddPath s path = AddObjects s (mkObjectCollection [path] [] []))
    /\ (forall building,
          AddBuilding s building = AddObjects s (mkObjectCollection [] [building] []))
    /\ (forall tb, AddTextBox s tb = AddObjects s (mkObjectCollection [] [] [tb])).
Proof.
  intros Hok. pose proof Hok as (Hpos & _).
  set (op := mksceneOp SceneOpAdd ObjectSelection_zero ObjectCollection_zero col).
  assert (Hdo : exists s', doSceneOp s op = Some s').
  { unfold doSceneOp, trim_history. rewrite decide_True by done. simpl. eauto. }
  destruct Hdo as [s' Hdo]. exists s'. split; [exact Hdo|].
  pose proof (doSceneOp_history_ok s op s' Hok I Hdo) as Hok'.
  apply doSceneOp_Some in Hdo as (_ & c' & Hc' & ->).
  injection Hc' as <-. simpl.
  split; [done|]. split; [done|].
  unfold HasUndo, HasRedo. simpl. rewrite length_app, length_take. simpl.
  split; [apply bool_decide_eq_true_2; lia|].
  split; [apply bool_decide_eq_false_2; lia|done].
Qed.

End ModifyFacts.

(* ================================================================== *)
(** ** The properties on concrete scenes and texts *)
(* ================================================================== *)

Section MoreConcrete.
Import IntGeometry Examples MoreExamples.
#[local] Existing Instance Float32_Z.
#[local] Existing Instance Geometry_Z.
#[local] Existing Instance Collision_Z.

Lemma scene_tb_history_ok : history_ok scene_tb.
Proof.
  apply (mutate_history_ok Scene_zero (MAddTextBox textbox0));
    [apply Scene_zero_history_ok|exact I|reflexivity].
Qed.

Lemma scene_tb_undone_history_ok : history_ok scene_tb_undone.
Proof.
  destruct (Undo_history_ok _ (ResetModified_history_ok _ scene_tb_history_ok))
    as (s' & osel & Hu & Hok & _).
  assert (Hs : s' = scene_tb_undone).
  { assert (H : Undo (ResetModified scene_tb)
                = Some (scene_tb_undone, true, Some ObjectSelection_zero)) by reflexivity.
    rewrite H in Hu. by injection Hu as <-. }
  by rewrite <- Hs.
Qed.

Lemma scene_tb_undone_reachable : reachable scene_tb_undone.
Proof.
  apply (reachable_Undo scene_tb_saved scene_tb_undone true (Some ObjectSelection_zero));
    [|reflexivity].
  apply reachable_ResetModified.
  apply (reachable_mutate Scene_zero (MAddTextBox textbox0));
    [apply reachable_zero|exact I|reflexivity].
Qed.

Lemma scene_tb_hovered_reachable : reachable scene_tb_hovered.
Proof.
  apply (reachable_Update scene_tb ObjectSelection_zero (pt 1 1) false false BindingOther
           scene_tb_hovered None); [|reflexivity].
  apply (reachable_mutate Scene_zero (MAddTextBox textbox0));
    [apply reachable_zero|exact I|reflexivity].
Qed.

Lemma scene_tb_hovered_history_ok : history_ok scene_tb_hovered.
Proof. exact (set_Hovered_history_ok scene_tb _ scene_tb_history_ok). Qed.

Lemma scene_undone_hovered_history_ok : history_ok scene_undone_hovered.
Proof.
  split; [simpl; lia|]. split.
  - exists ObjectCollection_zero.
    eapply replays_cons; [exact I|reflexivity|apply replays_nil].
  - eexists. eapply replays_cons; [exact I|reflexivity|apply replays_nil].
Qed.

Lemma Hovered_reset_witness :
  Hovered scene_tb_hovered = mkObject TypeTextBox 0
  /\ (exists s', AddPath scene_tb_hovered path0 = Some s' /\ Hovered s' = Object_zero)
  /\ HasUndo scene_tb_hovered = true
  /\ (exists s' newSel,
        Undo scene_tb_hovered = Some (s', true, Some newSel)
        /\ Hovered s' = Object_zero)
  /\ Hovered scene_undone_hovered = mkObject TypeTextBox 0
  /\ HasRedo scene_undone_hovered = true
  /\ (exists s' newSel,
        Redo scene_undone_hovered = Some (s', true, Some newSel)
        /\ Hovered s' = Object_zero).
Proof.
  destruct Hovered_reset as (_ & _ & _ & _ & Hadd & Hundo & Hredo).
  assert (Hu : HasUndo scene_tb_hovered = true) by reflexivity.
  assert (Hr : HasRedo scene_undone_hovered = true) by reflexivity.
  split; [reflexivity|].
  split; [exact (Hadd scene_tb_hovered (mkObjectCollection [path0] [] [])
                   scene_tb_hovered_history_ok)|].
  split; [exact Hu|].
  split; [exact (Hundo scene_tb_hovered scene_tb_hovered_history_ok Hu)|].
  split; [reflexivity|]. split; [exact Hr|].
  exact (Hredo scene_undone_hovered scene_undone_hovered_history_ok Hr).
Defined.

Lemma reachable_history_ok_witness :
  reachable scene_tb_undone
  /\ history scene_tb_undone <> []
  /\ history_ok scene_tb_undone.
Proof.
  split; [exact scene_tb_undone_reachable|]. split; [done|].
  exact (reachable_history_ok scene_tb_undone scene_tb_undone_reachable).
Defined.

Lemma Undo_returns_witness :
  history_ok scene_tb
  /\ HasUndo scene_tb = true
  /\ exists s' osel,
       Undo scene_tb = Some (s', HasUndo scene_tb, osel)
       /\ history s' = history scene_tb
       /\ historyPos s' + (if HasUndo scene_tb then 1 else 0) = historyPos scene_tb
       /\ (HasUndo scene_tb = false -> s' = scene_tb /\ osel = None)
       /\ history_ok s'.
Proof.
  split; [exact scene_tb_history_ok|]. split; [reflexivity|].
  exact (Undo_returns scene_tb scene_tb_history_ok).
Defined.

Lemma Redo_returns_witness :
  history_ok scene_tb_undone
  /\ HasRedo scene_tb_undone = true
  /\ exists s' osel,
       Redo scene_tb_undone = Some (s', HasRedo scene_tb_undone, osel)
       /\ history s' = history scene_tb_undone
       /\ historyPos s'
          = historyPos scene_tb_undone + (if HasRedo scene_tb_undone then 1 else 0)
       /\ (HasRedo scene_tb_undone = false -> s' = scene_tb_undone /\ osel = None)
       /\ history_ok s'.
Proof.
  split; [exact scene_tb_undone_history_ok|]. split; [reflexivity|].
  exact (Redo_returns scene_tb_undone scene_tb_undone_history_ok).
Defined.

Lemma Undo_then_Redo_witness :
  history_ok scene_tb
  /\ HasUndo scene_tb = true
  /\ exists s1 sel1 s2 sel2,
       Undo scene_tb = Some (s1, true, Some sel1)
       /\ Redo s1 = Some (s2, true, Some sel2)
       /\ Scene_ObjectCollection s2 = Scene_ObjectCollection scene_tb
       /\ history s2 = history scene_tb
       /\ historyPos s2 = historyPos scene_tb
       /\ savedHistoryPos s2 = savedHistoryPos scene_tb.
Proof.
  assert (Hhas : HasUndo scene_tb = true) by reflexivity.
  split; [exact scene_tb_history_ok|]. split; [exact Hhas|].
  exact (Undo_then_Redo scene_tb scene_tb_history_ok Hhas).
Defined.

Lemma Redo_then_Undo_witness :
  history_ok scene_tb_undone
  /\ HasRedo scene_tb_undone = true
  /\ exists s1 sel1 s2 sel2,
       Redo scene_tb_undone = Some (s1, true, Some sel1)
       /\ Undo s1 = Some (s2, true, Some sel2)
       /\ Scene_ObjectCollection s2 = Scene_ObjectCollection scene_tb_undone
       /\ history s2 = history scene_tb_undone
       /\ historyPos s2 = historyPos scene_tb_undone
       /\ savedHistoryPos s2 = savedHistoryPos scene_tb_undone.
Proof.
  assert (Hhas : HasRedo scene_tb_undone = true) by reflexivity.
  split; [exact scene_tb_undone_history_ok|]. split; [exact Hhas|].
  exact (Redo_then_Undo scene_tb_undone scene_tb_undone_history_ok Hhas).
Defined.

Lemma IsModified_after_ResetModified_witness :
  mutation_distinct (MDeleteObjects sel_mixed)
  /\ exists s1,
       mutate (ResetModified scene6) (MDeleteObjects sel_mixed) = Some s1
       /\ IsModified (ResetModified scene6) = false
       /\ IsModified s1 = true
       /\ exists s2 osel, Undo s1 = Some (s2, true, osel) /\ IsModified s2 = false.
Proof.
  assert (Hd : mutation_distinct (MDeleteObjects sel_mixed)).
  { repeat split; compute_done. }
  split; [exact Hd|]. eexists. split; [vm_compute; reflexivity|].
  apply (IsModified_after_ResetModified scene6 (MDeleteObjects sel_mixed)); [exact Hd|].
  vm_compute. reflexivity.
Defined.

Lemma IsModified_after_Undo_and_mutation_witness :
  IsModified scene_tb_saved = false
  /\ Undo scene_tb_saved = Some (scene_tb_undone, true, Some ObjectSelection_zero)
  /\ mutate scene_tb_undone (MAddBuilding building0) = Some scene_saved_then_changed
  /\ Scene_ObjectCollection scene_saved_then_changed
     <> Scene_ObjectCollection scene_tb_saved
  /\ IsModified scene_saved_then_changed = false.
Proof.
  assert (H1 : IsModified scene_tb_saved = false) by reflexivity.
  assert (H2 : Undo scene_tb_saved
               = Some (scene_tb_undone, true, Some ObjectSelection_zero)) by reflexivity.
  assert (H3 : mutate scene_tb_undone (MAddBuilding building0)
               = Some scene_saved_then_changed) by reflexivity.
  split; [exact H1|]. split; [exact H2|]. split; [exact H3|]. split; [done|].
  exact (IsModified_after_Undo_and_mutation _ _ _ _ _ H1 H2 H3).
Defined.

Lemma GetObjectAt_contains_witness :
  GetObjectAt scene6 sel_mixed (pt 4 2) = Some (mkObject TypePath 1)
  /\ ((Object_valid (Scene_ObjectCollection scene6) (mkObject TypePath 1)
       /\ Object_contains (Scene_ObjectCollection scene6) (mkObject TypePath 1) (pt 4 2))
      \/ (mkObject TypePath 1 = Object_zero
          /\ forall o', ~ Object_contains (Scene_ObjectCollection scene6) o' (pt 4 2))).
Proof.
  assert (H : GetObjectAt scene6 sel_mixed (pt 4 2) = Some (mkObject TypePath 1))
    by reflexivity.
  split; [exact H|].
  exact (GetObjectAt_contains scene6 sel_mixed (pt 4 2) _ H).
Defined.

Lemma reachable_Hovered_valid_witness :
  reachable scene_tb_hovered
  /\ Hovered scene_tb_hovered = mkObject TypeTextBox 0
  /\ Object_valid (Scene_ObjectCollection scene_tb_hovered) (Hovered scene_tb_hovered).
Proof.
  split; [exact scene_tb_hovered_reachable|]. split; [reflexivity|].
  exact (reachable_Hovered_valid scene_tb_hovered scene_tb_hovered_reachable).
Defined.

(** A building on the cell of [building0] is valid only if [building0] is the
    one ignored. *)
Example IsBuildingValid_ignore :
  IsBuildingValid scene6 (mkBuilding 1 (pt 10 10) 0) (-1) = false
  /\ IsBuildingValid scene6 (mkBuilding 1 (pt 10 10) 0) 0 = true
  /\ IsBuildingValid scene6 (mkBuilding 1 (pt 10 10) 0) 1 = false.
Proof. repeat split. Qed.

Lemma sceneOp_do_Modify_witness :
  sceneOp_Type op_modify = SceneOpModify
  /\ sceneOp_do op_modify (Scene_ObjectCollection scene6)
     = Some (mkObjectCollection [path0; path0] [building0; building1] [textbox1; textbox1])
  /\ assigned [path0; path1] [path0; path0] [1] [path0].
Proof.
  assert (Hty : sceneOp_Type op_modify = SceneOpModify) by reflexivity.
  assert (Hdo : sceneOp_do op_modify (Scene_ObjectCollection scene6)
                = Some (mkObjectCollection [path0; path0] [building0; building1]
                          [textbox1; textbox1])) by reflexivity.
  split; [exact Hty|]. split; [exact Hdo|].
  exact (proj1 (proj2 (sceneOp_do_Modify op_modify (Scene_ObjectCollection scene6) Hty)
                  _ Hdo)).
Defined.

Lemma AddObjects_returns_witness :
  history_ok scene_tb_undone
  /\ HasRedo scene_tb_undone = true
  /\ exists s',
       AddObjects scene_tb_undone (mkObjectCollection [path0] [building0] []) = Some s'
       /\ Scene_ObjectCollection s'
          = ObjectCollection_append (Scene_ObjectCollection scene_tb_undone)
              (mkObjectCollection [path0] [building0] [])
       /\ history_ok s'
       /\ HasUndo s' = true
       /\ HasRedo s' = false.
Proof.
  split; [exact scene_tb_undone_history_ok|]. split; [reflexivity|].
  destruct (AddObjects_returns scene_tb_undone (mkObjectCollection [path0] [building0] [])
              scene_tb_undone_history_ok) as (s' & H1 & H2 & H3 & H4 & H5 & _).
  exists s'. done.
Defined.

End MoreConcrete.

Section MoreCodecConcrete.
Import Text IntGeometry IntText Examples CodecExamples MoreCodecExamples.
#[local] Existing Instance Float32_Z.
#[local] Existing Instance Geometry_Z.
#[local] Existing Instance TextFormat_Z.
#[local] Existing Instance Registry_4.

(** Lines of the three kinds, interleaved and with blank lines between
    them. *)
Example decodeText_lines_interleaved :
  decodeText_lines
    ["TextBox 1 2 3 4 " +:+ String DQ "hi" +:+ String DQ EmptyString; EmptyString; "Pipe 0 0 -4 12";
     "Constructor 10 10 90"; EmptyString; "Belt 0 0 1 1"]
    0 2 ObjectCollection_zero
  = (mkObjectCollection
       [mkPath 1 (pt 0 0) (pt (-4) 12); mkPath 0 (pt 0 0) (pt 1 1)]
       [mkBuilding 1 (pt 10 10) 90]
       [mkTextBox (mkRectangle 1%Z 2%Z 3%Z 4%Z) "hi"], None).
Proof. reflexivity. Qed.

Lemma decodeText_partial_witness :
  decodeText lines_path_then_bad 0 Scene_zero
  = (set_ObjectCollection Scene_zero
       (mkObjectCollection [mkPath 1 (pt 0 0) (pt (-4) 12)] [] []),
     Some (DecodeError (mkDecodeTextError msgInvalidTextBox None 3 0)))
  /\ exists e pre line post,
       DecodeError (mkDecodeTextError msgInvalidTextBox None 3 0) = DecodeError e
       /\ lines_path_then_bad = pre ++ line :: post
       /\ decode_line line = DecodeFailed (Msg e) (Err e)
       /\ Forall (fun d => decode_failed d = false) (decoded_lines pre)
       /\ Scene_ObjectCollection
            (set_ObjectCollection Scene_zero
               (mkObjectCollection [mkPath 1 (pt 0 0) (pt (-4) 12)] [] []))
          = ObjectCollection_append (Scene_ObjectCollection Scene_zero)
              (decoded_objects (decoded_lines pre)).
Proof.
  assert (H : decodeText lines_path_then_bad 0 Scene_zero
              = (set_ObjectCollection Scene_zero
                   (mkObjectCollection [mkPath 1 (pt 0 0) (pt (-4) 12)] [] []),
                 Some (DecodeError (mkDecodeTextError msgInvalidTextBox None 3 0))))
    by reflexivity.
  split; [exact H|].
  exact (decodeText_partial _ _ _ _ _ H).
Defined.

Lemma LoadFromText_error_lines_witness :
  LoadFromText text_path_then_bad Scene_zero
  = (set_ObjectCollection Scene_zero
       (mkObjectCollection [mkPath 1 (pt 0 0) (pt (-4) 12)] [] []),
     Some (DecodeError (mkDecodeTextError msgInvalidTextBox None 3 0)))
  /\ ((3 = 0 /\ msgInvalidTextBox = msgEmpty
       /\ set_ObjectCollection Scene_zero
            (mkObjectCollection [mkPath 1 (pt 0 0) (pt (-4) 12)] [] []) = Scene_zero)
      \/ (3 = 1 /\ msgInvalidTextBox ∈ header_messages
          /\ set_ObjectCollection Scene_zero
               (mkObjectCollection [mkPath 1 (pt 0 0) (pt (-4) 12)] [] []) = Scene_zero)
      \/ (2 <= 3 /\ msgInvalidTextBox ∈ line_messages /\ 0%Z = 0%Z)).
Proof.
  assert (H : LoadFromText text_path_then_bad Scene_zero
              = (set_ObjectCollection Scene_zero
                   (mkObjectCollection [mkPath 1 (pt 0 0) (pt (-4) 12)] [] []),
                 Some (DecodeError (mkDecodeTextError msgInvalidTextBox None 3 0))))
    by reflexivity.
  split; [exact H|].
  exact (LoadFromText_error_lines _ _ _ _ H).
Defined.

Lemma LoadFromText_header_witness :
  head (ScanLines text_negative_version).1
    = Some ("#VERSION=" +:+ formatInt (-3) +:+ " x")
  /\ number_ends " x"
  /\ (minInt64 <= -3 <= maxInt64)%Z
  /\ LoadFromText text_negative_version Scene_zero
     = (Scene_zero,
        Some (DecodeError (mkDecodeTextError msgInvalidVersionNumber None 1 0))).
Proof.
  assert (Hhead : head (ScanLines text_negative_version).1
                  = Some ("#VERSION=" +:+ formatInt (-3) +:+ " x")) by reflexivity.
  assert (Hends : number_ends " x") by reflexivity.
  assert (Hv : (minInt64 <= -3 <= maxInt64)%Z) by (unfold minInt64, maxInt64; lia).
  split; [exact Hhead|]. split; [exact Hends|]. split; [exact Hv|].
  exact (LoadFromText_header text_negative_version (-3) " x" Scene_zero Hhead Hends Hv).
Defined.

(** [%d] reads decimal digits only: an underscore ends the number, and what
    follows the number is not looked at. *)
Example LoadFromText_version_underscore :
  LoadFromText "#VERSION=1_0" Scene_zero
  = (Scene_zero, Some (DecodeError (mkDecodeTextError msgVersionTooHigh None 1 1)))
  /\ LoadFromText ("#VERSION=0_1" +:+ NL +:+ "Constructor 10 10 1_0") Scene_zero
     = (set_ObjectCollection Scene_zero
          (mkObjectCollection [] [mkBuilding 1 (pt 10 10) 1] []), None).
Proof. split; reflexivity. Qed.

(** A header without a number, or with a sign only, runs out of input:
    [Sscanf] returns [io.EOF]. *)
Example LoadFromText_version_missing :
  LoadFromText "#VERSION=" Scene_zero
  = (Scene_zero,
     Some (DecodeError (mkDecodeTextError msgInvalidVersionLine (Some ErrEOF) 1 0)))
  /\ LoadFromText "#VERSION=-" Scene_zero
     = (Scene_zero,
        Some (DecodeError (mkDecodeTextError msgInvalidVersionLine (Some ErrEOF) 1 0)))
  /\ LoadFromText "#VERSION" Scene_zero
     = (Scene_zero,
        Some (DecodeError
                (mkDecodeTextError msgInvalidVersionLine (Some ErrUnexpectedEOF) 1 0))).
Proof. repeat split. Qed.

(** The spaces [Sscanf] skips before a number are those of Unicode: a
    no-break space (bytes 194 160 in UTF-8) or an ideographic space (bytes
    227 128 128) before the version is skipped. *)
Example LoadFromText_version_wide_space :
  LoadFromText
    ("#VERSION=" +:+ String (ascii_of_nat 194) (String (ascii_of_nat 160) "1"))
    Scene_zero
  = (Scene_zero, Some (DecodeError (mkDecodeTextError msgVersionTooHigh None 1 1)))
  /\ LoadFromText
       ("#VERSION=" +:+ String (ascii_of_nat 227) (String (ascii_of_nat 128)
                          (String (ascii_of_nat 128) "1")))
       Scene_zero
     = (Scene_zero, Some (DecodeError (mkDecodeTextError msgVersionTooHigh None 1 1))).
Proof. split; reflexivity. Qed.

(** A first line that does not fit in the buffer of the scanner: here
    [LoadFromText] reads the error of the scanner and returns it. *)
Example LoadFromText_long_first_line :
  LoadFromText long_content Scene_zero = (Scene_zero, Some (ScannerError ErrTooLong)).
Proof. vm_compute. reflexivity. Qed.

End MoreCodecConcrete.
